(** * AG_catapult: the live polling chat session

    A shallow embedding of the chat core of [AG_catapult.py]: the query
    helpers over the [messages] table, the [ChatPoller] thread and the
    foreground loop of [chat_session], run under an explicit scheduler
    that interleaves the two threads with the other clients of the
    database.

    Modelling conventions.
    - A Python [str] is a [string]; its characters stand for the code
      points U+0000..U+00FF.
    - [displayed_ids] is a [gset Z]; message ids are [Z].
    - A timestamp is a [Z] read from the clock of the database server.
    - The console is the sequence of chat messages that were rendered,
      each with the id of its row (banner, prompts and diagnostics are
      left out); printing does not fail.
    - A thread is a program counter and a step function. A step goes from
      one point where the other thread can be seen to have run to the
      next: a statement on the database, a call of [on_new], a call of
      [input()], the statements after [insert_message_returning_id] has
      returned, [displayed_ids.clear()]. The test and the insertion of
      [on_new] are one step; the code runs them as two statements without
      a lock, so that a schedule of these steps never lets the two
      threads pass the test for one id together.
    - [poller.join(timeout=1.0)] and the duration of [time.sleep] are real
      time and are not represented; the sleep itself is an event of the
      poller's trace.
    - [submitted], the trace of the poller and the ids on the console are
      records kept for the statements; the code does not read them.

    Beside the session, the accounts ([users]), the inbox, the contacts
    and the creation of the user are embedded as functions of the state
    they read and write.
    - The database is one state: the two tables, the sequence of the ids
      of the messages, the clock and the link. The table [users] is the
      list of its rows, in the order of their insertion; a call of a
      function of the program sees one state of the server.
    - An [INSERT] is refused as the declarations of [ensure_tables] and
      the driver have it: the two keys of [users], the two references and
      the sequence of [messages], the length of [VARCHAR], and U+0000 in
      a parameter of a message. The texts of the errors are shortened.
    - Rows that an [ORDER BY] does not tell apart are taken in the order
      of the table.
    - The contacts are the list of the pairs of the dictionary, in the
      order of insertion. [USER_FILE] is the user it holds and
      [save_contacts] the contacts it is handed; the text of the two
      files is not represented.
    - [random.randint] is a function from the number of the call to its
      result; a number read with [int()] is a [Z].
    - The calls of [create_or_load_user] inside itself are counted
      against the room the interpreter has for them. *)

From Stdlib Require Import ZArith Ascii String.
From stdpp Require Import base list gmap sorting strings pretty.

Set Warnings "-clear-no-such-hyp".

Local Open Scope string_scope.
Local Open Scope list_scope.
Local Open Scope Z_scope.

(** ** Python string primitives *)

Module Py.

(** [str.isspace] on one character. *)
Definition isspace (c : ascii) : bool :=
  let n := N_of_ascii c in
  ((9 <=? n) && (n <=? 13) || (28 <=? n) && (n <=? 32)
   || (n =? 133) || (n =? 160))%N.

(** [str.lower] on one character. *)
Definition lower_char (c : ascii) : ascii :=
  let n := N_of_ascii c in
  if ((65 <=? n) && (n <=? 90)
      || (192 <=? n) && (n <=? 222) && negb (n =? 215))%N
  then ascii_of_N (n + 32) else c.

Fixpoint lower (s : string) : string :=
  match s with
  | EmptyString => EmptyString
  | String c s' => String (lower_char c) (lower s')
  end.

Fixpoint lstrip (s : string) : string :=
  match s with
  | EmptyString => EmptyString
  | String c s' => if isspace c then lstrip s' else s
  end.

Fixpoint rstrip (s : string) : string :=
  match s with
  | EmptyString => EmptyString
  | String c s' =>
      match rstrip s' with
      | EmptyString => if isspace c then EmptyString else String c EmptyString
      | t => String c t
      end
  end.

(** [s.strip()] *)
Definition strip (s : string) : string := rstrip (lstrip s).

(** [sep.join(parts)] *)
Fixpoint join (sep : string) (parts : list string) : string :=
  match parts with
  | [] => EmptyString
  | [p] => p
  | p :: rest => p +:+ sep +:+ join sep rest
  end.

(** A string made of whitespace only. *)
Fixpoint blank (s : string) : bool :=
  match s with
  | EmptyString => true
  | String c s' => isspace c && blank s'
  end.

Definition newline : string := String (ascii_of_N 10) EmptyString.

End Py.

(** ** The message store *)

(** A row of the [messages] table. *)
Record message := Message {
  id : Z;
  from_user_id : string;
  to_user_id : string;
  body : string;
  created_at : Z
}.

(** A row as the two history queries select it:
    [id, from_user_id, message, created_at]. *)
Record chat_row := ChatRow {
  rid : Z;
  frm : string;
  msg : string;
  created : Z
}.

(** What [psycopg2.connect] and the statements run on the connection do:
    the server is reachable, the connection is refused ([connect_db]
    returns [None]), or a statement raises inside the [try] block. *)
Inductive link := Up | Refused | Faulty (e : string).

(** A row of [users], which is also the dictionary the program keeps of
    a user: [{"user_id": .., "username": ..}]. *)
Module User.
Record t := Build { user_id : string; username : string }.
End User.

(** The database of [DATABASE_URL]: the two tables of [ensure_tables],
    the sequence behind [messages.id], the clock and the link. *)
Record database := Database {
  users : list User.t;
  messages : list message;
  serial : Z;          (* last value handed out by the SERIAL sequence *)
  now : Z;             (* CURRENT_TIMESTAMP *)
  link_state : link
}.

Definition in_conversation (a b : string) (m : message) : Prop :=
  (from_user_id m = a ∧ to_user_id m = b) ∨
  (from_user_id m = b ∧ to_user_id m = a).

#[global] Instance in_conversation_dec a b m : Decision (in_conversation a b m).
Proof. unfold in_conversation. apply _. Defined.

Definition select_row (m : message) : chat_row :=
  ChatRow (id m) (from_user_id m) (body m) (created_at m).

Definition by_id (r1 r2 : chat_row) : Prop := rid r1 ≤ rid r2.

#[global] Instance by_id_dec r1 r2 : Decision (by_id r1 r2).
Proof. unfold by_id. apply _. Defined.

#[global] Instance by_id_total : Total by_id.
Proof. intros r1 r2. unfold by_id. lia. Qed.

#[global] Instance by_id_trans : Transitive by_id.
Proof. intros r1 r2 r3. unfold by_id. lia. Qed.

(** [ORDER BY id ASC] *)
Definition order_by_id (rows : list chat_row) : list chat_row :=
  merge_sort by_id rows.

Definition get_chat_history_since
    (d : database) (user_id partner_id : string) (since_id : Z)
  : list chat_row :=
  match link_state d with
  | Up =>
      order_by_id
        (select_row <$>
           filter (λ m, in_conversation user_id partner_id m ∧ since_id < id m)
                  (messages d))
  | Refused => []
  | Faulty _ => []
  end.

Definition get_chat_history_all
    (d : database) (user_id partner_id : string) : list chat_row :=
  match link_state d with
  | Up =>
      order_by_id
        (select_row <$> filter (in_conversation user_id partner_id) (messages d))
  | Refused => []
  | Faulty _ => []
  end.

(** The pair returned by [insert_message_returning_id]: [(id, created_at)]
    or [(None, diagnostic)]. *)
Inductive insert_result :=
| Inserted (mid : Z) (created : Z)
| InsertFailed (err : string).

(** The row is written under the next value of the sequence. *)
Definition insert_row (d : database) (from_id to_id text : string) : database :=
  let mid := serial d + 1 in
  Database (users d) (messages d ++ [Message mid from_id to_id text (now d)])
           mid (now d) (link_state d).

Definition spaces_only (s : string) : bool :=
  forallb (λ c, bool_decide (c = " "%char)) (list_ascii_of_string s).

(** What a column [VARCHAR(n)] stores of [s]: [s] when it fits, its
    first [n] characters when the rest is spaces, and nothing (the
    statement fails) otherwise. *)
Definition varchar (n : nat) (s : string) : option string :=
  if bool_decide (String.length s ≤ n)%nat then Some s
  else if spaces_only (String.substring n (String.length s - n) s)
       then Some (String.substring 0 n s)
       else None.

(** The string holds the character U+0000, which [psycopg2] refuses in
    a parameter before it sends the statement. *)
Definition has_nul (s : string) : bool :=
  existsb (λ c, bool_decide (c = Ascii.zero)) (list_ascii_of_string s).

(** The last value of the sequence of a [SERIAL] column. *)
Definition SERIAL_MAX : Z := 2147483647.

(** A value of the sequence is used up and no row is written. *)
Definition skip_id (d : database) : database :=
  Database (users d) (messages d) (serial d + 1) (now d) (link_state d).

(** The diagnostics [str(e)] of a refused [INSERT], each standing for
    the text of the error. *)
Definition NUL_ERROR : string :=
  "A string literal cannot contain NUL (0x00) characters.".
Definition SEQUENCE_ERROR : string :=
  "nextval: reached maximum value of sequence".
Definition LENGTH_ERROR : string :=
  "value too long for type character varying(8)".
Definition REFERENCE_ERROR : string :=
  "insert or update on table messages violates foreign key constraint".

(** [insert_message_returning_id]. On a reachable server the [INSERT]
    is refused, and [(None, str(e))] returned, when a parameter holds
    U+0000, when an id does not fit [VARCHAR(8)], when the sequence is
    at its end, and when the sender or the receiver is not a row of
    [users]; in the last case the value of the sequence is used up. *)
Definition insert_message_returning_id
    (d : database) (from_id to_id message_text : string)
  : database * insert_result :=
  match link_state d with
  | Refused => (d, InsertFailed "DB connection failed")
  | Faulty e => (d, InsertFailed e)
  | Up =>
      if has_nul from_id || has_nul to_id || has_nul message_text
      then (d, InsertFailed NUL_ERROR)
      else
        match varchar 8 from_id, varchar 8 to_id with
        | Some sender, Some receiver =>
            if bool_decide (SERIAL_MAX ≤ serial d)
            then (d, InsertFailed SEQUENCE_ERROR)
            else if bool_decide (sender ∈ User.user_id <$> users d ∧
                                 receiver ∈ User.user_id <$> users d)
            then (insert_row d sender receiver message_text,
                  Inserted (serial d + 1) (now d))
            else (skip_id d, InsertFailed REFERENCE_ERROR)
        | _, _ => (d, InsertFailed LENGTH_ERROR)
        end
  end.

Definition delete_where (P : message → Prop) `{∀ m, Decision (P m)}
    (d : database) : database :=
  Database (users d) (filter (λ m, ¬ P m) (messages d)) (serial d) (now d)
           (link_state d).

Definition clear_chat_between (d : database) (user_id partner_id : string)
  : database * (bool * option string) :=
  match link_state d with
  | Refused => (d, (false, Some "DB connection failed"))
  | Faulty e => (d, (false, Some e))
  | Up => (delete_where (in_conversation user_id partner_id) d, (true, None))
  end.

(** Ids come from the sequence: none is ahead of it, and it starts at 1. *)
Definition db_wf (d : database) : Prop :=
  0 ≤ serial d ∧ ∀ m, m ∈ messages d → id m ≤ serial d.

(** ** The poller thread *)

(** Seconds between two polls. *)
Definition POLL_INTERVAL : Z := 1.

(** What a call of the delivery callback does to the state it closes
    over: it returns, or an [Exception] leaves it. *)
Inductive callback_result (S : Type) :=
| Returned (s : S)
| Raised (s : S).
Arguments Returned {S} s.
Arguments Raised {S} s.

(** What the poller thread does, in the order it does it. *)
Inductive poller_event :=
| EvFetch (since_id : Z)                  (* get_chat_history_since(.., last_id) *)
| EvCallback (r : chat_row) (watermark : Z) (* on_new(r), with last_id as it is then *)
| EvSleep (seconds : Z).                  (* time.sleep(seconds) *)

(** Where the thread stands in [run]. *)
Inductive poller_pc :=
| AtLoopTest                      (* while not self.stop_event.is_set() *)
| InFor (rows : list chat_row)    (* rows still to go through in the for loop *)
| AtSleep                         (* time.sleep(POLL_INTERVAL), either branch *)
| Finished.                       (* run has returned *)

Record poller := Poller {
  last_id : Z;
  pc : poller_pc;
  trace : list poller_event
}.

Module ChatPoller.
Section Run.
Context {St : Type}.
(** [self.on_new], acting on the state of its closure *)
Variable on_new : chat_row → St → callback_result St.

(** [if rid > self.last_id: self.last_id = rid] *)
Definition advance (last rid : Z) : Z :=
  if bool_decide (rid > last) then rid else last.

Definition after_row (rest : list chat_row) : poller_pc :=
  match rest with [] => AtSleep | _ :: _ => InFor rest end.

(** One step of [run]. [stop] is [self.stop_event.is_set()] and [fetch]
    is [get_chat_history_since(self.user["user_id"], self.partner_id, _)]
    on the database as it is at this step. *)
Definition run_step (stop : bool) (fetch : Z → list chat_row)
    (p : poller) (s : St) : poller * St :=
  match pc p with
  | AtLoopTest =>
      if stop then (Poller (last_id p) Finished (trace p), s)
      else
        let rows := fetch (last_id p) in
        (Poller (last_id p) (after_row rows)
                (trace p ++ [EvFetch (last_id p)]), s)
  | InFor [] => (Poller (last_id p) AtSleep (trace p), s)
  | InFor (r :: rest) =>
      let l := advance (last_id p) (rid r) in
      let tr := trace p ++ [EvCallback r l] in
      match on_new r s with
      | Returned s' => (Poller l (after_row rest) tr, s')
      | Raised s' => (Poller l AtSleep tr, s')
      end
  | AtSleep =>
      (Poller (last_id p) AtLoopTest (trace p ++ [EvSleep POLL_INTERVAL]), s)
  | Finished => (p, s)
  end.

(** Steps the thread needs to be back at the loop test. *)
Definition steps_to_loop_test (p : poller) : nat :=
  match pc p with
  | AtLoopTest => 0
  | InFor rows => S (Nat.max 1 (length rows))
  | AtSleep => 1
  | Finished => 0
  end.

Fixpoint run_steps (n : nat) (stop : bool) (fetch : Z → list chat_row)
    (p : poller) (s : St) : poller * St :=
  match n with
  | O => (p, s)
  | S n' => let '(p', s') := run_step stop fetch p s in
            run_steps n' stop fetch p' s'
  end.
End Run.
End ChatPoller.

(** The callbacks of one pass over [rows], as the trace records them. *)
Fixpoint deliveries (last : Z) (rows : list chat_row) : list poller_event :=
  match rows with
  | [] => []
  | r :: rest =>
      let l := Z.max last (rid r) in EvCallback r l :: deliveries l rest
  end.

Definition watermark_after (last : Z) (rows : list chat_row) : Z :=
  fold_left Z.max (rid <$> rows) last.

(** The iteration as the code runs it, and as the specification words it. *)
Definition code_iteration (last : Z) (rows : list chat_row) : list poller_event :=
  [EvFetch last] ++ deliveries last rows ++ [EvSleep POLL_INTERVAL].

Definition spec_iteration (last : Z) (rows : list chat_row) : list poller_event :=
  [EvSleep POLL_INTERVAL; EvFetch last] ++ deliveries last rows.

(** ** The chat session *)

(** A chat message on the console: the label before the colon, the text
    and the timestamp under it. [s_id] is the row it renders. *)
Record shown := Shown {
  s_id : Z;
  s_label : string;
  s_body : string;
  s_created : Z
}.

(** The two locals of [chat_session] that [on_new] closes over, with the
    console. *)
Record screen := Screen {
  displayed_ids : gset Z;
  transcript : list shown
}.

Inductive exn := KeyboardInterrupt | EOFError.

(** What one call of [input()] gives. *)
Inductive key_event :=
| Typed (line : string)
| Fails (e : exn).

(** [input()]: a closed standard input raises [EOFError] at every call. *)
Definition input (keys : list key_event) : key_event * list key_event :=
  match keys with
  | [] => (Fails EOFError, [])
  | k :: rest => (k, rest)
  end.

(** The branch of the inner loop a line takes. *)
Inductive action := Reload | Clear | Quit | Send | Append.

Definition dispatch (line : string) (lines : list string) : action :=
  if bool_decide (Py.lower (Py.strip line) = "r" ∧ lines = []) then Reload
  else if bool_decide (Py.lower (Py.strip line) = "c" ∧ lines = []) then Clear
  else if bool_decide (Py.strip line = "=" ∧ lines = []) then Quit
  else if bool_decide (line = "" ∧ last lines = Some "") then Send
  else Append.

(** The command a token stands for. *)
Definition command_of (tok : string) : action :=
  if bool_decide (tok = "r") then Reload
  else if bool_decide (tok = "c") then Clear
  else Quit.


(** Where the foreground thread stands in [chat_session]. *)
Inductive fg_pc :=
| AtInput (lines : list string)      (* line = input(), with the lines so far *)
| InReload (rows : list chat_row)    (* rows still to go through on reload *)
| AtConfirm                          (* input("Clear chat with this user? ..") *)
| AfterClear                         (* clear_chat_between gave ok *)
| AfterInsert (mid : Z) (created : Z) (message_text : string)
                                     (* insert_message_returning_id gave mid *)
| Left                               (* chat_session has returned *)
| Unwound (e : exn).                 (* an exception left chat_session *)

Record world := World {
  db : database;
  stdin : list key_event;
  scr : screen;
  stop_event : bool;
  thread : poller;
  fg : fg_pc;
  submitted : list string   (* texts handed to insert_message_returning_id *)
}.

(** What the other clients of the database do meanwhile. *)
Inductive outside :=
| ExtInsert (from_id to_id text : string)
| ExtDelete (doomed : message → bool)
| ExtLink (l : link)
| ExtTick (t : Z)
| ExtUsers (us : list User.t).   (* accounts are registered and deleted *)

Inductive actor := Foreground | Polling | Outside (o : outside).

Definition outside_step (o : outside) (d : database) : database :=
  match o with
  | ExtInsert f t x => insert_row d f t x
  | ExtDelete doomed => delete_where (λ m, doomed m = true) d
  | ExtLink l => Database (users d) (messages d) (serial d) (now d) l
  | ExtTick t => Database (users d) (messages d) (serial d) t (link_state d)
  | ExtUsers us => Database us (messages d) (serial d) (now d) (link_state d)
  end.

(** Rows of [d'] are rows of [d] or were inserted after [d]. *)
Definition db_evolves (d d' : database) : Prop :=
  serial d ≤ serial d' ∧
  ∀ m, m ∈ messages d' → m ∈ messages d ∨ serial d < id m.

(** An actor of the outside that writes a new row. *)
Definition inserts (a : actor) : bool :=
  match a with
  | Outside (ExtInsert _ _ _) => true
  | _ => false
  end.

(** The session has read one line of content, or is about to, and the
    input ends there. *)
Definition cut_short (l : string) (w : world) : Prop :=
  stop_event w = false ∧ submitted w = [] ∧
  ((fg w = AtInput [] ∧ stdin w = [Typed l]) ∨
   (∃ lines, lines ≠ [] ∧ fg w = AtInput lines ∧ stdin w = [])).

Section Session.
Variables user_id partner_id partner_name : string.

Definition render (r : chat_row) : shown :=
  Shown (rid r)
        (if bool_decide (frm r = user_id) then "You" else partner_name)
        (msg r) (created r).

(** The loop over [history] at the top of [chat_session]. *)
Definition load_history (history : list chat_row) : screen * Z :=
  fold_left
    (λ acc r,
       (Screen ({[rid r]} ∪ displayed_ids acc.1) (transcript acc.1 ++ [render r]),
        Z.max acc.2 (rid r)))
    history (Screen ∅ [], 0).

Definition on_new (r : chat_row) (sc : screen) : callback_result screen :=
  if bool_decide (rid r ∈ displayed_ids sc) then Returned sc
  else Returned (Screen ({[rid r]} ∪ displayed_ids sc)
                        (transcript sc ++ [render r])).

(** [chat_session] up to [poller.start()]. *)
Definition chat_session_open (d : database) (keys : list key_event) : world :=
  let history := get_chat_history_all d user_id partner_id in
  let '(sc, last) := load_history history in
  World d keys sc false (Poller last AtLoopTest []) (AtInput []) [].

Definition goto (w : world) (f : fg_pc) : world :=
  World (db w) (stdin w) (scr w) (stop_event w) (thread w) f (submitted w).

(** The code after the inner loop, with [lines] as the loop left it. *)
Definition submit (w : world) (lines : list string) : world :=
  match lines with
  | [] => goto w (AtInput [])
  | _ :: _ =>
      let message_text := Py.strip (Py.join Py.newline lines) in
      if bool_decide (message_text = "") then goto w (AtInput [])
      else
        let '(d, res) :=
          insert_message_returning_id (db w) user_id partner_id message_text in
        let next :=
          match res with
          | Inserted mid created =>
              if bool_decide (mid = 0) then AtInput []
              else AfterInsert mid created message_text
          | InsertFailed _ => AtInput []
          end in
        World d (stdin w) (scr w) (stop_event w) (thread w) next
              (submitted w ++ [message_text])
  end.

(** The body of the inner loop on [line]. *)
Definition on_line (w : world) (line : string) (lines : list string) : world :=
  match dispatch line lines with
  | Reload =>
      let rows :=
        get_chat_history_since (db w) user_id partner_id (last_id (thread w)) in
      goto w (match rows with [] => AtInput lines | _ :: _ => InReload rows end)
  | Clear => goto w AtConfirm
  | Quit =>
      World (db w) (stdin w) (scr w) true (thread w) Left (submitted w)
  | Send => submit w (removelast lines)
  | Append => goto w (AtInput (lines ++ [line]))
  end.

Definition screen_of (c : callback_result screen) : screen :=
  match c with Returned s => s | Raised s => s end.

(** One step of the foreground thread. *)
Definition chat_session_step (w : world) : world :=
  match fg w with
  | AtInput lines =>
      let '(k, rest) := input (stdin w) in
      let line := match k with Typed l => l | Fails _ => "=" end in
      on_line (World (db w) rest (scr w) (stop_event w) (thread w) (fg w)
                     (submitted w)) line lines
  | InReload [] => goto w (AtInput [])
  | InReload (r :: rest) =>
      World (db w) (stdin w) (screen_of (on_new r (scr w))) (stop_event w)
            (thread w)
            (match rest with [] => AtInput [] | _ :: _ => InReload rest end)
            (submitted w)
  | AtConfirm =>
      let '(k, rest) := input (stdin w) in
      match k with
      | Fails e =>
          World (db w) rest (scr w) true (thread w) (Unwound e) (submitted w)
      | Typed l =>
          let confirm := Py.lower (Py.strip l) in
          if bool_decide (confirm = "y") then
            let '(d, (ok, _)) :=
              clear_chat_between (db w) user_id partner_id in
            World d rest (scr w) (stop_event w) (thread w)
                  (if ok then AfterClear else AtInput []) (submitted w)
          else
            World (db w) rest (scr w) (stop_event w) (thread w) (AtInput [])
                  (submitted w)
      end
  | AfterClear =>
      World (db w) (stdin w) (Screen ∅ (transcript (scr w)))
            (stop_event w) (thread w) (AtInput []) (submitted w)
  | AfterInsert mid created message_text =>
      World (db w) (stdin w)
            (Screen ({[mid]} ∪ displayed_ids (scr w))
                    (transcript (scr w) ++ [Shown mid "You" message_text created]))
            (stop_event w) (thread w) (AtInput []) (submitted w)
  | Left => w
  | Unwound _ => w
  end.

(** One step of the poller thread of the session. *)
Definition poller_step (w : world) : world :=
  let '(p, sc) :=
    ChatPoller.run_step on_new (stop_event w)
      (get_chat_history_since (db w) user_id partner_id) (thread w) (scr w) in
  World (db w) (stdin w) sc (stop_event w) p (fg w) (submitted w).

Definition step (a : actor) (w : world) : world :=
  match a with
  | Foreground => chat_session_step w
  | Polling => poller_step w
  | Outside o =>
      World (outside_step o (db w)) (stdin w) (scr w) (stop_event w)
            (thread w) (fg w) (submitted w)
  end.

(** A schedule, run from left to right. *)
Definition exec (sched : list actor) (w : world) : world :=
  fold_left (λ w a, step a w) sched w.

Definition shown_ids (w : world) : list Z := s_id <$> transcript (scr w).

(** Every row of the conversation above the watermark is displayed or
    among [pending]. *)
Definition covered (w : world) (pending : list chat_row) : Prop :=
  ∀ m, m ∈ messages (db w) → in_conversation user_id partner_id m →
       last_id (thread w) < id m →
       id m ∈ displayed_ids (scr w) ∨ select_row m ∈ pending.

(** The foreground thread is in a reload started with [keys] left to
    read, or has read further. *)
Definition reloading (keys : list key_event) (w : world) : Prop :=
  (length (stdin w) < length keys)%nat ∨
  (stdin w = keys ∧
   ((fg w = AtInput [] ∧ covered w []) ∨
    ∃ rows, fg w = InReload rows ∧ covered w rows)).

(** The same for a reload whose rows are all displayed already. *)
Definition reloading_seen (keys : list key_event) (w : world) : Prop :=
  (length (stdin w) < length keys)%nat ∨
  (stdin w = keys ∧
   (fg w = AtInput [] ∨ fg w = Left ∨
    ∃ rows, fg w = InReload rows ∧
            ∀ r, r ∈ rows → rid r ∈ displayed_ids (scr w))).

End Session.

(** ** Two users and their sessions, for the runs below *)

Definition alice : string := "10000001".
Definition bob : string := "20000002".
Definition carol : string := "30000003".

(** The three accounts. *)
Definition everyone : list User.t :=
  [User.Build alice "Alice"; User.Build bob "Bob"; User.Build carol "Carol"].

Definition fresh_server : database := Database everyone [] 0 1700000000 Up.

(** Alice's session with Bob on a fresh server, with [keys] to read. *)
Definition alice_session (keys : list key_event) : world :=
  chat_session_open alice bob "Bob" fresh_server keys.

(** The same session in the middle of an entry. *)
Definition alice_composing (lines : list string) (keys : list key_event)
  : world :=
  World fresh_server keys (Screen ∅ []) false (Poller 0 AtLoopTest [])
        (AtInput lines) [].

(** Two messages between Alice and Bob and one to Carol. *)
Definition busy_server : database :=
  Database everyone
           [Message 1 bob alice "yo" 1700000000;
            Message 2 alice "30000003" "hey" 1700000001;
            Message 3 alice bob "hi" 1700000002]
           3 1700000003 Up.

Definition alice_confirming : world :=
  World busy_server [Typed " Y "]
        (Screen {[1; 3]} [Shown 1 "Bob" "yo" 1700000000;
                          Shown 3 "You" "hi" 1700000002])
        false (Poller 3 AtLoopTest []) AtConfirm [].

Definition alice_reloading : world :=
  exec alice bob "Bob" [Outside (ExtInsert bob alice "yo")]
       (alice_session [Typed "r"; Typed "r"]).

(** ** More of the store *)

(** The primary key of [messages]: no two rows share an id. *)
Definition db_keyed (d : database) : Prop := NoDup (id <$> messages d).

(** The rows are numbered by the sequence and the key holds. *)
Definition db_sound (d : database) : Prop := db_wf d ∧ db_keyed d.

Definition clear_inbox_server (d : database) (user_id : string)
  : database * (bool * option string) :=
  match link_state d with
  | Refused => (d, (false, Some "DB connection failed"))
  | Faulty e => (d, (false, Some e))
  | Up => (delete_where (λ m, to_user_id m = user_id) d, (true, None))
  end.

(** The two pairs name the same conversation. *)
Definition same_pair (a b u p : string) : Prop :=
  (a = u ∧ b = p) ∨ (a = p ∧ b = u).

(** ** More of the session *)

(** An actor other than the two threads of the session. *)
Definition is_outside (a : actor) : bool :=
  match a with
  | Outside _ => true
  | _ => false
  end.

(** The session is over: [chat_session] has returned or an exception has
    left it. *)
Definition session_over (w : world) : Prop :=
  fg w = Left ∨ ∃ e, fg w = Unwound e.

(** A key event that makes the user reload or leave, typed with no line
    accumulated: no message is sent and no chat is cleared. *)
Definition passive_key (k : key_event) : Prop :=
  match k with
  | Typed l => dispatch l [] = Reload ∨ dispatch l [] = Quit
  | Fails _ => True
  end.

(** A key event that makes the user leave. *)
Definition leaving_key (k : key_event) : Prop :=
  match k with
  | Typed l => dispatch l [] = Quit
  | Fails _ => True
  end.

(** The ids of the rows the poller has handed to the callback, in the
    order of the calls. *)
Fixpoint delivered (tr : list poller_event) : list Z :=
  match tr with
  | [] => []
  | EvCallback r _ :: tr' => rid r :: delivered tr'
  | _ :: tr' => delivered tr'
  end.

(** What is on the console is displayed, without repetition, and the
    foreground thread only reloads. *)
Definition looking_on (w : world) : Prop :=
  NoDup (shown_ids w) ∧
  (∀ i, i ∈ shown_ids w → i ∈ displayed_ids (scr w)) ∧
  Forall passive_key (stdin w) ∧
  (fg w = AtInput [] ∨ fg w = Left ∨ ∃ rows, fg w = InReload rows).

(** The poller of a session opened with the watermark at [last0]: the
    ids it has delivered go strictly up from above [last0] to the
    watermark at most, and the rows it still holds are above the
    watermark, in strict order. *)
Definition poller_ahead (last0 : Z) (w : world) : Prop :=
  db_sound (db w) ∧ last0 ≤ last_id (thread w) ∧
  StronglySorted Z.lt (delivered (trace (thread w))) ∧
  (∀ i, i ∈ delivered (trace (thread w)) →
        last0 < i ∧ i ≤ last_id (thread w)) ∧
  (∀ rows, pc (thread w) = InFor rows →
           StronglySorted Z.lt (rid <$> rows) ∧
           ∀ r, r ∈ rows → last_id (thread w) < rid r).

(** ** The accounts *)

(** The server is the database: [store s] is the same state where the
    tables of the messages are meant, and [Server us d] is [d] with the
    rows [us] in [users]. *)
Definition server : Type := database.

Definition store (s : server) : database := s.

Definition Server (us : list User.t) (d : database) : server :=
  Database us (messages d) (serial d) (now d) (link_state d).


Definition lookup_contact_on_server (s : server) (user_id : string)
  : option string :=
  match link_state (store s) with
  | Up => User.username <$> head (filter (λ a, User.user_id a = user_id) (users s))
  | Refused => None
  | Faulty _ => None
  end.

(** [INSERT INTO users (user_id, username) VALUES (..)]: the two columns
    have to fit, [user_id] is the primary key and [username] is unique. *)
Definition insert_user (us : list User.t) (user : User.t)
  : option (list User.t) :=
  match varchar 8 (User.user_id user), varchar 100 (User.username user) with
  | Some uid, Some name =>
      if bool_decide (uid ∈ User.user_id <$> us ∨ name ∈ User.username <$> us)
      then None
      else Some (us ++ [User.Build uid name])
  | _, _ => None
  end.

Definition register_user_on_server (s : server) (user : User.t)
  : server * bool :=
  match link_state (store s) with
  | Refused => (s, false)
  | Faulty _ => (s, false)
  | Up =>
      match head (filter (λ a, User.username a = User.username user) (users s)) with
      | Some _ => (s, true)
      | None =>
          match insert_user (users s) user with
          | Some us => (Server us (store s), true)
          | None => (s, false)
          end
      end
  end.

(** A message that names [uid] as its sender or its receiver. *)
Definition refers_to (uid : string) (m : message) : Prop :=
  from_user_id m = uid ∨ to_user_id m = uid.

(** [DELETE FROM users WHERE user_id = ..]: the two columns of [messages]
    reference [users], so the statement fails while a message refers to
    a row it would delete. *)
Definition delete_user (us : list User.t) (msgs : list message) (uid : string)
  : option (list User.t) :=
  if bool_decide (uid ∈ User.user_id <$> us ∧ Exists (refers_to uid) msgs)
  then None
  else Some (filter (λ a, User.user_id a ≠ uid) us).

(** [delete_user_account], with [has_file] for [USER_FILE.exists()]:
    the server, whether the file is there afterwards, and the result.
    The two statements are committed together; the file, when there is
    one, can be removed. *)
Definition delete_user_account (s : server) (has_file : bool) (user : User.t)
  : server * bool * bool :=
  match link_state (store s) with
  | Refused => (s, has_file, false)
  | Faulty _ => (s, has_file, false)
  | Up =>
      let d := delete_where (refers_to (User.user_id user)) (store s) in
      match delete_user (users s) (messages d) (User.user_id user) with
      | Some us => (Server us d, false, true)
      | None => (s, has_file, false)
      end
  end.

(** The two keys of [users]. *)
Definition users_keyed (s : server) : Prop :=
  NoDup (User.user_id <$> users s) ∧ NoDup (User.username <$> users s).


(** The two foreign keys of [messages]: sender and receiver are rows of
    [users]. *)
Definition references_kept (s : server) : Prop :=
  ∀ m, m ∈ messages (store s) →
       from_user_id m ∈ User.user_id <$> users s ∧
       to_user_id m ∈ User.user_id <$> users s.

(** ** The inbox *)

(** A sort that keeps the order of the elements it does not have to
    exchange, as [sorted] does: [before a b] says that [a] has to come
    before [b]. *)
Section Sorting.
Context {A : Type} (before : A → A → bool).

Fixpoint insert_sorted (x : A) (l : list A) : list A :=
  match l with
  | [] => [x]
  | y :: l' => if before y x then y :: insert_sorted x l' else x :: y :: l'
  end.

Definition sort_by (l : list A) : list A := foldr insert_sorted [] l.

End Sorting.

(** A row of the inbox query: [partner, message, created_at]. *)
Record inbox_row := InboxRow {
  i_partner : string;
  i_message : string;
  i_created : Z
}.

(** [CASE WHEN from_user_id=%s THEN to_user_id ELSE from_user_id END] *)
Definition partner_of (user_id : string) (m : message) : string :=
  if decide (from_user_id m = user_id) then to_user_id m else from_user_id m.

(** [ORDER BY created_at DESC], and the key of [sorted] with
    [reverse=True]. *)
Definition newer (a b : inbox_row) : bool :=
  bool_decide (i_created b < i_created a).

(** [ORDER BY partner, created_at DESC], the partners in the order of
    their code points. *)
Definition partner_then_newer (a b : inbox_row) : bool :=
  bool_decide (i_partner a ≠ i_partner b ∧ String.le (i_partner a) (i_partner b))
  || (bool_decide (i_partner a = i_partner b) && newer a b).

(** [DISTINCT ON (partner)]: of the rows that follow each other with the
    same partner the first one is kept. *)
Fixpoint distinct_on_partner (prev : option string) (rows : list inbox_row)
  : list inbox_row :=
  match rows with
  | [] => []
  | r :: rest =>
      if decide (prev = Some (i_partner r))
      then distinct_on_partner prev rest
      else r :: distinct_on_partner (Some (i_partner r)) rest
  end.

(** The query of [get_inbox_latest_per_partner]. Rows that the [ORDER BY]
    clauses do not tell apart are taken in the order of the table. *)
Definition inbox_query (d : database) (user_id : string) : list inbox_row :=
  let sub :=
    sort_by newer
      ((λ m, InboxRow (partner_of user_id m) (body m) (created_at m))
         <$> filter (refers_to user_id) (messages d)) in
  distinct_on_partner None (sort_by partner_then_newer sub).

(** The slice [l[:n]]. *)
Definition slice_to {A} (n : Z) (l : list A) : list A :=
  if decide (0 ≤ n) then take (Z.to_nat n) l
  else take (length l - Z.to_nat (- n)) l.

Definition get_inbox_latest_per_partner
    (d : database) (user_id : string) (limit : Z) : list inbox_row :=
  match link_state d with
  | Up => slice_to limit (sort_by newer (inbox_query d user_id))
  | Refused => []
  | Faulty _ => []
  end.

(** The default of [limit]. *)
Definition inbox_limit : Z := 100.

(** [a or b] where [a] is a string or [None] and [b] a string. *)
Definition py_or (a : option string) (b : string) : string :=
  match a with
  | Some s => if decide (s = "") then b else s
  | None => b
  end.

Definition inbox_select_partner (s : server) (user : User.t) (index : Z)
  : option string * option string :=
  let rows :=
    get_inbox_latest_per_partner (store s) (User.user_id user) inbox_limit in
  if decide (index < 1 ∨ Z.of_nat (length rows) < index) then (None, None)
  else
    match rows !! Z.to_nat (index - 1) with
    | Some r =>
        (Some (i_partner r),
         Some (py_or (lookup_contact_on_server s (i_partner r)) (i_partner r)))
    | None => (None, None)
    end.

(** The contacts: a dictionary from ids to names, in the order in which
    the ids were added. *)
Definition contacts := list (string * string).

(** [contacts.get(uid)] *)
Definition contacts_get (c : contacts) (uid : string) : option string :=
  snd <$> head (filter (λ e, e.1 = uid) c).

Module Fmt.

Fixpoint spaces (n : nat) : string :=
  match n with
  | O => ""
  | S n' => String " " (spaces n')
  end.

(** [s.replace(old, new)] for two characters. *)
Fixpoint replace (old new : ascii) (s : string) : string :=
  match s with
  | "" => ""
  | String c s' =>
      String (if decide (c = old) then new else c) (replace old new s')
  end.

(** [s[:n]] for [n] that is not negative. *)
Fixpoint prefix (n : nat) (s : string) : string :=
  match n, s with
  | S n', String c s' => String c (prefix n' s')
  | _, _ => ""
  end.

(** [f"{s:n}"]: [s] filled with spaces on the right to [n] characters. *)
Fixpoint ljust (n : nat) (s : string) : string :=
  match s with
  | "" => spaces n
  | String c s' => String c (ljust (Nat.pred n) s')
  end.

End Fmt.

(** A line of the inbox, [f"{i}) {name:15} {preview:50} {ts}"], with the
    time of the message in place of its text [ts]. *)
Record inbox_line := InboxLine {
  l_number : Z;
  l_name : string;
  l_preview : string;
  l_created : Z
}.

Definition preview_of (text : string) : string :=
  Fmt.ljust 50 (Fmt.prefix 50 (Fmt.replace (ascii_of_N 10) " " text)).

(** The lines [show_inbox] prints for the conversations. *)
Definition show_inbox (s : server) (user : User.t) (c : contacts)
  : list inbox_line :=
  imap (λ i r,
          InboxLine (Z.of_nat i + 1)
            (Fmt.ljust 15
               (py_or (contacts_get c (i_partner r))
                  (py_or (lookup_contact_on_server s (i_partner r))
                     (i_partner r))))
            (preview_of (i_message r))
            (i_created r))
       (get_inbox_latest_per_partner (store s) (User.user_id user) inbox_limit).

(** ** The contacts *)

(** [add_contact_ui] on the line typed at its prompt: the contacts it
    returns and, when it calls [save_contacts], the contacts it writes. *)
Definition add_contact_ui (s : server) (typed : string) (c : contacts)
  : contacts * option contacts :=
  let uid := Py.strip typed in
  if decide (uid = "") then (c, None)
  else if decide (uid ∈ c.*1) then (c, None)
  else
    match lookup_contact_on_server s uid with
    | Some name =>
        if decide (name = "") then (c, None)
        else (c ++ [(uid, name)], Some (c ++ [(uid, name)]))
    | None => (c, None)
    end.

(** The lines of [list_contacts_ui], [f"{i}. {name} ({uid})"]: the
    number, the name and the id. *)
Definition list_contacts_ui (c : contacts) : list (Z * string * string) :=
  imap (λ i e, (Z.of_nat i + 1, e.2, e.1)) c.

(** Option 4 of [main_menu] on the number [si] read at its prompt: the
    partner and the name [chat_session] is opened with, or nothing when
    the selection is refused. *)
Definition menu_select_contact (c : contacts) (si : Z)
  : option (string * string) :=
  if decide (si < 1 ∨ Z.of_nat (length c) < si) then None
  else
    match c.*1 !! Z.to_nat (si - 1) with
    | Some partner_id =>
        match contacts_get c partner_id with
        | Some partner_name => Some (partner_id, partner_name)
        | None => None
        end
    | None => None
    end.

(** ** The user of the program *)

(** [generate_user_id]; [randint i] is what the call number [i] of
    [random.randint(0,9)] returns. *)
Definition generate_user_id (randint : nat → Z) : string :=
  Py.join "" ((λ i, pretty (randint i)) <$> seq 0 8).



(** ** A server with three accounts, for the runs below *)

(** The three accounts, with the messages of [busy_server]. *)
Definition town : server := Server everyone busy_server.

(** A newcomer. *)
Definition dave : User.t := User.Build "40000004" "Dave".

(** The store of [busy_server] while it cannot be reached. *)
Definition remote_server : database :=
  Database (users busy_server) (messages busy_server) (serial busy_server)
           (now busy_server) Refused.

(** Alice's session with Bob on the busy server, with [keys] to read. *)
Definition alice_returning (keys : list key_event) : world :=
  chat_session_open alice bob "Bob" busy_server keys.

(** Alice's contacts. *)
Definition alice_contacts : contacts := [(bob, "Bob")].

(** A delivery callback that keeps the ids it is handed and raises on
    the row with id 3. *)
Definition raising_on_3 (r : chat_row) (seen : list Z)
  : callback_result (list Z) :=
  if bool_decide (rid r = 3) then Raised seen else Returned (seen ++ [rid r]).

(** ** Facts on the string primitives *)

Lemma lstrip_blank_app (pre s : string) :
  Py.blank pre = true → Py.lstrip (pre +:+ s) = Py.lstrip s.
Proof.
  induction pre as [|c pre IH]; simpl; [done|].
  intros [Hc Hpre]%andb_true_iff. rewrite Hc. auto.
Qed.

Lemma rstrip_blank (s : string) : Py.blank s = true → Py.rstrip s = "".
Proof.
  induction s as [|c s IH]; simpl; [done|].
  intros [Hc Hs]%andb_true_iff. rewrite (IH Hs), Hc. done.
Qed.

Lemma strip_padded (pre post : string) (c : ascii) :
  Py.blank pre = true → Py.blank post = true → Py.isspace c = false →
  Py.strip (pre +:+ String c post) = String c "".
Proof.
  intros Hpre Hpost Hc. unfold Py.strip.
  rewrite (lstrip_blank_app _ _ Hpre). simpl. rewrite Hc. simpl.
  rewrite (rstrip_blank _ Hpost), Hc. done.
Qed.

Lemma lstrip_blank (s : string) : Py.blank s = true → Py.lstrip s = "".
Proof.
  induction s as [|c s IH]; simpl; [done|].
  intros [Hc Hs]%andb_true_iff. rewrite Hc. auto.
Qed.

Lemma strip_blank (s : string) : Py.blank s = true → Py.strip s = "".
Proof. intros H. unfold Py.strip. rewrite (lstrip_blank _ H). done. Qed.

(** ** The answer of the store to an insert *)

Lemma varchar_fits (n : nat) (s : string) :
  (String.length s ≤ n)%nat → varchar n s = Some s.
Proof. intros H. unfold varchar. by rewrite bool_decide_eq_true_2. Qed.

(** The three answers: the row is written, nothing is changed, or a
    value of the sequence is used up. *)
Lemma insert_answer (d : database) (a b text : string) :
  let sent := insert_message_returning_id d a b text in
  (∃ sender receiver,
     (link_state d = Up ∧
      has_nul a = false ∧ has_nul b = false ∧ has_nul text = false ∧
      varchar 8 a = Some sender ∧ varchar 8 b = Some receiver ∧
      serial d < SERIAL_MAX ∧
      sender ∈ User.user_id <$> users d ∧
      receiver ∈ User.user_id <$> users d) ∧
     sent = (insert_row d sender receiver text,
             Inserted (serial d + 1) (now d))) ∨
  (∃ err, sent = (d, InsertFailed err)) ∨
  (∃ err, sent = (skip_id d, InsertFailed err)).
Proof.
  intros sent. subst sent. unfold insert_message_returning_id.
  destruct (link_state d) eqn:Hl; [|right; left; eauto..].
  destruct (has_nul a) eqn:Ha; [right; left; eauto|].
  destruct (has_nul b) eqn:Hb; [right; left; eauto|].
  destruct (has_nul text) eqn:Ht; [right; left; eauto|].
  cbn [orb].
  destruct (varchar 8 a) as [sender|]; [|right; left; eauto].
  destruct (varchar 8 b) as [receiver|]; [|right; left; eauto].
  case_bool_decide as Hs; [right; left; eauto|].
  case_bool_decide as Hk; [|right; right; eauto].
  left. exists sender, receiver. split; [|done].
  destruct Hk. split_and!; try done. lia.
Qed.

(** The store accepts exactly what the constraints of the two tables
    let through. *)
Lemma insert_accepted (d : database) (a b text : string) (mid created : Z) :
  (insert_message_returning_id d a b text).2 = Inserted mid created →
  ∃ sender receiver,
    (link_state d = Up ∧
     has_nul a = false ∧ has_nul b = false ∧ has_nul text = false ∧
     varchar 8 a = Some sender ∧ varchar 8 b = Some receiver ∧
     serial d < SERIAL_MAX ∧
     sender ∈ User.user_id <$> users d ∧
     receiver ∈ User.user_id <$> users d) ∧
    mid = serial d + 1 ∧ created = now d ∧
    (insert_message_returning_id d a b text).1
      = insert_row d sender receiver text.
Proof.
  destruct (insert_answer d a b text)
    as [(sender & receiver & Hok & ->)|[[err ->]|[err ->]]]; [|done..].
  intros [= <- <-]. by exists sender, receiver.
Qed.



(** ** The dispatch of a line *)

Lemma dispatch_empty (line : string) :
  dispatch line [] =
    if bool_decide (Py.lower (Py.strip line) = "r") then Reload
    else if bool_decide (Py.lower (Py.strip line) = "c") then Clear
    else if bool_decide (Py.strip line = "=") then Quit
    else Append.
Proof.
  unfold dispatch. simpl.
  repeat case_bool_decide; (reflexivity || (exfalso; intuition congruence)).
Qed.

Lemma dispatch_composing (line : string) (lines : list string) :
  lines ≠ [] →
  dispatch line lines =
    if bool_decide (line = "" ∧ last lines = Some "") then Send else Append.
Proof.
  intros Hne. unfold dispatch.
  repeat case_bool_decide; (reflexivity || (exfalso; intuition congruence)).
Qed.

(** ** The foreground thread, one line at a time *)

Section Foreground.
Variables user_id partner_id partner_name : string.

Local Abbreviation fstep := (chat_session_step user_id partner_id partner_name).
Local Abbreviation line_step := (on_line user_id partner_id).
Local Abbreviation submit_step := (submit user_id partner_id).
Local Abbreviation fetch_since w :=
  (get_chat_history_since (db w) user_id partner_id (last_id (thread w))).

Lemma fg_step_typed (w : world) (lines : list string) (line : string)
    (rest : list key_event) :
  fg w = AtInput lines → stdin w = Typed line :: rest →
  fstep w =
    line_step (World (db w) rest (scr w) (stop_event w) (thread w)
                   (AtInput lines) (submitted w)) line lines.
Proof.
  intros Hfg Hin. unfold chat_session_step. rewrite Hfg, Hin. reflexivity.
Qed.

Lemma fg_step_fails (w : world) (lines : list string) (e : exn)
    (rest : list key_event) :
  fg w = AtInput lines → stdin w = Fails e :: rest →
  fstep w =
    line_step (World (db w) rest (scr w) (stop_event w) (thread w)
                   (AtInput lines) (submitted w)) "=" lines.
Proof.
  intros Hfg Hin. unfold chat_session_step. rewrite Hfg, Hin. reflexivity.
Qed.

Lemma fg_step_closed (w : world) (lines : list string) :
  fg w = AtInput lines → stdin w = [] →
  fstep w =
    line_step (World (db w) [] (scr w) (stop_event w) (thread w)
                   (AtInput lines) (submitted w)) "=" lines.
Proof.
  intros Hfg Hin. unfold chat_session_step. rewrite Hfg, Hin. reflexivity.
Qed.

Lemma on_line_append (w : world) (line : string) (lines : list string) :
  dispatch line lines = Append →
  line_step w line lines =
    World (db w) (stdin w) (scr w) (stop_event w) (thread w)
          (AtInput (lines ++ [line])) (submitted w).
Proof. intros H. unfold on_line. rewrite H. reflexivity. Qed.

Lemma on_line_reload (w : world) (line : string) (lines : list string) :
  dispatch line lines = Reload →
  line_step w line lines =
    World (db w) (stdin w) (scr w) (stop_event w) (thread w)
          (match fetch_since w with
           | [] => AtInput lines
           | _ :: _ => InReload (fetch_since w)
           end) (submitted w).
Proof. intros H. unfold on_line. rewrite H. reflexivity. Qed.

Lemma on_line_clear (w : world) (line : string) (lines : list string) :
  dispatch line lines = Clear →
  line_step w line lines =
    World (db w) (stdin w) (scr w) (stop_event w) (thread w) AtConfirm
          (submitted w).
Proof. intros H. unfold on_line. rewrite H. reflexivity. Qed.

Lemma on_line_quit (w : world) (line : string) (lines : list string) :
  dispatch line lines = Quit →
  line_step w line lines =
    World (db w) (stdin w) (scr w) true (thread w) Left (submitted w).
Proof. intros H. unfold on_line. rewrite H. reflexivity. Qed.


(** A command line is consumed by its command: nothing is submitted, the
    table is as it was, and no accumulated line comes out of it. *)
Lemma command_is_not_content (w : world) (line : string) :
  dispatch line [] ≠ Append →
  let w' := line_step w line [] in
  submitted w' = submitted w ∧ db w' = db w ∧ scr w' = scr w ∧
  ∀ ls, fg w' = AtInput ls → ls = [].
Proof.
  intros Hd. unfold on_line.
  destruct (dispatch line []) eqn:E; simpl; try done.
  - repeat split; try done. intros ls. destruct (fetch_since w); simpl; congruence.
  - unfold dispatch in E. simpl in E. repeat case_bool_decide; try done.
    exfalso; intuition congruence.
Qed.

(** C10. With no line accumulated, reload and clear are recognised on the
    trimmed, lower-cased line and quit on the trimmed line: a lone token
    padded with whitespace, or [R]/[C] in upper case, runs its command,
    and a line that runs a command is never kept as content nor sent. *)
Theorem C10_padded_command_tokens
    (pre post line : string) (w : world) (rest : list key_event) :
  Py.blank pre = true → Py.blank post = true →
  fg w = AtInput [] → stdin w = Typed line :: rest →
  let w' := fstep w in
  (dispatch line [] = Reload ↔ Py.lower (Py.strip line) = "r") ∧
  (dispatch line [] = Clear ↔ Py.lower (Py.strip line) = "c") ∧
  (dispatch line [] = Quit ↔ Py.strip line = "=") ∧
  (line = pre +:+ "r" +:+ post ∨ line = pre +:+ "R" +:+ post →
   fg w' = match fetch_since w with
           | [] => AtInput []
           | _ :: _ => InReload (fetch_since w)
           end) ∧
  (line = pre +:+ "c" +:+ post ∨ line = pre +:+ "C" +:+ post →
   fg w' = AtConfirm) ∧
  (line = pre +:+ "=" +:+ post → fg w' = Left ∧ stop_event w' = true) ∧
  (dispatch line [] ≠ Append →
   submitted w' = submitted w ∧ db w' = db w ∧ scr w' = scr w ∧
   ∀ ls, fg w' = AtInput ls → ls = []).
Proof.
  intros Hpre Hpost Hfg Hin w'. subst w'.
  rewrite (fg_step_typed _ _ _ _ Hfg Hin).
  assert (Hrc : ∀ c : ascii, Py.isspace c = false →
            Py.strip (pre +:+ String c "" +:+ post) = String c "")
    by (intros c Hc; by apply strip_padded).
  split_and!.
  - rewrite dispatch_empty. repeat case_bool_decide; split; congruence.
  - rewrite dispatch_empty. repeat case_bool_decide; split; congruence.
  - rewrite dispatch_empty.
    repeat case_bool_decide; (split; intros He; try done; try congruence);
      match goal with
      | H : Py.lower (Py.strip line) = _ |- _ => rewrite He in H; discriminate H
      end.
  - intros Hl. rewrite on_line_reload; [done|].
    rewrite dispatch_empty.
    destruct Hl as [-> | ->]; rewrite Hrc by done; done.
  - intros Hl. rewrite on_line_clear; [done|].
    rewrite dispatch_empty.
    destruct Hl as [-> | ->]; rewrite Hrc by done; done.
  - intros ->. rewrite on_line_quit; [done|].
    rewrite dispatch_empty. rewrite Hrc by done. done.
  - intros Hd.
    destruct (command_is_not_content
                (World (db w) rest (scr w) (stop_event w) (thread w)
                       (AtInput []) (submitted w)) line Hd)
      as (H1 & H2 & H3 & H4).
    done.
Qed.

(** C6. A line equal to a command token runs the command if and only if
    no line has been accumulated. As the first line it runs the command:
    [r] fetches the rows above the watermark of the poller and goes
    through them, [c] goes to the confirmation prompt, [=] sets the stop
    event and leaves; the line is read and nothing else changes, so it
    is not kept and nothing is sent. Once composition has begun it is
    appended as it is and nothing else happens. *)
Theorem C6_command_token_only_on_first_line
    (tok : string) (lines : list string) (w : world) (rest : list key_event) :
  tok ∈ ["r"; "c"; "="] →
  fg w = AtInput lines → stdin w = Typed tok :: rest →
  let w' := fstep w in
  (dispatch tok lines ∈ [Reload; Clear; Quit] ↔ lines = []) ∧
  (lines = [] →
   dispatch tok lines = command_of tok ∧
   (tok = "r" →
    w' = World (db w) rest (scr w) (stop_event w) (thread w)
               (match fetch_since w with
                | [] => AtInput []
                | _ :: _ => InReload (fetch_since w)
                end) (submitted w)) ∧
   (tok = "c" →
    w' = World (db w) rest (scr w) (stop_event w) (thread w) AtConfirm
               (submitted w)) ∧
   (tok = "=" →
    w' = World (db w) rest (scr w) true (thread w) Left (submitted w)) ∧
   submitted w' = submitted w ∧ db w' = db w ∧ scr w' = scr w ∧
   ∀ ls, fg w' = AtInput ls → ls = []) ∧
  (lines ≠ [] →
   dispatch tok lines = Append ∧
   fg w' = AtInput (lines ++ [tok]) ∧
   db w' = db w ∧ scr w' = scr w ∧ stop_event w' = stop_event w ∧
   thread w' = thread w ∧ submitted w' = submitted w).
Proof.
  intros Htok Hfg Hin w'. subst w'.
  rewrite (fg_step_typed _ _ _ _ Hfg Hin).
  assert (Hcmd : dispatch tok [] = command_of tok).
  { rewrite dispatch_empty. unfold command_of.
    repeat (apply elem_of_cons in Htok as [-> | Htok]);
      first [done | by apply elem_of_nil in Htok]. }
  assert (Happ : lines ≠ [] → dispatch tok lines = Append).
  { intros Hne. rewrite (dispatch_composing _ _ Hne).
    case_bool_decide as Hb; [|done]. destruct Hb as [-> _].
    repeat (apply elem_of_cons in Htok as [? | Htok]);
      first [done | by apply elem_of_nil in Htok]. }
  assert (Hcase : command_of tok ∈ [Reload; Clear; Quit]).
  { unfold command_of. repeat case_bool_decide; set_solver. }
  split_and!.
  - split.
    + intros Hd. destruct lines as [|l ls]; [done|].
      rewrite Happ in Hd by done. set_solver.
    + intros ->. by rewrite Hcmd.
  - intros ->. split; [done|].
    split; [intros ->; by rewrite on_line_reload|].
    split; [intros ->; by rewrite on_line_clear|].
    split; [intros ->; by rewrite on_line_quit|].
    apply (command_is_not_content
             (World (db w) rest (scr w) (stop_event w) (thread w)
                    (AtInput []) (submitted w))).
    rewrite Hcmd. intros He. rewrite He in Hcase. set_solver.
  - intros Hne. split; [by apply Happ|].
    rewrite on_line_append by (by apply Happ). done.
Qed.




Lemma fg_step_left (w : world) : fg w = Left → fstep w = w.
Proof. intros H. unfold chat_session_step. rewrite H. done. Qed.

Lemma exec_app (s1 s2 : list actor) (w : world) :
  exec user_id partner_id partner_name (s1 ++ s2) w =
  exec user_id partner_id partner_name s2
    (exec user_id partner_id partner_name s1 w).
Proof. unfold exec. apply fold_left_app. Qed.

Lemma exec_cons (a : actor) (s : list actor) (w : world) :
  exec user_id partner_id partner_name (a :: s) w =
  exec user_id partner_id partner_name s
    (step user_id partner_id partner_name a w).
Proof. reflexivity. Qed.




(** End of input while an entry is being composed: the line becomes [=],
    which is a line like another once [lines] is not empty, and the next
    [input()] fails in the same way. *)
Lemma eof_while_composing (n : nat) (w : world) (lines : list string) :
  lines ≠ [] → fg w = AtInput lines → stdin w = [] →
  exec user_id partner_id partner_name (replicate n Foreground) w =
    World (db w) [] (scr w) (stop_event w) (thread w)
          (AtInput (lines ++ replicate n "=")) (submitted w).
Proof.
  revert w lines. induction n as [|n IH]; intros w lines Hne Hfg Hin.
  - simpl. rewrite app_nil_r. destruct w; simpl in *; congruence.
  - assert (Hd : dispatch "=" lines = Append).
    { rewrite (dispatch_composing _ _ Hne). by rewrite bool_decide_eq_false_2 by naive_solver. }
    cbn [replicate]. rewrite exec_cons. cbn [step].
    rewrite (fg_step_closed _ _ Hfg Hin), (on_line_append _ _ _ Hd).
    rewrite (IH _ (lines ++ ["="])); [|by destruct lines|done..].
    cbn [db stdin scr stop_event thread submitted].
    by rewrite <- app_assoc.
Qed.

End Foreground.

(** ** The queries *)

Lemma order_by_id_elem (rows : list chat_row) (r : chat_row) :
  r ∈ order_by_id rows ↔ r ∈ rows.
Proof. unfold order_by_id. by rewrite merge_sort_Permutation. Qed.

Lemma order_by_id_sorted (rows : list chat_row) :
  StronglySorted by_id (order_by_id rows).
Proof. apply StronglySorted_merge_sort; apply _. Qed.

Lemma get_chat_history_since_sorted (d : database) (u p : string) (since : Z) :
  StronglySorted by_id (get_chat_history_since d u p since).
Proof.
  unfold get_chat_history_since.
  destruct (link_state d); auto using order_by_id_sorted, SSorted_nil.
Qed.

Lemma get_chat_history_since_elem (d : database) (u p : string) (since : Z)
    (r : chat_row) :
  r ∈ get_chat_history_since d u p since ↔
  link_state d = Up ∧
  ∃ m, r = select_row m ∧ m ∈ messages d ∧ in_conversation u p m ∧ since < id m.
Proof.
  unfold get_chat_history_since. destruct (link_state d).
  - rewrite order_by_id_elem, list_elem_of_fmap.
    setoid_rewrite list_elem_of_filter. naive_solver.
  - rewrite elem_of_nil. naive_solver.
  - rewrite elem_of_nil. naive_solver.
Qed.

Lemma get_chat_history_all_elem (d : database) (u p : string) (r : chat_row) :
  r ∈ get_chat_history_all d u p ↔
  link_state d = Up ∧
  ∃ m, r = select_row m ∧ m ∈ messages d ∧ in_conversation u p m.
Proof.
  unfold get_chat_history_all. destruct (link_state d).
  - rewrite order_by_id_elem, list_elem_of_fmap.
    setoid_rewrite list_elem_of_filter. naive_solver.
  - rewrite elem_of_nil. naive_solver.
  - rewrite elem_of_nil. naive_solver.
Qed.

Lemma get_chat_history_since_down (d : database) (u p : string) (since : Z) :
  link_state d ≠ Up → get_chat_history_since d u p since = [].
Proof. unfold get_chat_history_since. by destruct (link_state d). Qed.

(** ** The poller, one iteration at a time *)

Section PollerFacts.
Context {St : Type}.
Variable on_new : chat_row → St → callback_result St.
Variable show : chat_row → St → St.
Hypothesis on_new_returns : ∀ r s, on_new r s = Returned (show r s).

Local Abbreviation run_step := (ChatPoller.run_step on_new).
Local Abbreviation run_steps := (ChatPoller.run_steps on_new).

Lemma advance_max (last r : Z) : ChatPoller.advance last r = Z.max last r.
Proof. unfold ChatPoller.advance. case_bool_decide; lia. Qed.

Lemma run_steps_add (n m : nat) (stop : bool) (fetch : Z → list chat_row)
    (p : poller) (s : St) :
  run_steps (n + m) stop fetch p s =
    let '(p', s') := run_steps n stop fetch p s in run_steps m stop fetch p' s'.
Proof.
  revert p s. induction n as [|n IH]; intros p s; simpl; [done|].
  destruct (run_step stop fetch p s) as [p' s']. apply IH.
Qed.

Lemma run_for_loop (rows : list chat_row) (stop : bool)
    (fetch : Z → list chat_row) (last : Z) (tr : list poller_event) (s : St) :
  rows ≠ [] →
  run_steps (length rows) stop fetch (Poller last (InFor rows) tr) s =
    (Poller (watermark_after last rows) AtSleep (tr ++ deliveries last rows),
     fold_left (λ s r, show r s) rows s).
Proof.
  revert last tr s. induction rows as [|r rows IH]; intros last tr s Hne; [done|].
  cbn [length ChatPoller.run_steps]. unfold ChatPoller.run_step at 1.
  cbn [pc last_id trace]. rewrite on_new_returns, advance_max.
  destruct rows as [|r' rows'].
  - simpl. done.
  - cbn [ChatPoller.after_row]. rewrite IH by done.
    unfold watermark_after. simpl. by rewrite <- app_assoc.
Qed.

Lemma run_iteration (fetch : Z → list chat_row) (p : poller) (s : St) :
  pc p = AtLoopTest →
  let rows := fetch (last_id p) in
  run_steps (2 + length rows) false fetch p s =
    (Poller (watermark_after (last_id p) rows) AtLoopTest
            (trace p ++ code_iteration (last_id p) rows),
     fold_left (λ s r, show r s) rows s).
Proof.
  intros Hpc rows.
  replace (2 + length rows)%nat with (1 + (length rows + 1))%nat by lia.
  rewrite run_steps_add. cbn [ChatPoller.run_steps].
  unfold ChatPoller.run_step at 1. rewrite Hpc. fold rows.
  rewrite run_steps_add. unfold code_iteration.
  destruct rows as [|r rows'] eqn:E.
  - simpl. unfold ChatPoller.run_step. simpl. by rewrite <- app_assoc.
  - rewrite <- E. assert (Hne : rows ≠ []) by (by rewrite E).
    replace (ChatPoller.after_row rows) with (InFor rows) by (by rewrite E).
    rewrite run_for_loop by (by subst rows). simpl.
    unfold ChatPoller.run_step. simpl. by rewrite <- !app_assoc.
Qed.

End PollerFacts.

(** C4 (as amended). An iteration of the poller loop first calls
    [get_chat_history_since] with [last_id], then, for each row in
    ascending order of id, sets [last_id] to the larger of itself and
    the id of the row and calls the callback with the row, and sleeps
    for the poll interval of one second at its end. *)
Theorem C4_iteration_fetches_delivers_then_sleeps
    {St : Type} (on_new : chat_row → St → callback_result St)
    (show : chat_row → St → St)
    (d : database) (u p : string) (pl : poller) (s : St) :
  (∀ r s, on_new r s = Returned (show r s)) →
  pc pl = AtLoopTest →
  let fetch := get_chat_history_since d u p in
  let rows := fetch (last_id pl) in
  let after := ChatPoller.run_steps on_new (2 + length rows) false fetch pl s in
  StronglySorted (λ r1 r2, rid r1 ≤ rid r2) rows ∧
  trace after.1 =
    trace pl ++ [EvFetch (last_id pl)] ++ deliveries (last_id pl) rows
             ++ [EvSleep 1] ∧
  last_id after.1 = watermark_after (last_id pl) rows ∧
  pc after.1 = AtLoopTest ∧
  after.2 = fold_left (λ s r, show r s) rows s.
Proof.
  intros Hret Hpc fetch rows after. subst after rows.
  rewrite (run_iteration on_new show Hret fetch pl s Hpc).
  split_and!; try done. apply get_chat_history_since_sorted.
Qed.

(** C4 (as stated) fails: the first thing the poller of a session does
    is the fetch, and the sleep comes last in the iteration. *)
Lemma C4_first_iteration_fetches_before_sleeping :
  let run := exec alice bob "Bob" in
  let w0 := run [Outside (ExtInsert bob alice "yo")]
                (chat_session_open alice bob "Bob" fresh_server []) in
  let w := run (replicate 3 Polling) w0 in
  let rows := get_chat_history_since (db w0) alice bob 0 in
  trace (thread (run [Polling] w0)) = [EvFetch 0] ∧
  trace (thread w) =
    [EvFetch 0; EvCallback (ChatRow 1 bob "yo" 1700000000) 1; EvSleep 1] ∧
  pc (thread w) = AtLoopTest ∧
  trace (thread w) ≠ spec_iteration 0 rows.
Proof. vm_compute. split_and!; done. Qed.

(** ** The threads of a session under a schedule *)

Section Interleaving.
Variables user_id partner_id partner_name : string.

Local Abbreviation fstep := (chat_session_step user_id partner_id partner_name).
Local Abbreviation pstep := (poller_step user_id partner_id partner_name).
Local Abbreviation step1 := (step user_id partner_id partner_name).
Local Abbreviation run := (exec user_id partner_id partner_name).
Local Abbreviation callback := (on_new user_id partner_name).
Local Abbreviation session d keys :=
  (chat_session_open user_id partner_id partner_name d keys).
Local Abbreviation covers := (covered user_id partner_id).
Local Abbreviation in_reload := (reloading user_id partner_id).

Ltac proj :=
  cbn [db stdin scr stop_event thread fg submitted goto displayed_ids
       transcript last_id pc trace fst snd screen_of] in *.

Lemma run_snoc (sched : list actor) (a : actor) (w : world) :
  run (sched ++ [a]) w = step1 a (run sched w).
Proof. unfold exec. by rewrite fold_left_app. Qed.

Lemma on_new_returns (r : chat_row) (sc : screen) :
  callback r sc = Returned (screen_of (callback r sc)).
Proof. unfold on_new. by case_bool_decide. Qed.

(** *** What each actor leaves alone *)

Lemma submit_frame (w : world) (lines : list string) :
  let w' := submit user_id partner_id w lines in
  thread w' = thread w ∧ stop_event w' = stop_event w ∧ scr w' = scr w ∧
  stdin w' = stdin w.
Proof.
  unfold submit. destruct lines as [|l ls]; [done|].
  case_bool_decide; [done|].
  by destruct (insert_message_returning_id _ _ _ _) as [d res].
Qed.

Lemma on_line_frame (w : world) (line : string) (lines : list string) :
  let w' := on_line user_id partner_id w line lines in
  thread w' = thread w ∧ (stop_event w = true → stop_event w' = true) ∧
  scr w' = scr w ∧ stdin w' = stdin w.
Proof.
  unfold on_line. destruct (dispatch line lines); proj; try done.
  destruct (submit_frame w (removelast lines)) as (-> & -> & -> & ->). done.
Qed.

Lemma fg_step_thread (w : world) : thread (fstep w) = thread w.
Proof.
  unfold chat_session_step. destruct (fg w) as [lines|[|r rest]| | |mid c t| |e]; try done.
  - destruct (input (stdin w)) as [k rest].
    by destruct (on_line_frame
                   (World (db w) rest (scr w) (stop_event w) (thread w)
                          (AtInput lines) (submitted w))
                   (match k with Typed l => l | Fails _ => "=" end) lines)
      as (-> & _).
  - destruct (input (stdin w)) as [[l|e] rest]; [|done].
    case_bool_decide; [|done].
    by destruct (clear_chat_between _ _ _) as [d [ok err]].
Qed.

Lemma fg_step_stop_event (w : world) :
  stop_event w = true → stop_event (fstep w) = true.
Proof.
  intros H.
  unfold chat_session_step. destruct (fg w) as [lines|[|r rest]| | |mid c t| |e]; try done.
  - destruct (input (stdin w)) as [k rest].
    by apply (on_line_frame
                (World (db w) rest (scr w) (stop_event w) (thread w)
                       (AtInput lines) (submitted w))).
  - destruct (input (stdin w)) as [[l|e] rest]; [|done].
    case_bool_decide; [|done].
    by destruct (clear_chat_between _ _ _) as [d [ok err]].
Qed.

Lemma poller_step_frame (w : world) :
  db (pstep w) = db w ∧ stdin (pstep w) = stdin w ∧
  stop_event (pstep w) = stop_event w ∧ fg (pstep w) = fg w ∧
  submitted (pstep w) = submitted w.
Proof.
  unfold poller_step.
  by destruct (ChatPoller.run_step _ _ _ _ _) as [p sc].
Qed.

Lemma poller_step_thread (w : world) :
  thread (pstep w) =
    (ChatPoller.run_step callback (stop_event w)
       (get_chat_history_since (db w) user_id partner_id) (thread w) (scr w)).1.
Proof.
  unfold poller_step.
  by destruct (ChatPoller.run_step _ _ _ _ _) as [p sc].
Qed.

Lemma poller_step_scr (w : world) :
  scr (pstep w) =
    match pc (thread w) with
    | InFor (r :: _) => screen_of (callback r (scr w))
    | _ => scr w
    end.
Proof.
  unfold poller_step, ChatPoller.run_step.
  destruct (pc (thread w)) as [|[|r rest]| |]; try done.
  - by destruct (stop_event w).
  - rewrite on_new_returns. done.
Qed.

Lemma poller_step_pc (w : world) :
  pc (thread (pstep w)) =
    match pc (thread w) with
    | AtLoopTest =>
        if stop_event w then Finished
        else ChatPoller.after_row
               (get_chat_history_since (db w) user_id partner_id
                  (last_id (thread w)))
    | InFor [] => AtSleep
    | InFor (_ :: rest) => ChatPoller.after_row rest
    | AtSleep => AtLoopTest
    | Finished => Finished
    end.
Proof.
  rewrite poller_step_thread. unfold ChatPoller.run_step.
  destruct (pc (thread w)) as [|[|r rest]| |] eqn:E; try done.
  - by destruct (stop_event w).
  - rewrite on_new_returns. done.
Qed.

Lemma poller_step_finished (w : world) :
  pc (thread (pstep w)) = Finished ↔
  pc (thread w) = Finished ∨ (pc (thread w) = AtLoopTest ∧ stop_event w = true).
Proof.
  rewrite poller_step_pc.
  destruct (pc (thread w)) as [|[|r [|r' rest]]| |]; simpl; try naive_solver.
  destruct (stop_event w); [naive_solver|].
  destruct (get_chat_history_since _ _ _ _); simpl; naive_solver.
Qed.

Lemma poller_step_last_id (w : world) :
  last_id (thread (pstep w)) =
    match pc (thread w) with
    | InFor (r :: _) => Z.max (last_id (thread w)) (rid r)
    | _ => last_id (thread w)
    end.
Proof.
  rewrite poller_step_thread. unfold ChatPoller.run_step.
  destruct (pc (thread w)) as [|[|r rest]| |]; try done.
  - by destruct (stop_event w).
  - rewrite on_new_returns. apply advance_max.
Qed.

(** *** The session as it opens *)

Lemma load_history_spec (history : list chat_row) :
  load_history user_id partner_name history =
    (Screen (list_to_set (rid <$> history))
            (render user_id partner_name <$> history),
     fold_left Z.max (rid <$> history) 0).
Proof.
  unfold load_history.
  assert (H : ∀ sc last,
    fold_left
      (λ acc r,
         (Screen ({[rid r]} ∪ displayed_ids acc.1)
                 (transcript acc.1 ++ [render user_id partner_name r]),
          Z.max acc.2 (rid r))) history (sc, last) =
    (Screen (list_to_set (rid <$> history) ∪ displayed_ids sc)
            (transcript sc ++ (render user_id partner_name <$> history)),
     fold_left Z.max (rid <$> history) last)).
  { induction history as [|r h IH]; intros sc last; simpl.
    - rewrite app_nil_r. destruct sc. f_equal. f_equal. set_solver.
    - rewrite IH. simpl. f_equal. f_equal; [set_solver|].
      by rewrite <- app_assoc. }
  rewrite H. simpl. f_equal. f_equal. set_solver.
Qed.

Lemma open_session_spec (d : database) (keys : list key_event) :
  let history := get_chat_history_all d user_id partner_id in
  session d keys =
    World d keys
          (Screen (list_to_set (rid <$> history))
                  (render user_id partner_name <$> history))
          false
          (Poller (fold_left Z.max (rid <$> history) 0) AtLoopTest [])
          (AtInput []) [].
Proof. intros history. unfold chat_session_open. by rewrite load_history_spec. Qed.

Lemma fold_max_ge (ids : list Z) (z : Z) :
  z ≤ fold_left Z.max ids z ∧ ∀ i, i ∈ ids → i ≤ fold_left Z.max ids z.
Proof.
  revert z. induction ids as [|i ids IH]; intros z; simpl.
  - split; [lia|]. intros i Hi. by apply elem_of_nil in Hi.
  - destruct (IH (Z.max z i)) as [H1 H2]. split; [lia|].
    intros j [->|Hj]%elem_of_cons; [lia|auto].
Qed.

(** *** The watermark *)

Lemma step_last_id (a : actor) (w : world) :
  last_id (thread (step1 a w)) =
    match a, pc (thread w) with
    | Polling, InFor (r :: _) => Z.max (last_id (thread w)) (rid r)
    | _, _ => last_id (thread w)
    end.
Proof.
  destruct a; simpl.
  - by rewrite fg_step_thread; destruct (pc (thread w)) as [|[|??]| |].
  - apply poller_step_last_id.
  - by destruct (pc (thread w)) as [|[|??]| |].
Qed.

Lemma step_last_id_mono (a : actor) (w : world) :
  last_id (thread w) ≤ last_id (thread (step1 a w)).
Proof. rewrite step_last_id. repeat case_match; lia. Qed.

Lemma run_last_id_mono (sched : list actor) (w : world) :
  last_id (thread w) ≤ last_id (thread (run sched w)).
Proof.
  induction sched as [|a sched IH] using rev_ind; [done|].
  rewrite run_snoc. etrans; [apply IH|apply step_last_id_mono].
Qed.

Lemma step_trace (a : actor) (w : world) (e : poller_event) :
  e ∈ trace (thread (step1 a w)) →
  e ∈ trace (thread w) ∨
  match e with
  | EvCallback r wm =>
      a = Polling ∧ wm = last_id (thread (step1 a w)) ∧ rid r ≤ wm
  | _ => True
  end.
Proof.
  destruct a; simpl.
  - rewrite fg_step_thread. auto.
  - rewrite !poller_step_thread. unfold ChatPoller.run_step.
    destruct (pc (thread w)) as [|[|r rest]| |]; proj; auto.
    + destruct (stop_event w); proj; auto.
      rewrite elem_of_app, list_elem_of_singleton. intros [?| ->]; auto.
    + rewrite on_new_returns. proj.
      rewrite elem_of_app, list_elem_of_singleton. intros [?| ->]; auto.
      right. rewrite advance_max. split_and!; try done. lia.
    + rewrite elem_of_app, list_elem_of_singleton. intros [?| ->]; auto.
  - auto.
Qed.

Lemma delivered_below_watermark (sched : list actor) (w : world) :
  (∀ r wm, EvCallback r wm ∈ trace (thread w) → rid r ≤ last_id (thread w)) →
  ∀ r wm, EvCallback r wm ∈ trace (thread (run sched w)) →
          rid r ≤ last_id (thread (run sched w)).
Proof.
  intros Hw. induction sched as [|a sched IH] using rev_ind; [done|].
  rewrite run_snoc. intros r wm [Hin|(_ & -> & Hle)]%step_trace; [|done].
  etrans; [by eapply IH|apply step_last_id_mono].
Qed.

(** C2 (as amended). The watermark [last_id] of the poller starts at the
    largest id of the history ([0] when there is none), never decreases,
    becomes the larger of itself and the id of the row at every row the
    poller goes through, and is at least the id of every message of the
    history and of every message the poller has delivered. The
    foreground thread, sending or reloading, leaves it as it is. *)
Theorem C2_watermark_follows_the_poller
    (d : database) (keys : list key_event) (sched : list actor) (a : actor) :
  let history := get_chat_history_all d user_id partner_id in
  let w0 := session d keys in
  let w := run sched w0 in
  let w' := step1 a w in
  last_id (thread w0) = fold_left Z.max (rid <$> history) 0 ∧
  (history = [] → last_id (thread w0) = 0) ∧
  last_id (thread w0) ≤ last_id (thread w) ∧
  last_id (thread w) ≤ last_id (thread w') ∧
  (∀ r rest, a = Polling → pc (thread w) = InFor (r :: rest) →
             last_id (thread w') = Z.max (last_id (thread w)) (rid r)) ∧
  (a = Foreground → last_id (thread w') = last_id (thread w)) ∧
  (∀ r, r ∈ history → rid r ≤ last_id (thread w)) ∧
  (∀ r wm, EvCallback r wm ∈ trace (thread w) → rid r ≤ last_id (thread w)).
Proof.
  intros history w0 w w'. subst w0 w w'.
  pose proof (open_session_spec d keys) as Hopen. simpl in Hopen. fold history in Hopen.
  split_and!.
  - by rewrite Hopen.
  - intros Hh. rewrite Hopen, Hh. done.
  - apply run_last_id_mono.
  - apply step_last_id_mono.
  - intros r rest -> Hpc. rewrite step_last_id, Hpc. done.
  - intros ->. by rewrite step_last_id.
  - intros r Hr. etrans; [|apply run_last_id_mono].
    rewrite Hopen. simpl. apply fold_max_ge. by apply list_elem_of_fmap_2.
  - apply delivered_below_watermark. rewrite Hopen. simpl.
    intros r wm Hin. by apply elem_of_nil in Hin.
Qed.

(** *** The table over time *)

Lemma db_evolves_refl (d : database) : db_evolves d d.
Proof. split; [lia|auto]. Qed.

Lemma db_evolves_trans (d1 d2 d3 : database) :
  db_evolves d1 d2 → db_evolves d2 d3 → db_evolves d1 d3.
Proof.
  intros [H1 H2] [H3 H4]. split; [lia|].
  intros m [Hm|Hm]%H4; [auto|right; lia].
Qed.

Lemma db_evolves_insert (d : database) (f t x : string) :
  db_evolves d (insert_row d f t x).
Proof.
  split; simpl; [lia|].
  intros m [Hm| ->%list_elem_of_singleton]%elem_of_app; [auto|right; simpl; lia].
Qed.

Lemma db_evolves_delete (P : message → Prop) `{∀ m, Decision (P m)}
    (d : database) :
  db_evolves d (delete_where P d).
Proof.
  split; simpl; [lia|]. intros m [_ Hm]%list_elem_of_filter. auto.
Qed.

Lemma db_evolves_outside (o : outside) (d : database) :
  db_evolves d (outside_step o d).
Proof.
  destruct o; simpl.
  - apply db_evolves_insert.
  - apply db_evolves_delete.
  - split; simpl; [lia|auto].
  - split; simpl; [lia|auto].
  - split; simpl; [lia|auto].
Qed.

Lemma db_evolves_skip (d : database) : db_evolves d (skip_id d).
Proof. split; simpl; [lia|auto]. Qed.

Lemma submit_db (w : world) (lines : list string) :
  let w' := submit user_id partner_id w lines in
  db w' = db w ∨ db w' = skip_id (db w) ∨
  ∃ f t x, db w' = insert_row (db w) f t x.
Proof.
  unfold submit. destruct lines as [|l ls]; [auto|].
  case_bool_decide; [auto|].
  destruct (insert_answer (db w) user_id partner_id
              (Py.strip (Py.join Py.newline (l :: ls))))
    as [(f & t & _ & ->)|[[err ->]|[err ->]]]; proj; eauto 6.
Qed.

Lemma on_line_db (w : world) (line : string) (lines : list string) :
  let w' := on_line user_id partner_id w line lines in
  db w' = db w ∨ db w' = skip_id (db w) ∨
  ∃ f t x, db w' = insert_row (db w) f t x.
Proof.
  unfold on_line. destruct (dispatch line lines); proj; auto.
  apply submit_db.
Qed.

Lemma fg_step_db (w : world) : db_evolves (db w) (db (fstep w)).
Proof.
  unfold chat_session_step.
  destruct (fg w) as [lines|[|r rest]| | |mid c t| |e]; proj;
    try apply db_evolves_refl.
  - destruct (input (stdin w)) as [k rest].
    destruct (on_line_db
                (World (db w) rest (scr w) (stop_event w) (thread w)
                       (AtInput lines) (submitted w))
                (match k with Typed l => l | Fails _ => "=" end) lines)
      as [-> | [-> | (f & t & x & ->)]]; proj.
    + apply db_evolves_refl.
    + apply db_evolves_skip.
    + apply db_evolves_insert.
  - destruct (input (stdin w)) as [[l|e] rest]; proj;
      [|apply db_evolves_refl].
    case_bool_decide; proj; [|apply db_evolves_refl].
    unfold clear_chat_between. destruct (link_state (db w)); proj;
      try apply db_evolves_refl.
    apply db_evolves_delete.
Qed.

Lemma step_db (a : actor) (w : world) : db_evolves (db w) (db (step1 a w)).
Proof.
  destruct a; simpl.
  - apply fg_step_db.
  - destruct (poller_step_frame w) as (-> & _). apply db_evolves_refl.
  - apply db_evolves_outside.
Qed.

Lemma run_db (sched : list actor) (w : world) :
  db_evolves (db w) (db (run sched w)).
Proof.
  induction sched as [|a sched IH] using rev_ind; [apply db_evolves_refl|].
  rewrite run_snoc. eapply db_evolves_trans; [apply IH|apply step_db].
Qed.

(** *** The console over time *)

Lemma on_new_transcript (r : chat_row) (sc : screen) :
  transcript sc `prefix_of` transcript (screen_of (callback r sc)).
Proof.
  unfold on_new. case_bool_decide; simpl; [done|]. by apply prefix_app_r.
Qed.

Lemma on_new_displayed (r : chat_row) (sc : screen) :
  displayed_ids (screen_of (callback r sc)) = {[rid r]} ∪ displayed_ids sc.
Proof. unfold on_new. case_bool_decide; simpl; [set_solver|done]. Qed.

Lemma on_new_seen (r : chat_row) (sc : screen) :
  rid r ∈ displayed_ids sc → screen_of (callback r sc) = sc.
Proof. intros H. unfold on_new. by rewrite bool_decide_eq_true_2. Qed.

Lemma fg_step_transcript (w : world) :
  transcript (scr w) `prefix_of` transcript (scr (fstep w)).
Proof.
  unfold chat_session_step.
  destruct (fg w) as [lines|[|r rest]| | |mid c t| |e]; proj; try done.
  - destruct (input (stdin w)) as [k rest].
    by destruct (on_line_frame
                   (World (db w) rest (scr w) (stop_event w) (thread w)
                          (AtInput lines) (submitted w))
                   (match k with Typed l => l | Fails _ => "=" end) lines)
      as (_ & _ & -> & _).
  - apply on_new_transcript.
  - destruct (input (stdin w)) as [[l|e] rest]; proj; [|done].
    case_bool_decide; proj; [|done].
    by destruct (clear_chat_between _ _ _) as [d [ok err]].
  - by apply prefix_app_r.
Qed.

Lemma step_transcript (a : actor) (w : world) :
  transcript (scr w) `prefix_of` transcript (scr (step1 a w)).
Proof.
  destruct a; simpl; [apply fg_step_transcript| |done].
  rewrite poller_step_scr.
  destruct (pc (thread w)) as [|[|r rest]| |]; try done.
  apply on_new_transcript.
Qed.

Lemma run_transcript (sched : list actor) (w : world) :
  transcript (scr w) `prefix_of` transcript (scr (run sched w)).
Proof.
  induction sched as [|a sched IH] using rev_ind; [done|].
  rewrite run_snoc. etrans; [apply IH|apply step_transcript].
Qed.

(** *** The foreground thread moves only on its own steps *)

Lemma idle_foreground (sched : list actor) (w : world) :
  Foreground ∉ sched →
  fg (run sched w) = fg w ∧ stdin (run sched w) = stdin w ∧
  submitted (run sched w) = submitted w.
Proof.
  induction sched as [|a sched IH] using rev_ind; [done|].
  rewrite not_elem_of_app, list_elem_of_singleton. intros [Hs Ha].
  rewrite run_snoc. destruct (IH Hs) as (<- & <- & <-).
  destruct a; simpl; [done| |done].
  destruct (poller_step_frame (run sched w)) as (_ & -> & _ & -> & ->). done.
Qed.

(** *** The poller completes the pass it is in *)

Lemma poller_reaches_loop_test (w : world) :
  pc (thread w) ≠ Finished →
  pc (thread (run (replicate (ChatPoller.steps_to_loop_test (thread w)) Polling) w))
    = AtLoopTest.
Proof.
  unfold ChatPoller.steps_to_loop_test.
  destruct (pc (thread w)) as [|[|r rows]| |] eqn:E; try done; intros _.
  - cbn. by rewrite poller_step_pc, (poller_step_pc w), E.
  - revert w r E. induction rows as [|r' rows IH]; intros w r E.
    + cbn. by rewrite poller_step_pc, (poller_step_pc w), E.
    + change (S (Nat.max 1 (length (r :: r' :: rows))))
        with (S (S (Nat.max 1 (length (r' :: rows))))).
      cbn [replicate]. rewrite exec_cons. cbn [step].
      apply (IH _ r'). by rewrite poller_step_pc, E.
  - cbn. by rewrite poller_step_pc, E.
Qed.

(** *** The poller leaves only when told to *)

Lemma polling_stop_event (n : nat) (w : world) :
  stop_event (run (replicate n Polling) w) = stop_event w.
Proof.
  induction n as [|n IH]; [done|].
  rewrite replicate_S_end, run_snoc. cbn [step].
  by destruct (poller_step_frame (run (replicate n Polling) w))
    as (_ & _ & -> & _).
Qed.

Lemma poller_stops_when_told (w : world) :
  stop_event w = true →
  pc (thread (run (replicate (S (ChatPoller.steps_to_loop_test (thread w)))
                             Polling) w)) = Finished.
Proof.
  intros Hstop. rewrite replicate_S_end, run_snoc. cbn [step].
  rewrite poller_step_pc, polling_stop_event, Hstop.
  pose proof (poller_reaches_loop_test w) as Hback.
  unfold ChatPoller.steps_to_loop_test in *.
  destruct (pc (thread w)) as [|rows| |] eqn:E;
    first [by rewrite Hback | simpl; by rewrite E].
Qed.

Lemma finished_by_stop (sched : list actor) (w : world) :
  pc (thread (run sched w)) = Finished →
  pc (thread w) = Finished ∨ stop_event (run sched w) = true.
Proof.
  induction sched as [|a sched IH] using rev_ind; [auto|].
  rewrite run_snoc. destruct a; simpl.
  - rewrite fg_step_thread. intros [?|?]%IH; [auto|right].
    by apply fg_step_stop_event.
  - destruct (poller_step_frame (run sched w)) as (_ & _ & -> & _).
    rewrite poller_step_finished. naive_solver.
  - done.
Qed.

(** C8. Once the clear command is confirmed and [clear_chat_between] has
    succeeded: (1) the next step of the foreground thread, whatever the
    others did meanwhile, leaves [displayed_ids] empty; (2) no history
    query made from then on returns a row with the id of a deleted
    message; (3) what was on the console stays there, as the beginning
    of every later transcript; and the poller thread leaves [run] only
    when the stop event is set, and from anywhere in a pass it is back at
    its loop test within [steps_to_loop_test] steps of its own. *)
Theorem C8_clear_chat
    (w : world) (l : string) (rest : list key_event) (sched : list actor) :
  db_wf (db w) →
  fg w = AtConfirm → stdin w = Typed l :: rest →
  Py.lower (Py.strip l) = "y" → link_state (db w) = Up →
  let w1 := fstep w in
  let w2 := run sched w1 in
  fg w1 = AfterClear ∧
  (∀ m, m ∈ messages (db w1) → ¬ in_conversation user_id partner_id m) ∧
  (Foreground ∉ sched → displayed_ids (scr (fstep w2)) = ∅) ∧
  (∀ m r since,
     m ∈ messages (db w) → in_conversation user_id partner_id m →
     r ∈ get_chat_history_all (db w2) user_id partner_id ∨
     r ∈ get_chat_history_since (db w2) user_id partner_id since →
     rid r ≠ id m) ∧
  transcript (scr w) `prefix_of` transcript (scr w2) ∧
  (pc (thread w2) = Finished →
   pc (thread w) = Finished ∨ stop_event w2 = true) ∧
  (pc (thread w2) ≠ Finished →
   pc (thread (run (replicate (ChatPoller.steps_to_loop_test (thread w2))
                              Polling) w2)) = AtLoopTest).
Proof.
  intros [Hser Hwf] Hfg Hin Hy Hup w1 w2.
  assert (Hw1 : w1 = World (delete_where (in_conversation user_id partner_id) (db w))
                           rest (scr w) (stop_event w) (thread w) AfterClear
                           (submitted w)).
  { subst w1. unfold chat_session_step. rewrite Hfg, Hin. cbn [input].
    rewrite bool_decide_eq_true_2 by done.
    unfold clear_chat_between. rewrite Hup. done. }
  assert (Hgone : ∀ m, m ∈ messages (db w1) →
                       ¬ in_conversation user_id partner_id m).
  { rewrite Hw1. simpl. by intros m [? _]%list_elem_of_filter. }
  assert (Hfresh : ∀ m', m' ∈ messages (db w2) →
                         in_conversation user_id partner_id m' →
                         serial (db w) < id m').
  { intros m' Hm' Hc. destruct (run_db sched w1) as [_ Hev].
    destruct (Hev m' Hm') as [Hold|Hnew]; [by destruct (Hgone m' Hold)|].
    rewrite Hw1 in Hnew. done. }
  split_and!.
  - by rewrite Hw1.
  - done.
  - intros Hidle. destruct (idle_foreground sched w1 Hidle) as (Hf & _).
    subst w2. unfold chat_session_step. rewrite Hf, Hw1. done.
  - intros m r since Hm Hc Hr Heq.
    assert (∃ m', r = select_row m' ∧ m' ∈ messages (db w2) ∧
                  in_conversation user_id partner_id m') as (m' & -> & Hm' & Hc').
    { destruct Hr as [Hr|Hr].
      - apply get_chat_history_all_elem in Hr. naive_solver.
      - apply get_chat_history_since_elem in Hr. naive_solver. }
    specialize (Hfresh m' Hm' Hc'). specialize (Hwf m Hm). simpl in Heq. lia.
  - etrans; [|apply run_transcript]. by rewrite Hw1.
  - intros Hfin. apply (finished_by_stop sched w1) in Hfin.
    by rewrite Hw1 in Hfin at 1.
  - apply poller_reaches_loop_test.
Qed.

(** *** Reload after reload *)

Lemma input_length (keys : list key_event) :
  (length (input keys).2 ≤ length keys)%nat.
Proof. destruct keys; simpl; lia. Qed.

Lemma fg_step_stdin (w : world) :
  stdin (fstep w) =
    match fg w with
    | AtInput _ | AtConfirm => (input (stdin w)).2
    | _ => stdin w
    end.
Proof.
  unfold chat_session_step.
  destruct (fg w) as [lines|[|r rest]| | |mid c t| |e]; proj; try done.
  - destruct (input (stdin w)) as [k rest]. proj.
    by destruct (on_line_frame
                   (World (db w) rest (scr w) (stop_event w) (thread w)
                          (AtInput lines) (submitted w))
                   (match k with Typed l => l | Fails _ => "=" end) lines)
      as (_ & _ & _ & ->).
  - destruct (input (stdin w)) as [[l|e] rest]; proj; [|done].
    case_bool_decide; proj; [|done].
    by destruct (clear_chat_between _ _ _) as [d [ok err]].
Qed.

Lemma step_stdin_le (a : actor) (w : world) :
  (length (stdin (step1 a w)) ≤ length (stdin w))%nat.
Proof.
  destruct a; simpl; [| |done].
  - rewrite fg_step_stdin. pose proof (input_length (stdin w)).
    by destruct (fg w).
  - by destruct (poller_step_frame w) as (_ & -> & _).
Qed.

Lemma fg_step_in_reload (w : world) (r : chat_row) (rs : list chat_row) :
  fg w = InReload (r :: rs) →
  fstep w =
    World (db w) (stdin w) (screen_of (callback r (scr w))) (stop_event w)
          (thread w)
          (match rs with [] => AtInput [] | _ :: _ => InReload rs end)
          (submitted w).
Proof. intros H. unfold chat_session_step. by rewrite H. Qed.

Lemma poller_step_displayed (w : world) :
  displayed_ids (scr w) ⊆ displayed_ids (scr (pstep w)).
Proof.
  rewrite poller_step_scr.
  destruct (pc (thread w)) as [|[|r rest]| |]; try done.
  rewrite on_new_displayed. set_solver.
Qed.

Lemma covered_poller_step (w : world) (pending : list chat_row) :
  covers w pending → covers (pstep w) pending.
Proof.
  intros Hc m Hm Hconv Hlast.
  destruct (poller_step_frame w) as (Hdb & _).
  rewrite Hdb in Hm.
  pose proof (step_last_id_mono Polling w) as Hmono. simpl in Hmono.
  destruct (Hc m Hm Hconv) as [Hd|Hp]; [lia| |by right].
  left. by apply poller_step_displayed.
Qed.

Lemma covered_outside_step (o : outside) (w : world) (pending : list chat_row) :
  inserts (Outside o) = false →
  covers w pending → covers (step1 (Outside o) w) pending.
Proof.
  intros Hq Hc m Hm. apply Hc. revert Hm.
  destruct o; simpl in *; try done.
  by intros [_ ?]%list_elem_of_filter.
Qed.

Lemma reloading_step (keys : list key_event) (a : actor) (w : world) :
  keys ≠ [] → inserts a = false →
  in_reload keys w → in_reload keys (step1 a w).
Proof.
  intros Hkeys Hq [Hlt|(Hin & Hfg)].
  { left. pose proof (step_stdin_le a w). lia. }
  destruct a as [| |o]; cbn [step].
  - (* the foreground thread *)
    destruct Hfg as [[Hfg Hc]|(rows & Hfg & Hc)].
    + left. rewrite fg_step_stdin, Hfg, Hin.
      destruct keys; [done|]. simpl. lia.
    + right. destruct rows as [|r rs].
      * unfold chat_session_step. rewrite Hfg. split; [done|]. left. done.
      * rewrite (fg_step_in_reload _ _ _ Hfg). split; [done|].
        assert (Hc' : covers
                        (World (db w) (stdin w) (screen_of (callback r (scr w)))
                               (stop_event w) (thread w)
                               (match rs with
                                | [] => AtInput []
                                | _ :: _ => InReload rs
                                end) (submitted w)) rs).
        { intros m Hm Hconv Hlast. proj. rewrite on_new_displayed.
          destruct (Hc m Hm Hconv Hlast) as [?|[<-|?]%elem_of_cons];
            [left|left|right]; set_solver. }
        destruct rs; [left|right]; eauto.
  - (* the poller thread *)
    right. destruct (poller_step_frame w) as (_ & -> & _ & -> & _).
    split; [done|].
    destruct Hfg as [[Hfg Hc]|(rows & Hfg & Hc)];
      [left|right]; eauto using covered_poller_step.
  - (* the outside *)
    right. split; [done|].
    destruct Hfg as [[Hfg Hc]|(rows & Hfg & Hc)]; [left|right];
      eauto using covered_outside_step.
Qed.

Lemma reloading_run (keys : list key_event) (sched : list actor) (w : world) :
  keys ≠ [] → Forall (λ a, inserts a = false) sched →
  in_reload keys w → in_reload keys (run sched w).
Proof.
  intros Hkeys Hq Hw. induction sched as [|a sched IH] using rev_ind; [done|].
  apply Forall_app in Hq as [Hq Ha]. apply Forall_cons in Ha as [Ha _].
  rewrite run_snoc. apply reloading_step; auto.
Qed.

Lemma reloading_seen_step (keys : list key_event) (a : actor) (w : world) :
  reloading_seen keys w → reloading_seen keys (step1 a w).
Proof.
  intros [Hlt|(Hin & Hfg)].
  { left. pose proof (step_stdin_le a w). lia. }
  destruct a as [| |o]; cbn [step].
  - destruct Hfg as [Hfg|[Hfg|(rows & Hfg & Hc)]].
    + destruct keys as [|k keys'].
      * right. rewrite (fg_step_closed _ _ _ _ _ Hfg Hin).
        rewrite on_line_quit by done. split; [done|]. auto.
      * left. rewrite fg_step_stdin, Hfg, Hin. simpl. lia.
    + right. rewrite fg_step_left by done. auto.
    + right. destruct rows as [|r rs].
      * unfold chat_session_step. rewrite Hfg. split; [done|]. left. done.
      * rewrite (fg_step_in_reload _ _ _ Hfg). split; [done|].
        rewrite on_new_seen by (apply Hc; set_solver).
        destruct rs as [|r' rs']; [auto|].
        right. right. exists (r' :: rs'). split; [done|].
        intros r0 Hr0. apply Hc. set_solver.
  - right. destruct (poller_step_frame w) as (_ & -> & _ & -> & _).
    split; [done|].
    destruct Hfg as [Hfg|[Hfg|(rows & Hfg & Hc)]]; auto.
    right. right. exists rows. split; [done|].
    intros r Hr. by apply poller_step_displayed, Hc.
  - right. split; [done|]. done.
Qed.

Lemma reloading_seen_run (keys : list key_event) (sched : list actor) (w : world) :
  reloading_seen keys w → reloading_seen keys (run sched w).
Proof.
  intros Hw. induction sched as [|a sched IH] using rev_ind; [done|].
  rewrite run_snoc. by apply reloading_seen_step.
Qed.

Lemma reloading_seen_renders_nothing (keys : list key_event) (w : world) :
  reloading_seen keys w → stdin w = keys →
  transcript (scr (fstep w)) = transcript (scr w).
Proof.
  intros [Hlt|(_ & Hfg)] Hin; [rewrite Hin in Hlt; lia|].
  destruct Hfg as [Hfg|[Hfg|(rows & Hfg & Hc)]].
  - unfold chat_session_step. rewrite Hfg. destruct (input (stdin w)) as [k rest].
    by destruct (on_line_frame
                   (World (db w) rest (scr w) (stop_event w) (thread w)
                          (AtInput []) (submitted w))
                   (match k with Typed l => l | Fails _ => "=" end) [])
      as (_ & _ & -> & _).
  - by rewrite fg_step_left.
  - destruct rows as [|r rs].
    + unfold chat_session_step. by rewrite Hfg.
    + rewrite (fg_step_in_reload _ _ _ Hfg). proj.
      rewrite on_new_seen; [done|]. apply Hc. set_solver.
Qed.

(** C7 (as amended). When the fetch of a first reload reaches the store
    and no row is written until the second reload that follows it, every
    row the second call of [get_chat_history_since] returns is in
    [displayed_ids] already, and no step of the foreground thread in the
    second reload renders a message. *)
Theorem C7_second_reload_renders_nothing
    (w : world) (l1 l2 : string) (rest : list key_event)
    (sched1 sched2 : list actor) :
  fg w = AtInput [] → stdin w = Typed l1 :: Typed l2 :: rest →
  Py.lower (Py.strip l1) = "r" → Py.lower (Py.strip l2) = "r" →
  link_state (db w) = Up →
  Forall (λ a, inserts a = false) sched1 →
  let w1 := fstep w in
  let w2 := run sched1 w1 in
  fg w2 = AtInput [] → stdin w2 = Typed l2 :: rest →
  let rows2 :=
    get_chat_history_since (db w2) user_id partner_id (last_id (thread w2)) in
  let w3 := fstep w2 in
  let w4 := run sched2 w3 in
  (∀ r, r ∈ rows2 → rid r ∈ displayed_ids (scr w2)) ∧
  fg w3 = match rows2 with [] => AtInput [] | _ :: _ => InReload rows2 end ∧
  transcript (scr w3) = transcript (scr w2) ∧
  (stdin w4 = rest → transcript (scr (fstep w4)) = transcript (scr w4)).
Proof.
  intros Hfg Hin Hl1 Hl2 Hup Hq w1 w2 Hfg2 Hin2 rows2 w3 w4.
  assert (Hd : ∀ l, Py.lower (Py.strip l) = "r" → dispatch l [] = Reload).
  { intros l Hl. rewrite dispatch_empty. by rewrite bool_decide_eq_true_2. }
  (* the first reload covers every row above the watermark *)
  assert (H1 : in_reload (Typed l2 :: rest) w1).
  { subst w1. rewrite (fg_step_typed _ _ _ _ _ _ _ Hfg Hin).
    rewrite on_line_reload by auto. proj. right. split; [done|].
    set (rows := get_chat_history_since _ _ _ _).
    assert (Hc : ∀ f, covers
              (World (db w) (Typed l2 :: rest) (scr w) (stop_event w)
                     (thread w) f (submitted w)) rows).
    { intros f m Hm Hconv Hlast. right.
      apply get_chat_history_since_elem. naive_solver. }
    destruct rows as [|r rs] eqn:E; [left|right; eauto].
    split; [done|]. intros m Hm Hconv Hlast.
    destruct (Hc (AtInput []) m Hm Hconv Hlast) as [?|?]; auto. }
  assert (H2 : covers w2 []).
  { destruct (reloading_run (Typed l2 :: rest) sched1 w1) as [Hlt|(_ & Hc)];
      [done|done|done| |].
    - fold w2 in Hlt. rewrite Hin2 in Hlt. lia.
    - fold w2 in Hc. destruct Hc as [[_ Hc]|(rows & Hr & _)]; [done|congruence]. }
  assert (Hseen : ∀ r, r ∈ rows2 → rid r ∈ displayed_ids (scr w2)).
  { intros r (_ & m & -> & Hm & Hconv & Hlast)%get_chat_history_since_elem.
    destruct (H2 m Hm Hconv Hlast) as [?|Hnil]; [done|].
    by apply elem_of_nil in Hnil. }
  assert (Hw3 : w3 = World (db w2) rest (scr w2) (stop_event w2) (thread w2)
                       (match rows2 with
                        | [] => AtInput []
                        | _ :: _ => InReload rows2
                        end) (submitted w2)).
  { subst w3. rewrite (fg_step_typed _ _ _ _ _ _ _ Hfg2 Hin2).
    by rewrite on_line_reload by auto. }
  assert (H3 : reloading_seen rest w3).
  { rewrite Hw3. right. split; [done|].
    destruct rows2 as [|r rs]; [auto|]. right. right. eauto. }
  split_and!; [done|by rewrite Hw3|by rewrite Hw3|].
  intros Hin4. apply (reloading_seen_renders_nothing rest); [|done].
  by apply reloading_seen_run.
Qed.

(** *** End of input in the middle of an entry *)

Lemma cut_short_step (l : string) (a : actor) (w : world) :
  dispatch l [] = Append → cut_short l w → cut_short l (step1 a w).
Proof.
  intros Hl (Hstop & Hsub & Hfg). destruct a as [| |o]; cbn [step].
  - destruct Hfg as [[Hfg Hin]|(lines & Hne & Hfg & Hin)].
    + rewrite (fg_step_typed _ _ _ _ _ _ _ Hfg Hin), on_line_append by done.
      split_and!; [done..|]. right. exists [l]. done.
    + assert (Hd : dispatch "=" lines = Append).
      { rewrite (dispatch_composing _ _ Hne).
        by rewrite bool_decide_eq_false_2 by naive_solver. }
      rewrite (fg_step_closed _ _ _ _ _ Hfg Hin), on_line_append by done.
      split_and!; [done..|]. right. exists (lines ++ ["="]).
      split_and!; [by destruct lines|done..].
  - destruct (poller_step_frame w) as (_ & Hi & Hs & Hf & Hu).
    unfold cut_short. by rewrite Hi, Hs, Hf, Hu.
  - done.
Qed.

Lemma cut_short_run (l : string) (sched : list actor) (w : world) :
  dispatch l [] = Append → cut_short l w → cut_short l (run sched w).
Proof.
  intros Hl Hw. induction sched as [|a sched IH] using rev_ind; [done|].
  rewrite run_snoc. by apply cut_short_step.
Qed.

End Interleaving.

(** C7 (as stated) fails: a first reload whose fetch does not reach the
    store brings nothing, and the second one renders the message that
    was waiting, though no row was written between the two. *)
Lemma C7_reload_after_failed_reload_renders :
  let run := exec alice bob "Bob" in
  let w := run [Outside (ExtInsert bob alice "yo"); Outside (ExtLink Refused)]
               (chat_session_open alice bob "Bob" fresh_server
                  [Typed "r"; Typed "r"]) in
  let w1 := run [Foreground] w in
  let w2 := run [Outside (ExtLink Up)] w1 in
  let w3 := run [Foreground; Foreground] w2 in
  stdin w1 = [Typed "r"] ∧ fg w1 = AtInput [] ∧
  stdin w3 = [] ∧ fg w3 = AtInput [] ∧
  messages (db w3) = messages (db w) ∧
  shown_ids w2 = [] ∧ shown_ids w3 = [1] ∧
  transcript (scr w3) ≠ transcript (scr w2).
Proof. vm_compute. split_and!; done. Qed.

(** C9. A fetch that does not reach the store, or that fails inside
    [get_chat_history_since], gives the poller no row: the callback is
    not called, nothing changes but the trace, and the thread sleeps and
    loops. An exception out of the callback ends the pass at its row and
    leads to the sleep too, but the pass is not an empty one: what was
    delivered before stays, and the watermark is on the row of the
    exception already, so that no later fetch returns this row. The
    thread leaves [run] exactly at a loop test that finds the stop event
    set: in a session it is never finished while the event is unset, and
    once the event is set it is finished after the pass it is in. *)
Theorem C9_poller_ends_only_on_stop_event
    {St : Type} (on_new : chat_row → St → callback_result St)
    (d : database) (u p name : string) (stop : bool) (pl : poller) (s : St)
    (d0 : database) (keys : list key_event) (sched : list actor) :
  let fetch := get_chat_history_since d u p in
  let after := ChatPoller.run_step on_new stop fetch pl s in
  let w := exec u p name sched (chat_session_open u p name d0 keys) in
  (link_state d ≠ Up → ∀ since, fetch since = []) ∧
  (pc pl = AtLoopTest → stop = false → fetch (last_id pl) = [] →
   after = (Poller (last_id pl) AtSleep (trace pl ++ [EvFetch (last_id pl)]), s)) ∧
  (∀ r rest s', pc pl = InFor (r :: rest) → on_new r s = Raised s' →
     let l := ChatPoller.advance (last_id pl) (rid r) in
     after = (Poller l AtSleep (trace pl ++ [EvCallback r l]), s') ∧
     rid r ≤ last_id after.1 ∧
     ∀ d' since, last_id after.1 ≤ since →
                 r ∉ get_chat_history_since d' u p since) ∧
  (pc pl = AtSleep →
   after = (Poller (last_id pl) AtLoopTest
                   (trace pl ++ [EvSleep POLL_INTERVAL]), s)) ∧
  (pc after.1 = Finished ↔
   pc pl = Finished ∨ (pc pl = AtLoopTest ∧ stop = true)) ∧
  (pc (thread w) = Finished → stop_event w = true) ∧
  (pc (thread w) = AtLoopTest → stop_event w = true →
   pc (thread (poller_step u p name w)) = Finished) ∧
  (stop_event w = true →
   pc (thread (exec u p name
                 (replicate (S (ChatPoller.steps_to_loop_test (thread w)))
                            Polling) w)) = Finished).
Proof.
  intros fetch after w. subst after. unfold ChatPoller.run_step.
  split_and!.
  - intros Hdown since. by apply get_chat_history_since_down.
  - intros Hpc Hstop Hrows. by rewrite Hpc, Hstop, Hrows.
  - intros r rest s' Hpc Hraise. cbv zeta. rewrite Hpc, Hraise.
    cbn [fst last_id].
    assert (Hl : rid r ≤ ChatPoller.advance (last_id pl) (rid r)).
    { unfold ChatPoller.advance. case_bool_decide; lia. }
    split_and!; [done|done|].
    intros d' since Hsince Hin.
    apply get_chat_history_since_elem in Hin as (_ & m & -> & _ & _ & Hid).
    unfold select_row in *. cbn [rid] in *. lia.
  - intros Hpc. by rewrite Hpc.
  - destruct (pc pl) as [|[|r rest]| |] eqn:E; simpl.
    + destruct stop; simpl; [naive_solver|].
      destruct (fetch (last_id pl)); simpl; naive_solver.
    + naive_solver.
    + destruct (on_new r s); simpl; [|naive_solver].
      destruct rest; simpl; naive_solver.
    + naive_solver.
    + rewrite E. naive_solver.
  - intros Hfin. subst w.
    apply finished_by_stop in Hfin as [Hfin|?]; [|done].
    by rewrite open_session_spec in Hfin.
  - intros Hpc Hstop. by rewrite poller_step_pc, Hpc, Hstop.
  - apply poller_stops_when_told.
Qed.

(** A pass in which the callback raises is not a pass without rows: of
    the rows 1 and 3 of the conversation the first is delivered, the
    callback raises on the second, and the poller goes on from the
    watermark 3; its next fetch is empty, so that the row 3 is lost. *)
Lemma C9_exception_in_loop_body_is_not_an_empty_pass :
  let run n :=
    ChatPoller.run_steps raising_on_3 n false
      (get_chat_history_since busy_server alice bob)
      (Poller 0 AtLoopTest []) [] in
  get_chat_history_since busy_server alice bob 0
    = [ChatRow 1 bob "yo" 1700000000; ChatRow 3 alice "hi" 1700000002] ∧
  run 3%nat = (Poller 3 AtSleep
                 [EvFetch 0;
                  EvCallback (ChatRow 1 bob "yo" 1700000000) 1;
                  EvCallback (ChatRow 3 alice "hi" 1700000002) 3],
               [1]) ∧
  run 6%nat = (Poller 3 AtLoopTest
                 [EvFetch 0;
                  EvCallback (ChatRow 1 bob "yo" 1700000000) 1;
                  EvCallback (ChatRow 3 alice "hi" 1700000002) 3;
                  EvSleep POLL_INTERVAL;
                  EvFetch 3;
                  EvSleep POLL_INTERVAL],
               [1]).
Proof. cbv zeta. split_and!; by vm_compute. Qed.

(** Whatever is in [displayed_ids] has been rendered. *)
Lemma displayed_was_rendered
    (u p name : string) (d : database) (keys : list key_event)
    (sched : list actor) (i : Z) :
  let w := exec u p name sched (chat_session_open u p name d keys) in
  i ∈ displayed_ids (scr w) → i ∈ shown_ids w.
Proof.
  intros w. subst w. revert i.
  assert (Hnew : ∀ r sc,
            (∀ i, i ∈ displayed_ids sc → i ∈ s_id <$> transcript sc) →
            ∀ i, i ∈ displayed_ids (screen_of (on_new u name r sc)) →
                 i ∈ s_id <$> transcript (screen_of (on_new u name r sc))).
  { intros r sc Hsc i. unfold on_new. case_bool_decide; simpl; [auto|].
    rewrite fmap_app, elem_of_app. simpl.
    intros [->%elem_of_singleton|?]%elem_of_union; [right|left; auto].
    apply list_elem_of_singleton. done. }
  induction sched as [|a sched IH] using rev_ind.
  - intros i. rewrite open_session_spec. unfold shown_ids. simpl.
    rewrite elem_of_list_to_set, <- list_fmap_compose. done.
  - rewrite run_snoc. unfold shown_ids in *.
    set (w := exec u p name sched _) in *. destruct a; simpl.
    + unfold chat_session_step.
      destruct (fg w) as [lines|[|r rest]| | |mid c t| |e];
        cbn [scr goto]; try done.
      * destruct (input (stdin w)) as [k rest].
        by destruct (on_line_frame u p
                   (World (db w) rest (scr w) (stop_event w) (thread w)
                          (AtInput lines) (submitted w))
                   (match k with Typed l => l | Fails _ => "=" end) lines)
          as (_ & _ & -> & _).
      * by apply Hnew.
      * destruct (input (stdin w)) as [[l|e] rest]; cbn [scr]; [|done].
        case_bool_decide; cbn [scr]; [|done].
        by destruct (clear_chat_between _ _ _) as [d' [ok err]].
      * intros i. simpl. rewrite fmap_app, elem_of_app. simpl.
        intros [->%elem_of_singleton|?]%elem_of_union; [right|left; auto].
        apply list_elem_of_singleton. done.
    + rewrite poller_step_scr.
      destruct (pc (thread w)) as [|[|r rest]| |]; try done.
      by apply Hnew.
    + done.
Qed.

(** C1 (the code departs from it). The poller can go through the row of
    a message between the return of [insert_message_returning_id] and
    the [displayed_ids.add] of the send path, which renders without
    looking into [displayed_ids]: the message is on the console twice. *)
Theorem C1_sent_message_rendered_twice :
  let run := exec alice bob "Bob" in
  let w0 := chat_session_open alice bob "Bob" fresh_server
              [Typed "hi"; Typed ""; Typed ""] in
  let w1 := run [Foreground; Foreground; Foreground] w0 in
  let w2 := run [Polling; Polling] w1 in
  let w3 := run [Foreground] w2 in
  fg w1 = AfterInsert 1 1700000000 "hi" ∧ shown_ids w1 = [] ∧
  fg w2 = AfterInsert 1 1700000000 "hi" ∧ shown_ids w2 = [1] ∧
  shown_ids w3 = [1; 1] ∧ ¬ NoDup (shown_ids w3).
Proof.
  vm_compute. split_and!; try done.
  intros Hnd. apply NoDup_cons in Hnd as [Hnd _]. apply Hnd. by left.
Qed.

(** C3 (the code departs from it). End of input or an interrupt after
    [hello] was typed does not leave the session: the foreground thread
    appends [=] to the entry. With the input closed it does so for ever,
    under every schedule, neither sending nor setting the stop event nor
    returning; after an interrupt the entry goes on, and a double blank
    line sends [hello] with [=] under it. *)
Theorem C3_eof_mid_composition_is_not_quit (n : nat) (sched : list actor) :
  let run := exec alice bob "Bob" in
  let w := run (replicate (S n) Foreground) (alice_session [Typed "hello"]) in
  let w' := run (replicate 5 Foreground)
              (alice_session
                 [Typed "hello"; Fails KeyboardInterrupt; Typed ""; Typed ""]) in
  let w'' := run sched (alice_session [Typed "hello"]) in
  fg w = AtInput ("hello" :: replicate n "=") ∧
  stop_event w = false ∧ submitted w = [] ∧
  fg w'' ≠ Left ∧ stop_event w'' = false ∧ submitted w'' = [] ∧
  fg w' = AtInput [] ∧ stop_event w' = false ∧
  submitted w' = ["hello" +:+ Py.newline +:+ "="] ∧
  body <$> messages (db w') = ["hello" +:+ Py.newline +:+ "="].
Proof.
  intros run w w' w''.
  assert (Hw : w = World fresh_server [] (Screen ∅ []) false
                     (Poller 0 AtLoopTest [])
                     (AtInput ("hello" :: replicate n "=")) []).
  { subst w run. change (replicate (S n) Foreground)
      with ([Foreground] ++ replicate n Foreground).
    rewrite exec_app.
    rewrite (eof_while_composing alice bob "Bob" n _ ["hello"]); done. }
  assert (Hcut : cut_short "hello" w'').
  { apply cut_short_run; [done|]. unfold cut_short. simpl. auto. }
  destruct Hcut as (Hstop & Hsub & Hfg).
  rewrite Hw.
  split_and!;
    [reflexivity|reflexivity|reflexivity| |exact Hstop|exact Hsub
    |by vm_compute..].
  destruct Hfg as [[Hfg _]|(lines & _ & Hfg & _)]; by rewrite Hfg.
Qed.

(** C2 (as stated) fails: after a message is sent and rendered, the
    watermark is still under its id. *)
Lemma C2_watermark_below_sent_message :
  let w := exec alice bob "Bob" (replicate 4 Foreground)
             (chat_session_open alice bob "Bob" fresh_server
                [Typed "hi"; Typed ""; Typed ""]) in
  shown_ids w = [1] ∧ fg w = AtInput [] ∧ last_id (thread w) = 0 ∧
  last_id (thread w) ≠ Z.max 0 1 ∧
  ¬ (∀ i, i ∈ shown_ids w → i ≤ last_id (thread w)).
Proof.
  vm_compute. split_and!; try done.
  intros H. specialize (H 1 ltac:(by left)). by apply H.
Qed.

(** ** The theorems at work on concrete sessions *)

Lemma C10_witness :
  Py.blank " " = true ∧
  fg (alice_session [Typed " R "]) = AtInput [] ∧
  stdin (alice_session [Typed " R "]) = [Typed " R "] ∧
  dispatch " R " [] = Reload ∧
  fg (chat_session_step alice bob "Bob" (alice_session [Typed " R "])) = AtInput [].
Proof.
  destruct (C10_padded_command_tokens alice bob "Bob" " " " " " R "
              (alice_session [Typed " R "]) [] eq_refl eq_refl eq_refl eq_refl)
    as (Hr & _ & _ & Hreload & _).
  split_and!; [reflexivity..| |].
  - by apply Hr.
  - apply Hreload. by right.
Defined.

Lemma C6_witness :
  "r" ∈ ["r"; "c"; "="] ∧
  fg (alice_composing ["hello"] [Typed "r"]) = AtInput ["hello"] ∧
  stdin (alice_composing ["hello"] [Typed "r"]) = [Typed "r"] ∧
  dispatch "r" ["hello"] = Append ∧
  fg (chat_session_step alice bob "Bob" (alice_composing ["hello"] [Typed "r"]))
    = AtInput ["hello"; "r"].
Proof.
  assert (Htok : "r" ∈ ["r"; "c"; "="]) by (by left).
  destruct (C6_command_token_only_on_first_line alice bob "Bob" "r" ["hello"]
              (alice_composing ["hello"] [Typed "r"]) [] Htok eq_refl eq_refl)
    as (_ & _ & Happ).
  destruct Happ as (Hd & Hfg & _); [done|].
  split_and!; [done|reflexivity|reflexivity|exact Hd|exact Hfg].
Defined.


Lemma C4_witness :
  (∀ r s, on_new alice "Bob" r s
          = Returned (screen_of (on_new alice "Bob" r s))) ∧
  pc (Poller 0 AtLoopTest []) = AtLoopTest ∧
  trace (ChatPoller.run_steps (on_new alice "Bob") 4 false
           (get_chat_history_since busy_server alice bob)
           (Poller 0 AtLoopTest []) (Screen ∅ [])).1
    = [EvFetch 0;
       EvCallback (ChatRow 1 bob "yo" 1700000000) 1;
       EvCallback (ChatRow 3 alice "hi" 1700000002) 3;
       EvSleep 1].
Proof.
  destruct (C4_iteration_fetches_delivers_then_sleeps
              (on_new alice "Bob") (λ r s, screen_of (on_new alice "Bob" r s))
              busy_server alice bob (Poller 0 AtLoopTest []) (Screen ∅ [])
              (on_new_returns alice "Bob") eq_refl)
    as (_ & Htrace & _).
  split_and!; [apply on_new_returns|reflexivity|exact Htrace].
Defined.

Lemma busy_server_wf : db_wf busy_server.
Proof.
  split; [done|]. intros m Hm.
  repeat (apply elem_of_cons in Hm as [->|Hm]); try done.
  by apply elem_of_nil in Hm.
Qed.

Lemma C8_witness :
  db_wf (db alice_confirming) ∧
  fg alice_confirming = AtConfirm ∧
  stdin alice_confirming = [Typed " Y "] ∧
  Py.lower (Py.strip " Y ") = "y" ∧
  link_state (db alice_confirming) = Up ∧
  fg (chat_session_step alice bob "Bob" alice_confirming) = AfterClear ∧
  displayed_ids
    (scr (chat_session_step alice bob "Bob"
            (exec alice bob "Bob" [Polling]
               (chat_session_step alice bob "Bob" alice_confirming)))) = ∅.
Proof.
  destruct (C8_clear_chat alice bob "Bob" alice_confirming " Y " [] [Polling]
              busy_server_wf eq_refl eq_refl eq_refl eq_refl)
    as (Hfg & _ & Hempty & _).
  split_and!; [|reflexivity..| |].
  - exact busy_server_wf.
  - exact Hfg.
  - apply Hempty. intros [Hin|Hin]%elem_of_cons; [done|].
    by apply elem_of_nil in Hin.
Defined.

Lemma C7_witness :
  fg alice_reloading = AtInput [] ∧
  stdin alice_reloading = [Typed "r"; Typed "r"] ∧
  Py.lower (Py.strip "r") = "r" ∧
  link_state (db alice_reloading) = Up ∧
  Forall (λ a, inserts a = false) [Foreground] ∧
  fg (exec alice bob "Bob" [Foreground; Foreground] alice_reloading)
    = AtInput [] ∧
  stdin (exec alice bob "Bob" [Foreground; Foreground] alice_reloading)
    = [Typed "r"] ∧
  transcript (scr (exec alice bob "Bob" [Foreground; Foreground; Foreground]
                     alice_reloading))
    = transcript (scr (exec alice bob "Bob" [Foreground; Foreground]
                         alice_reloading)).
Proof.
  assert (Hq : Forall (λ a, inserts a = false) [Foreground])
    by (by repeat constructor).
  destruct (C7_second_reload_renders_nothing alice bob "Bob" alice_reloading
              "r" "r" [] [Foreground] [Polling]
              eq_refl eq_refl eq_refl eq_refl eq_refl Hq eq_refl eq_refl)
    as (_ & _ & Hsame & _).
  split_and!; [reflexivity..|exact Hq|reflexivity|reflexivity|exact Hsame].
Defined.

(** A command token typed as the second line of an entry is part of the
    message that is sent. *)
Example command_token_on_second_line :
  submitted (exec alice bob "Bob" (replicate 4 Foreground)
               (alice_session [Typed "hello"; Typed "r"; Typed ""; Typed ""]))
    = ["hello" +:+ Py.newline +:+ "r"].
Proof. by vm_compute. Qed.

(** Typed first, padded and in upper case, the tokens run their commands
    and nothing is sent. *)
Example padded_tokens_on_first_line :
  let w := exec alice bob "Bob" (replicate 4 Foreground)
             (alice_session [Typed " R "; Typed "C"; Typed "n"; Typed " = "]) in
  fg w = Left ∧ stop_event w = true ∧ submitted w = [] ∧ stdin w = [].
Proof. by vm_compute. Qed.

(** * Beyond the claims: the rest of the store, the session and the menus *)

(** ** Rows in order of id *)

Lemma filter_fmap_comm {A B} (f : A → B) (P : B → Prop)
    `{!∀ y, Decision (P y)} (l : list A) :
  filter P (f <$> l) = f <$> filter (λ x, P (f x)) l.
Proof.
  induction l as [|x l IH]; [done|].
  rewrite fmap_cons, !filter_cons, IH. by case_decide.
Qed.

Lemma strongly_sorted_filter {A} (R : relation A) (P : A → Prop)
    `{!∀ x, Decision (P x)} (l : list A) :
  StronglySorted R l → StronglySorted R (filter P l).
Proof.
  induction 1 as [|x l Hl IH Hx]; [constructor|].
  rewrite filter_cons. case_decide; [|done].
  constructor; [done|]. rewrite Forall_forall in *.
  intros y [_ Hy]%list_elem_of_filter. auto.
Qed.

Lemma keyed_rows_inj (rows : list chat_row) (r1 r2 : chat_row) :
  NoDup (rid <$> rows) → r1 ∈ rows → r2 ∈ rows → rid r1 = rid r2 → r1 = r2.
Proof.
  induction rows as [|r rows IH]; [by intros _ ?%elem_of_nil|].
  rewrite fmap_cons, NoDup_cons.
  intros [Hr Hnd] [->|H1]%elem_of_cons [->|H2]%elem_of_cons Heq; auto.
  - destruct Hr. rewrite Heq. by apply list_elem_of_fmap_2.
  - destruct Hr. rewrite <- Heq. by apply list_elem_of_fmap_2.
Qed.

(** Two listings of the same keyed rows in order of id are the same list. *)
Lemma ordered_keyed_rows_eq (l1 l2 : list chat_row) :
  StronglySorted by_id l1 → StronglySorted by_id l2 → l1 ≡ₚ l2 →
  NoDup (rid <$> l1) → l1 = l2.
Proof.
  intros H1 H2 Hp Hnd. apply (StronglySorted_unique_strong by_id); try done.
  intros x1 x2 Hx1 Hx2 Hle Hge. apply (keyed_rows_inj l1); try done.
  - by rewrite Hp.
  - unfold by_id in *. lia.
Qed.

Lemma selected_rows_keyed (d : database) (P : message → Prop)
    `{!∀ m, Decision (P m)} :
  db_keyed d → NoDup (rid <$> (select_row <$> filter P (messages d))).
Proof.
  intros Hk. rewrite <- list_fmap_compose.
  apply (sublist_NoDup _ (id <$> messages d)); [done|].
  change (rid ∘ select_row) with id.
  apply fmap_sublist, sublist_filter.
Qed.

Lemma history_keyed (d : database) (u p : string) :
  db_keyed d → NoDup (rid <$> get_chat_history_all d u p).
Proof.
  intros Hk. unfold get_chat_history_all.
  destruct (link_state d); try constructor.
  unfold order_by_id. rewrite merge_sort_Permutation.
  by apply selected_rows_keyed.
Qed.

Lemma history_all_sym (d : database) (a b : string) :
  get_chat_history_all d a b = get_chat_history_all d b a.
Proof.
  unfold get_chat_history_all. destruct (link_state d); try done.
  do 2 f_equal. apply list_filter_iff.
  unfold in_conversation. naive_solver.
Qed.

Lemma history_since_sym (d : database) (a b : string) (since : Z) :
  get_chat_history_since d a b since = get_chat_history_since d b a since.
Proof.
  unfold get_chat_history_since. destruct (link_state d); try done.
  do 2 f_equal. apply list_filter_iff.
  unfold in_conversation. naive_solver.
Qed.

(** X1. Both participants of a conversation get the same rows, from the
    full history and from the incremental fetch. *)
Theorem history_same_for_both_participants
    (d : database) (a b : string) (since : Z) :
  get_chat_history_all d a b = get_chat_history_all d b a ∧
  get_chat_history_since d a b since = get_chat_history_since d b a since.
Proof.
  split.
  - apply history_all_sym.
  - apply history_since_sym.
Qed.

Lemma since_filter_history (d : database) (u p : string) (since : Z) :
  db_keyed d →
  get_chat_history_since d u p since
    = filter (λ r, since < rid r) (get_chat_history_all d u p).
Proof.
  intros Hk. unfold get_chat_history_since, get_chat_history_all.
  destruct (link_state d); try done.
  assert (Hperm :
    order_by_id
      (select_row <$>
         filter (λ m, in_conversation u p m ∧ since < id m) (messages d))
    ≡ₚ filter (λ r, since < rid r)
         (order_by_id
            (select_row <$> filter (in_conversation u p) (messages d)))).
  { unfold order_by_id. rewrite !merge_sort_Permutation.
    rewrite filter_fmap_comm, list_filter_filter.
    erewrite (list_filter_iff (λ m, in_conversation u p m ∧ since < id m));
      [done|]. simpl. naive_solver. }
  apply ordered_keyed_rows_eq; try done.
  - apply order_by_id_sorted.
  - apply strongly_sorted_filter, order_by_id_sorted.
  - unfold order_by_id. rewrite merge_sort_Permutation.
    by apply selected_rows_keyed.
Qed.

Lemma history_strictly_sorted (d : database) (u p : string) :
  db_keyed d → StronglySorted Z.lt (rid <$> get_chat_history_all d u p).
Proof.
  intros Hk. pose proof (history_keyed d u p Hk) as Hnd.
  assert (Hsorted : StronglySorted by_id (get_chat_history_all d u p)).
  { unfold get_chat_history_all. destruct (link_state d);
      [apply order_by_id_sorted|constructor..]. }
  induction Hsorted as [|r rows Hrows IH Hr]; [constructor|].
  rewrite fmap_cons in *. apply NoDup_cons in Hnd as [Hnot Hnd].
  constructor; [by apply IH|].
  rewrite Forall_forall in Hr. apply Forall_forall.
  intros i (r' & -> & Hr')%list_elem_of_fmap.
  specialize (Hr r' Hr'). unfold by_id in Hr.
  assert (rid r ≠ rid r'); [|lia].
  intros Heq. apply Hnot. rewrite Heq. by apply list_elem_of_fmap_2.
Qed.

(** X2. On a table whose ids are a key, the incremental fetch is the
    full history without the rows up to [since_id], and the ids of a
    history go strictly up. *)
Theorem since_is_history_above
    (d : database) (u p : string) (since : Z) :
  db_keyed d →
  get_chat_history_since d u p since
    = filter (λ r, since < rid r) (get_chat_history_all d u p) ∧
  StronglySorted Z.lt (rid <$> get_chat_history_all d u p).
Proof.
  intros Hk. split.
  - by apply since_filter_history.
  - by apply history_strictly_sorted.
Qed.

Lemma filter_none {A} (P : A → Prop) `{!∀ x, Decision (P x)} (l : list A) :
  (∀ x, x ∈ l → ¬ P x) → filter P l = [].
Proof.
  induction l as [|x l IH]; [done|]. intros Hall.
  rewrite filter_cons_False by (apply Hall; by left).
  apply IH. intros y Hy. apply Hall. by right.
Qed.

(** A selection in order of id, cut down by a test on the selected rows. *)
Lemma ordered_selection (d : database) (P P0 : message → Prop)
    (Q : chat_row → Prop)
    `{!∀ m, Decision (P m), !∀ m, Decision (P0 m), !∀ r, Decision (Q r)} :
  db_keyed d → (∀ m, P m ↔ Q (select_row m) ∧ P0 m) →
  order_by_id (select_row <$> filter P (messages d))
    = filter Q (order_by_id (select_row <$> filter P0 (messages d))).
Proof.
  intros Hk HP. apply ordered_keyed_rows_eq.
  - apply order_by_id_sorted.
  - apply strongly_sorted_filter, order_by_id_sorted.
  - unfold order_by_id. rewrite !merge_sort_Permutation.
    rewrite filter_fmap_comm, list_filter_filter.
    by erewrite (list_filter_iff P).
  - unfold order_by_id. rewrite merge_sort_Permutation.
    by apply selected_rows_keyed.
Qed.

(** ** The key and the sequence are kept *)

Lemma insert_row_sound (d : database) (f t x : string) :
  db_sound d → db_sound (insert_row d f t x).
Proof.
  intros [[Hser Hwf] Hk]. split; [split|]; simpl.
  - lia.
  - intros m [Hm| ->%list_elem_of_singleton]%elem_of_app; [|simpl; lia].
    specialize (Hwf m Hm). lia.
  - unfold db_keyed in *. simpl. rewrite fmap_app. apply NoDup_app.
    split_and!; [done| |apply NoDup_singleton].
    intros i (m & -> & Hm)%list_elem_of_fmap Heq%list_elem_of_singleton.
    specialize (Hwf m Hm). simpl in Heq. lia.
Qed.

Lemma delete_where_sound (P : message → Prop) `{∀ m, Decision (P m)}
    (d : database) :
  db_sound d → db_sound (delete_where P d).
Proof.
  intros [[Hser Hwf] Hk]. split; [split|]; simpl.
  - done.
  - intros m [_ Hm]%list_elem_of_filter. auto.
  - unfold db_keyed in *. simpl.
    apply (sublist_NoDup _ (id <$> messages d)); [done|].
    apply fmap_sublist, sublist_filter.
Qed.

Lemma outside_step_sound (o : outside) (d : database) :
  db_sound d → db_sound (outside_step o d).
Proof.
  destruct o; simpl.
  - apply insert_row_sound.
  - apply delete_where_sound.
  - done.
  - done.
  - done.
Qed.

Lemma skip_id_sound (d : database) : db_sound d → db_sound (skip_id d).
Proof.
  intros [[Hser Hwf] Hk]. split; [split|]; simpl; [lia| |done].
  intros m Hm. specialize (Hwf m Hm). lia.
Qed.

Lemma chat_session_step_db (u p n : string) (w : world) :
  db (chat_session_step u p n w) = db w ∨
  db (chat_session_step u p n w) = skip_id (db w) ∨
  (∃ f t x, db (chat_session_step u p n w) = insert_row (db w) f t x) ∨
  db (chat_session_step u p n w) = delete_where (in_conversation u p) (db w).
Proof.
  unfold chat_session_step.
  destruct (fg w) as [lines|[|r rest]| | |mid c t| |e]; auto.
  - destruct (input (stdin w)) as [k rest].
    destruct (on_line_db u p
                (World (db w) rest (scr w) (stop_event w) (thread w)
                       (AtInput lines) (submitted w))
                (match k with Typed l => l | Fails _ => "=" end) lines)
      as [-> | [-> | (f & t & x & ->)]]; eauto 7.
  - destruct (input (stdin w)) as [[l|e] rest]; auto.
    case_bool_decide; auto.
    unfold clear_chat_between. destruct (link_state (db w)); auto.
Qed.

Lemma step_sound (u p n : string) (a : actor) (w : world) :
  db_sound (db w) → db_sound (db (step u p n a w)).
Proof.
  intros Hs. destruct a; simpl.
  - destruct (chat_session_step_db u p n w)
      as [-> | [-> | [(f & t & x & ->) | ->]]];
      auto using insert_row_sound, delete_where_sound, skip_id_sound.
  - by destruct (poller_step_frame u p n w) as (-> & _).
  - by apply outside_step_sound.
Qed.

(** X3. The ids of the table stay a key under the sequence: a sound
    table is sound after every insert and every delete of this program,
    and in every state of a chat session, whatever its two threads and
    the other clients do. *)
Theorem store_stays_sound
    (u p n : string) (d : database) (keys : list key_event)
    (sched : list actor) (a b text : string) :
  db_sound d →
  db_sound (insert_message_returning_id d a b text).1 ∧
  db_sound (clear_chat_between d a b).1 ∧
  db_sound (clear_inbox_server d a).1 ∧
  db_sound (db (exec u p n sched (chat_session_open u p n d keys))).
Proof.
  intros Hs. split_and!.
  - destruct (insert_answer d a b text)
      as [(f & t & _ & ->)|[[err ->]|[err ->]]]; cbn [fst];
      auto using insert_row_sound, skip_id_sound.
  - unfold clear_chat_between.
    destruct (link_state d); simpl; auto using delete_where_sound.
  - unfold clear_inbox_server.
    destruct (link_state d); simpl; auto using delete_where_sound.
  - induction sched as [|x sched IH] using rev_ind.
    + by rewrite open_session_spec.
    + rewrite run_snoc. by apply step_sound.
Qed.




(** ** Deleting *)

Lemma same_pair_conversation (x y u p : string) (m : message) :
  in_conversation x y m → in_conversation u p m → same_pair x y u p.
Proof. unfold in_conversation, same_pair. naive_solver. Qed.

(** X5. [clear_chat_between] on a reachable store empties the history of
    the conversation for both participants and changes the history and
    the incremental fetch of no other conversation; on a store that is
    not reachable it reports failure and deletes nothing. *)
Theorem clear_chat_between_only_that_conversation
    (d : database) (u p : string) :
  let cleared := clear_chat_between d u p in
  (link_state d = Up →
   cleared.2 = (true, None) ∧
   get_chat_history_all cleared.1 u p = [] ∧
   get_chat_history_all cleared.1 p u = [] ∧
   ∀ x y since, ¬ same_pair x y u p →
     get_chat_history_all cleared.1 x y = get_chat_history_all d x y ∧
     get_chat_history_since cleared.1 x y since
       = get_chat_history_since d x y since) ∧
  (link_state d ≠ Up → cleared.1 = d ∧ cleared.2.1 = false).
Proof.
  intros cleared. subst cleared. unfold clear_chat_between. split.
  - intros Hup. rewrite Hup. cbn [fst snd].
    assert (Hnone : get_chat_history_all
                      (delete_where (in_conversation u p) d) u p = []).
    { unfold get_chat_history_all. simpl. rewrite Hup.
      rewrite list_filter_filter, filter_none; [done|]. naive_solver. }
    split_and!; [done|done| |].
    + by rewrite <- history_all_sym.
    + intros x y since Hpair.
      unfold get_chat_history_all, get_chat_history_since. simpl. rewrite Hup.
      rewrite !list_filter_filter.
      split; do 2 f_equal; apply list_filter_iff; intros m;
        split; try tauto; intros Hm; (split; [done|]);
        intros Hc; apply Hpair; eapply same_pair_conversation; try done;
        tauto.
  - intros Hdown. by destruct (link_state d).
Qed.

(** X6. [clear_inbox_server] on a reachable store deletes the messages
    addressed to the user and no other: what is left of the history with
    a partner is what the user sent, in the same order, and this is also
    what the partner gets. *)
Theorem clear_inbox_server_deletes_received
    (d : database) (u p : string) :
  link_state d = Up → db_keyed d → p ≠ u →
  let cleared := clear_inbox_server d u in
  cleared.2 = (true, None) ∧
  (∀ m, m ∈ messages cleared.1 ↔ m ∈ messages d ∧ to_user_id m ≠ u) ∧
  get_chat_history_all cleared.1 u p
    = filter (λ r, frm r = u) (get_chat_history_all d u p) ∧
  get_chat_history_all cleared.1 p u
    = filter (λ r, frm r = u) (get_chat_history_all d u p) ∧
  get_chat_history_all cleared.1 u u = [].
Proof.
  intros Hup Hk Hpu cleared. subst cleared. unfold clear_inbox_server.
  rewrite Hup. cbn [fst snd].
  assert (Hhist : get_chat_history_all
                    (delete_where (λ m, to_user_id m = u) d) u p
                  = filter (λ r, frm r = u) (get_chat_history_all d u p)).
  { unfold get_chat_history_all. simpl. rewrite Hup.
    rewrite list_filter_filter.
    apply (ordered_selection d _ (in_conversation u p) (λ r, frm r = u));
      [done|].
    intros m. unfold in_conversation. simpl. naive_solver. }
  split_and!.
  - done.
  - intros m. simpl. rewrite list_elem_of_filter. tauto.
  - done.
  - by rewrite <- history_all_sym.
  - unfold get_chat_history_all. simpl. rewrite Hup.
    rewrite list_filter_filter, filter_none; [done|].
    unfold in_conversation. naive_solver.
Qed.

(** ** What [strip] leaves *)

Lemma rstrip_idemp (s : string) : Py.rstrip (Py.rstrip s) = Py.rstrip s.
Proof.
  induction s as [|c s IH]; [done|]. simpl.
  destruct (Py.rstrip s) as [|c' t] eqn:E.
  - destruct (Py.isspace c) eqn:Ec; simpl; [done|]. by rewrite Ec.
  - simpl in *. by rewrite IH.
Qed.

Lemma rstrip_head (c : ascii) (s : string) :
  Py.isspace c = false → ∃ t, Py.rstrip (String c s) = String c t.
Proof.
  intros Hc. simpl. destruct (Py.rstrip s); rewrite ?Hc; eauto.
Qed.

Lemma lstrip_head (s : string) :
  Py.lstrip s = "" ∨ ∃ c t, Py.lstrip s = String c t ∧ Py.isspace c = false.
Proof.
  induction s as [|c s IH]; [by left|]. simpl.
  destruct (Py.isspace c) eqn:Ec; [done|]. right. eauto.
Qed.

Lemma strip_idemp (s : string) : Py.strip (Py.strip s) = Py.strip s.
Proof.
  unfold Py.strip.
  destruct (lstrip_head s) as [->|(c & t & -> & Hc)]; [done|].
  destruct (rstrip_head c t Hc) as [t' Ht']. rewrite Ht'.
  cbn [Py.lstrip]. rewrite Hc, <- Ht'. apply rstrip_idemp.
Qed.

Lemma rstrip_empty (s : string) : Py.rstrip s = "" → Py.blank s = true.
Proof.
  induction s as [|c s IH]; [done|]. simpl.
  destruct (Py.rstrip s); [|done].
  destruct (Py.isspace c); [|done]. intros _. by rewrite IH.
Qed.

Lemma lstrip_blank_iff (s : string) :
  Py.blank (Py.lstrip s) = Py.blank s.
Proof.
  induction s as [|c s IH]; [done|]. simpl.
  destruct (Py.isspace c) eqn:Ec; [done|]. simpl. by rewrite Ec.
Qed.

Lemma strip_empty_iff (s : string) : Py.strip s = "" ↔ Py.blank s = true.
Proof.
  split; [|apply strip_blank]. unfold Py.strip.
  intros H%rstrip_empty. by rewrite lstrip_blank_iff in H.
Qed.

(** ** What the session hands to the store *)

Lemma submit_submitted (u p : string) (w : world) (lines : list string) :
  submitted (submit u p w lines) = submitted w ∨
  ∃ text, text ≠ "" ∧
          submitted (submit u p w lines) = submitted w ++ [Py.strip text] ∧
          Py.strip text ≠ "" ∧
          (fg (submit u p w lines) = AtInput [] ∨
           ∃ mid c, fg (submit u p w lines) = AfterInsert mid c (Py.strip text)).
Proof.
  unfold submit. destruct lines as [|l ls]; [by left|].
  case_bool_decide as Hb; [by left|]. right.
  exists (Py.join Py.newline (l :: ls)).
  destruct (insert_message_returning_id _ _ _ _) as [d [mid c|err]];
    cbn [submitted fg]; split_and!; try done.
  - by intros He; rewrite He in Hb.
  - case_bool_decide; eauto.
  - by intros He; rewrite He in Hb.
  - auto.
Qed.

Lemma chat_session_step_submitted (u p n : string) (w : world) :
  submitted (chat_session_step u p n w) = submitted w ∨
  ∃ text, submitted (chat_session_step u p n w)
            = submitted w ++ [Py.strip text] ∧
          Py.strip text ≠ "".
Proof.
  unfold chat_session_step.
  destruct (fg w) as [lines|[|r rest]| | |mid c t| |e]; auto.
  - destruct (input (stdin w)) as [k rest]. unfold on_line.
    destruct (dispatch _ lines); auto.
    destruct (submit_submitted u p
                (World (db w) rest (scr w) (stop_event w) (thread w)
                       (AtInput lines) (submitted w)) (removelast lines))
      as [->|(text & _ & -> & Hne & _)]; eauto.
  - destruct (input (stdin w)) as [[l|e] rest]; auto.
    case_bool_decide; auto.
    destruct (clear_chat_between _ _ _) as [d [ok err]]. auto.
Qed.

(** X7. Every text a session hands to [insert_message_returning_id] is
    non-empty and has no whitespace at either end, whatever was typed and
    whatever the schedule. *)
Theorem submitted_texts_are_trimmed
    (u p n : string) (d : database) (keys : list key_event)
    (sched : list actor) (text : string) :
  text ∈ submitted (exec u p n sched (chat_session_open u p n d keys)) →
  text ≠ "" ∧ Py.strip text = text ∧ Py.blank text = false.
Proof.
  assert (Hgoal : text ∈ submitted (exec u p n sched (chat_session_open u p n d keys)) →
                  text ≠ "" ∧ Py.strip text = text).
  { induction sched as [|a sched IH] using rev_ind.
    - rewrite open_session_spec. by intros ?%elem_of_nil.
    - rewrite run_snoc. destruct a; cbn [step].
      + destruct (chat_session_step_submitted u p n
                    (exec u p n sched (chat_session_open u p n d keys)))
          as [->|(t & -> & Hne)]; [done|].
        intros [?| ->%list_elem_of_singleton]%elem_of_app; [auto|].
        split; [done|apply strip_idemp].
      + by destruct (poller_step_frame u p n
                       (exec u p n sched (chat_session_open u p n d keys)))
          as (_ & _ & _ & _ & ->).
      + done. }
  intros Hin. destruct (Hgoal Hin) as [Hne Hs]. split_and!; try done.
  destruct (Py.blank text) eqn:Hb; [|done].
  apply strip_empty_iff in Hb. congruence.
Qed.

Lemma submit_writes (u p : string) (w : world) (lines : list string) :
  let w' := submit u p w lines in
  submitted w `prefix_of` submitted w' ∧
  (messages (db w') = messages (db w) ∨
   ∃ sender receiver text,
     varchar 8 u = Some sender ∧ varchar 8 p = Some receiver ∧
     db w' = insert_row (db w) sender receiver text ∧ text ∈ submitted w').
Proof.
  unfold submit. destruct lines as [|l ls]; [by split; [|left]|].
  case_bool_decide; [by split; [|left]|].
  destruct (insert_answer (db w) u p (Py.strip (Py.join Py.newline (l :: ls))))
    as [(f & t & Hok & ->)|[[err ->]|[err ->]]]; cbn [submitted db];
    (split; [by apply prefix_app_r|]); auto.
  right. exists f, t. eexists. destruct Hok as (_ & _ & _ & _ & ? & ? & _).
  split_and!; [done..|]. apply elem_of_app. right. by left.
Qed.

Lemma chat_session_step_writes (u p n : string) (w : world) :
  let w' := chat_session_step u p n w in
  submitted w `prefix_of` submitted w' ∧
  (messages (db w') = messages (db w) ∨
   (∃ sender receiver text,
      varchar 8 u = Some sender ∧ varchar 8 p = Some receiver ∧
      db w' = insert_row (db w) sender receiver text ∧ text ∈ submitted w') ∨
   db w' = delete_where (in_conversation u p) (db w)).
Proof.
  unfold chat_session_step.
  destruct (fg w) as [lines|[|r rest]| | |mid c t| |e];
    try (by split; [|left]).
  - destruct (input (stdin w)) as [k rest]. unfold on_line.
    destruct (dispatch _ lines); try (by split; [|left]).
    destruct (submit_writes u p
                (World (db w) rest (scr w) (stop_event w) (thread w)
                       (AtInput lines) (submitted w)) (removelast lines))
      as [Hpre [Hsame|Hins]]; auto.
  - destruct (input (stdin w)) as [[l|e] rest]; try (by split; [|left]).
    case_bool_decide; try (by split; [|left]).
    unfold clear_chat_between.
    destruct (link_state (db w)); (split; [done|]); auto.
Qed.

(** X8. Without the other clients, a session changes the table only in
    its own conversation: every row of another conversation stays, and
    every row that was not there at the start carries what the column
    [VARCHAR(8)] stores of the id of the user as its sender and of the
    id of the partner as its receiver, with a text the session
    submitted; so, when the two ids fit the column, it goes from the user
    to the partner. *)
Theorem session_touches_only_its_conversation
    (u p n : string) (d : database) (keys : list key_event)
    (sched : list actor) :
  Forall (λ a, is_outside a = false) sched →
  let w := exec u p n sched (chat_session_open u p n d keys) in
  (∀ m, m ∈ messages d → ¬ in_conversation u p m → m ∈ messages (db w)) ∧
  (∀ m, m ∈ messages (db w) →
        m ∈ messages d ∨
        (varchar 8 u = Some (from_user_id m) ∧
         varchar 8 p = Some (to_user_id m) ∧ body m ∈ submitted w)) ∧
  ((String.length u ≤ 8)%nat → (String.length p ≤ 8)%nat →
   ∀ m, m ∈ messages (db w) →
        m ∈ messages d ∨
        (from_user_id m = u ∧ to_user_id m = p ∧ body m ∈ submitted w)).
Proof.
  intros Hq w. subst w.
  assert (Hgoal :
    (∀ m, m ∈ messages d → ¬ in_conversation u p m →
          m ∈ messages (db (exec u p n sched (chat_session_open u p n d keys)))) ∧
    (∀ m, m ∈ messages (db (exec u p n sched (chat_session_open u p n d keys))) →
          m ∈ messages d ∨
          (varchar 8 u = Some (from_user_id m) ∧
           varchar 8 p = Some (to_user_id m) ∧
           body m ∈ submitted (exec u p n sched
                                 (chat_session_open u p n d keys))))).
  { induction sched as [|a sched IH] using rev_ind.
    - rewrite open_session_spec. simpl. auto.
    - apply Forall_app in Hq as [Hq Ha]. apply Forall_cons in Ha as [Ha _].
      destruct (IH Hq) as [IH1 IH2]. clear IH.
      rewrite run_snoc.
      set (w := exec u p n sched (chat_session_open u p n d keys)) in *.
      destruct a; [| |done]; cbn [step].
      + destruct (chat_session_step_writes u p n w) as [Hpre Hdb].
        assert (Hsub : ∀ t, t ∈ submitted w →
                            t ∈ submitted (chat_session_step u p n w)).
        { intros t Ht. destruct Hpre as [k ->]. apply elem_of_app. auto. }
        destruct Hdb as [Hsame|[(f & r & text & Hf & Hr & -> & Ht)| ->]];
          split.
        * rewrite Hsame. done.
        * rewrite Hsame. intros m Hm.
          destruct (IH2 m Hm) as [?|(?&?&?)]; auto.
        * intros m Hm Hc. simpl. apply elem_of_app. auto.
        * intros m [Hm| ->%list_elem_of_singleton]%elem_of_app.
          -- destruct (IH2 m Hm) as [?|(?&?&?)]; auto.
          -- right. done.
        * intros m Hm Hc. simpl. apply list_elem_of_filter. auto.
        * intros m [_ Hm]%list_elem_of_filter.
          destruct (IH2 m Hm) as [?|(?&?&?)]; auto.
      + destruct (poller_step_frame u p n w) as (-> & _ & _ & _ & ->). done. }
  destruct Hgoal as [Hkept Hnew]. split_and!; [done|done|].
  intros Hlu Hlp m Hm. destruct (Hnew m Hm) as [?|(Hf & Ht & Hb)]; [auto|].
  rewrite varchar_fits in Hf, Ht by done.
  injection Hf as Hf. injection Ht as Ht. auto.
Qed.

(** An id that is longer than its column and ends in spaces is cut on
    its way into the table: the row of a user [10000001] followed by a
    space goes out under the 8 digits. *)
Example sender_is_cut_to_the_column :
  messages
    (db (exec "10000001 " bob "Bob" [Foreground; Foreground; Foreground]
           (chat_session_open "10000001 " bob "Bob" fresh_server
              [Typed "hi"; Typed ""; Typed ""])))
    = [Message 1 alice bob "hi" 1700000000].
Proof. by vm_compute. Qed.

(** ** The end of a session *)

Lemma submit_not_over (u p : string) (w : world) (lines : list string) :
  ¬ session_over (submit u p w lines).
Proof.
  assert (Hfg : (∃ ls, fg (submit u p w lines) = AtInput ls) ∨
                ∃ mid c t, fg (submit u p w lines) = AfterInsert mid c t).
  { unfold submit. destruct lines as [|l ls]; [left; by eexists|].
    case_bool_decide; [left; by eexists|].
    destruct (insert_message_returning_id _ _ _ _) as [d [mid c|err]];
      cbn [fg]; [case_bool_decide|]; eauto. }
  intros [H|[e H]]; rewrite H in Hfg; naive_solver.
Qed.

Lemma chat_session_step_over (u p n : string) (w : world) :
  session_over (chat_session_step u p n w) →
  session_over w ∨ stop_event (chat_session_step u p n w) = true.
Proof.
  assert (Hno : ∀ w' : world,
            (∃ ls, fg w' = AtInput ls) ∨ (∃ rs, fg w' = InReload rs) ∨
            fg w' = AtConfirm ∨ fg w' = AfterClear ∨
            (∃ mid c t, fg w' = AfterInsert mid c t) →
            session_over w' → False).
  { intros w' Hw' [H|[e H]]; rewrite H in Hw'; naive_solver. }
  unfold chat_session_step.
  destruct (fg w) as [lines|[|r rest]| | |mid c t| |e] eqn:E.
  - destruct (input (stdin w)) as [k rest]. unfold on_line.
    destruct (dispatch _ lines).
    + intros H. exfalso. revert H. apply Hno. cbn [fg goto].
      destruct (get_chat_history_since _ _ _ _); eauto.
    + intros H. exfalso. revert H. apply Hno. cbn [fg goto]. auto.
    + by right.
    + intros H. by apply submit_not_over in H.
    + intros H. exfalso. revert H. apply Hno. cbn [fg goto]. eauto.
  - intros H. exfalso. revert H. apply Hno. cbn [fg goto]. eauto.
  - intros H. exfalso. revert H. apply Hno. cbn [fg].
    destruct rest; eauto.
  - destruct (input (stdin w)) as [[l|e] rest]; [|by right].
    intros H. exfalso. revert H. apply Hno.
    case_bool_decide; cbn [fg]; [|eauto].
    destruct (clear_chat_between _ _ _) as [d [[|] err]]; cbn [fg]; eauto 6.
  - intros H. exfalso. revert H. apply Hno. cbn [fg]. eauto 6.
  - intros H. exfalso. revert H. apply Hno. cbn [fg]. eauto 8.
  - intros _. left. left. by rewrite E.
  - intros _. left. right. exists e. by rewrite E.
Qed.

(** X9. However a session ends, by the quit command or by an exception
    out of the confirmation prompt, the stop event is set, under every
    schedule; the poller then leaves [run] after the pass it is in. *)
Theorem session_over_stops_poller
    (u p n : string) (d : database) (keys : list key_event)
    (sched : list actor) :
  let w := exec u p n sched (chat_session_open u p n d keys) in
  session_over w →
  stop_event w = true ∧
  pc (thread (exec u p n
                (replicate (S (ChatPoller.steps_to_loop_test (thread w)))
                           Polling) w)) = Finished.
Proof.
  intros w Hover.
  assert (Hstop : stop_event w = true).
  { subst w. induction sched as [|a sched IH] using rev_ind.
    - rewrite open_session_spec in Hover. unfold session_over in Hover.
      simpl in Hover. naive_solver.
    - rewrite run_snoc in *. destruct a; cbn [step] in *.
      + apply chat_session_step_over in Hover as [Hover|?]; [|done].
        by apply fg_step_stop_event, IH.
      + destruct (poller_step_frame u p n
                    (exec u p n sched (chat_session_open u p n d keys)))
          as (_ & _ & Hs & Hf & _).
        rewrite Hs. apply IH. unfold session_over in *. by rewrite <- Hf.
      + by apply IH. }
  split; [done|]. by apply poller_stops_when_told.
Qed.

(** ** A batch of rows through [on_new] *)

Lemma filter_ext_in {A} (P Q : A → Prop)
    `{!∀ x, Decision (P x), !∀ x, Decision (Q x)} (l : list A) :
  (∀ x, x ∈ l → (P x ↔ Q x)) → filter P l = filter Q l.
Proof.
  induction l as [|x l IH]; [done|]. intros Hall.
  rewrite !filter_cons, IH by (intros y Hy; apply Hall; by right).
  destruct (Hall x ltac:(by left)). repeat case_decide; tauto.
Qed.

Lemma filter_all {A} (P : A → Prop) `{!∀ x, Decision (P x)} (l : list A) :
  (∀ x, x ∈ l → P x) → filter P l = l.
Proof.
  induction l as [|x l IH]; [done|]. intros Hall.
  rewrite filter_cons_True by (apply Hall; by left).
  f_equal. apply IH. intros y Hy. apply Hall. by right.
Qed.

Lemma since_keyed (d : database) (u p : string) (since : Z) :
  db_keyed d → NoDup (rid <$> get_chat_history_since d u p since).
Proof.
  intros Hk. unfold get_chat_history_since.
  destruct (link_state d); try constructor.
  unfold order_by_id. rewrite merge_sort_Permutation.
  by apply selected_rows_keyed.
Qed.

(** The rows of a batch that are not displayed yet are rendered in the
    order of the batch, and all its ids are displayed afterwards. *)
Lemma on_new_batch (u n : string) (rows : list chat_row) (sc : screen) :
  NoDup (rid <$> rows) →
  fold_left (λ s r, screen_of (on_new u n r s)) rows sc =
    Screen (list_to_set (rid <$> rows) ∪ displayed_ids sc)
           (transcript sc ++
              (render u n <$> filter (λ r, rid r ∉ displayed_ids sc) rows)).
Proof.
  revert sc. induction rows as [|r rows IH]; intros sc Hnd.
  - simpl. rewrite app_nil_r. destruct sc. f_equal. set_solver.
  - rewrite fmap_cons in Hnd. apply NoDup_cons in Hnd as [Hr Hnd].
    cbn [fold_left]. rewrite IH by done. unfold on_new.
    case_bool_decide as Hseen; cbn [screen_of displayed_ids transcript].
    + rewrite filter_cons_False by tauto. f_equal. set_solver.
    + f_equal; [set_solver|].
      rewrite filter_cons_True by done. rewrite fmap_cons, <- app_assoc.
      cbn [app]. do 3 f_equal.
      apply filter_ext_in. intros r' Hr'.
      assert (rid r' ≠ rid r).
      { intros Heq. apply Hr. rewrite <- Heq. by apply list_elem_of_fmap_2. }
      set_solver.
Qed.

Lemma reload_loop (u p n : string) (rows : list chat_row) (w : world) :
  rows ≠ [] → fg w = InReload rows →
  exec u p n (replicate (length rows) Foreground) w =
    World (db w) (stdin w)
          (fold_left (λ s r, screen_of (on_new u n r s)) rows (scr w))
          (stop_event w) (thread w) (AtInput []) (submitted w).
Proof.
  revert w. induction rows as [|r rows IH]; intros w Hne Hfg; [done|].
  cbn [length replicate]. rewrite exec_cons. cbn [step].
  rewrite (fg_step_in_reload u p n _ _ _ Hfg).
  destruct rows as [|r' rows']; [done|].
  rewrite IH by done. done.
Qed.

(** X10. A manual reload, run to its end, appends to the console the
    fetched rows that are not displayed yet, in ascending order of id,
    and no other; it erases nothing, marks every fetched id as displayed
    and leaves the watermark of the poller where it was. *)
Theorem reload_appends_unseen
    (u p n : string) (w : world) (l : string) (rest : list key_event) :
  fg w = AtInput [] → stdin w = Typed l :: rest →
  Py.lower (Py.strip l) = "r" → db_keyed (db w) →
  let rows := get_chat_history_since (db w) u p (last_id (thread w)) in
  exec u p n (replicate (S (length rows)) Foreground) w =
    World (db w) rest
          (Screen (list_to_set (rid <$> rows) ∪ displayed_ids (scr w))
                  (transcript (scr w) ++
                     (render u n <$>
                        filter (λ r, rid r ∉ displayed_ids (scr w)) rows)))
          (stop_event w) (thread w) (AtInput []) (submitted w).
Proof.
  intros Hfg Hin Hl Hk rows.
  assert (Hd : dispatch l [] = Reload).
  { rewrite dispatch_empty. by rewrite bool_decide_eq_true_2. }
  cbn [replicate]. rewrite exec_cons. cbn [step].
  rewrite (fg_step_typed u p n _ _ _ _ Hfg Hin), (on_line_reload u p _ _ _ Hd).
  cbn [db thread]. fold rows.
  rewrite <- (on_new_batch u n rows (scr w)) by (by apply since_keyed).
  destruct rows as [|r rs] eqn:E; [done|].
  rewrite <- E. rewrite reload_loop; [done|by rewrite E|done].
Qed.

(** Steps of the poller alone are steps of [run] on a table that stays. *)
Lemma polling_run (u p n : string) (k : nat) (w : world) :
  exec u p n (replicate k Polling) w =
    let after :=
      ChatPoller.run_steps (on_new u n) k (stop_event w)
        (get_chat_history_since (db w) u p) (thread w) (scr w) in
    World (db w) (stdin w) after.2 (stop_event w) after.1 (fg w) (submitted w).
Proof.
  revert w. induction k as [|k IH]; intros w; [by destruct w|].
  cbn [replicate ChatPoller.run_steps]. rewrite exec_cons. cbn [step].
  rewrite IH. unfold poller_step.
  destruct (ChatPoller.run_step _ _ _ _ _) as [p' sc']. done.
Qed.

(** X11. A pass of the poller, run to its end, renders the fetched rows
    that are not displayed yet, in ascending order of id, marks every
    fetched id as displayed, and ends at the loop test with the
    watermark on the largest id it met. *)
Theorem poll_pass_appends_unseen (u p n : string) (w : world) :
  pc (thread w) = AtLoopTest → stop_event w = false → db_keyed (db w) →
  let last := last_id (thread w) in
  let rows := get_chat_history_since (db w) u p last in
  exec u p n (replicate (2 + length rows) Polling) w =
    World (db w) (stdin w)
          (Screen (list_to_set (rid <$> rows) ∪ displayed_ids (scr w))
                  (transcript (scr w) ++
                     (render u n <$>
                        filter (λ r, rid r ∉ displayed_ids (scr w)) rows)))
          false
          (Poller (watermark_after last rows) AtLoopTest
                  (trace (thread w) ++ code_iteration last rows))
          (fg w) (submitted w).
Proof.
  intros Hpc Hstop Hk last rows. subst rows last.
  rewrite polling_run, Hstop.
  rewrite (run_iteration (on_new u n) (λ r s, screen_of (on_new u n r s))
             (on_new_returns u n) _ _ _ Hpc).
  cbn [fst snd].
  by rewrite on_new_batch by (by apply since_keyed).
Qed.

(** X12. When the history cannot be fetched at the opening of a session,
    the session starts with an empty console and the watermark at 0, and
    the first pass of the poller that reaches the store renders the whole
    conversation above id 0, in ascending order. *)
Theorem failed_open_is_recovered_by_poller
    (u p n : string) (d : database) (keys : list key_event) :
  link_state d ≠ Up → db_keyed d →
  let w0 := chat_session_open u p n d keys in
  let w1 := step u p n (Outside (ExtLink Up)) w0 in
  let rows := filter (λ r, 0 < rid r) (get_chat_history_all (db w1) u p) in
  scr w0 = Screen ∅ [] ∧ last_id (thread w0) = 0 ∧
  transcript (scr (exec u p n (replicate (2 + length rows) Polling) w1))
    = render u n <$> rows.
Proof.
  intros Hdown Hk w0 w1 rows.
  assert (Hw0 : w0 = World d keys (Screen ∅ []) false (Poller 0 AtLoopTest [])
                       (AtInput []) []).
  { subst w0. rewrite open_session_spec. unfold get_chat_history_all.
    by destruct (link_state d). }
  assert (Hk1 : db_keyed (db w1)) by (subst w1; by rewrite Hw0).
  assert (Hrows : rows = get_chat_history_since (db w1) u p 0).
  { subst rows. by rewrite since_filter_history. }
  split_and!; [by rewrite Hw0..|].
  rewrite Hrows. clear Hrows rows.
  assert (Hw1 : w1 = World (Database (users d) (messages d) (serial d) (now d) Up) keys
                       (Screen ∅ []) false (Poller 0 AtLoopTest [])
                       (AtInput []) []).
  { subst w1. by rewrite Hw0. }
  rewrite Hw1 in *.
  rewrite polling_run. cbn [stop_event db thread scr].
  pose proof (run_iteration (on_new u n) (λ r s, screen_of (on_new u n r s))
                (on_new_returns u n)
                (get_chat_history_since
                   (Database (users d) (messages d) (serial d) (now d) Up) u p)
                (Poller 0 AtLoopTest []) (Screen ∅ []) eq_refl) as Hpass.
  cbn [last_id] in Hpass. rewrite Hpass. cbn [snd fst scr].
  rewrite on_new_batch by (by apply since_keyed).
  cbn [transcript displayed_ids app]. f_equal.
  apply filter_all. set_solver.
Qed.

(** ** Each id once *)

Lemma on_new_once (u n : string) (r : chat_row) (sc : screen) :
  NoDup (s_id <$> transcript sc) →
  (∀ i, i ∈ s_id <$> transcript sc → i ∈ displayed_ids sc) →
  NoDup (s_id <$> transcript (screen_of (on_new u n r sc))) ∧
  (∀ i, i ∈ s_id <$> transcript (screen_of (on_new u n r sc)) →
        i ∈ displayed_ids (screen_of (on_new u n r sc))).
Proof.
  intros Hnd Hin. unfold on_new.
  case_bool_decide as Hseen; cbn [screen_of displayed_ids transcript];
    [done|].
  rewrite fmap_app. split.
  - apply NoDup_app. split_and!; [done| |apply NoDup_singleton].
    intros i Hi ->%list_elem_of_singleton. auto.
  - intros i [Hi| ->%list_elem_of_singleton]%elem_of_app; set_solver.
Qed.

Lemma looking_on_step (u p n : string) (a : actor) (w : world) :
  looking_on w → looking_on (step u p n a w).
Proof.
  intros (Hnd & Hin & Hkeys & Hfg). unfold looking_on, shown_ids in *.
  destruct a as [| |o]; cbn [step].
  - destruct Hfg as [Hfg|[Hfg|(rows & Hfg)]].
    + (* a line is read *)
      assert (Hline : ∃ line rest,
                chat_session_step u p n w
                  = on_line u p (World (db w) rest (scr w) (stop_event w)
                                       (thread w) (AtInput []) (submitted w))
                            line [] ∧
                (dispatch line [] = Reload ∨ dispatch line [] = Quit) ∧
                Forall passive_key rest).
      { destruct (stdin w) as [|[l|e] rest] eqn:Hin'.
        - exists "=", []. rewrite (fg_step_closed u p n _ _ Hfg Hin'). auto.
        - apply Forall_cons in Hkeys as [Hk Hrest]. exists l, rest.
          rewrite (fg_step_typed u p n _ _ _ _ Hfg Hin'). auto.
        - apply Forall_cons in Hkeys as [_ Hrest]. exists "=", rest.
          rewrite (fg_step_fails u p n _ _ _ _ Hfg Hin'). auto. }
      destruct Hline as (line & rest & -> & [Hd|Hd] & Hrest).
      * rewrite (on_line_reload u p _ _ _ Hd).
        cbn [scr stdin fg db thread]. split_and!; try done.
        destruct (get_chat_history_since _ _ _ _); eauto.
      * rewrite (on_line_quit u p _ _ _ Hd).
        cbn [scr stdin fg]. split_and!; auto.
    + rewrite (fg_step_left u p n _ Hfg). auto 6.
    + destruct rows as [|r rs].
      * unfold chat_session_step. rewrite Hfg. cbn [goto scr stdin fg]. auto.
      * rewrite (fg_step_in_reload u p n _ _ _ Hfg). cbn [scr stdin fg].
        destruct (on_new_once u n r (scr w) Hnd Hin) as [Hnd' Hin'].
        split_and!; try done. destruct rs; eauto.
  - destruct (poller_step_frame u p n w) as (_ & -> & _ & -> & _).
    rewrite poller_step_scr.
    destruct (pc (thread w)) as [|[|r rest]| |]; try done.
    destruct (on_new_once u n r (scr w) Hnd Hin) as [Hnd' Hin'].
    split_and!; done.
  - done.
Qed.

Lemma looking_on_run (u p n : string) (d : database) (keys : list key_event)
    (sched : list actor) :
  db_keyed d → Forall passive_key keys →
  looking_on (exec u p n sched (chat_session_open u p n d keys)).
Proof.
  intros Hk Hkeys.
  induction sched as [|a sched IH] using rev_ind.
  - pose proof (open_session_spec u p n d keys) as Hopen.
    cbv zeta in Hopen. rewrite Hopen. unfold looking_on, shown_ids, exec.
    cbn [fold_left scr stdin fg transcript displayed_ids].
    rewrite <- !list_fmap_compose.
    change (s_id ∘ render u n) with rid.
    split_and!; [by apply history_keyed| |done|auto].
    intros i Hi. by apply elem_of_list_to_set.
  - rewrite run_snoc. by apply looking_on_step.
Qed.

(** X13. Where one thread alone calls [on_new], no message id is
    rendered twice in a session opened on a keyed table, whatever the
    other clients do: when the user does nothing but leave, so that the
    poller alone renders, under every schedule; and when the user only
    reloads or leaves, under every schedule in which the poller takes no
    step. *)
Theorem passive_session_renders_each_id_once
    (u p n : string) (d : database) (keys : list key_event)
    (sched : list actor) :
  db_keyed d →
  Forall leaving_key keys ∨
  (Forall passive_key keys ∧ Forall (λ a, a ≠ Polling) sched) →
  NoDup (shown_ids (exec u p n sched (chat_session_open u p n d keys))).
Proof.
  intros Hk Hone.
  assert (Hkeys : Forall passive_key keys).
  { destruct Hone as [Hleave|[Hpassive _]]; [|done].
    eapply Forall_impl; [exact Hleave|].
    intros [l|e]; cbn [leaving_key passive_key]; auto. }
  by destruct (looking_on_run u p n d keys sched Hk Hkeys) as (Hnd & _).
Qed.

(** ** What the poller delivers *)

Lemma delivered_app (tr1 tr2 : list poller_event) :
  delivered (tr1 ++ tr2) = delivered tr1 ++ delivered tr2.
Proof.
  induction tr1 as [|[] tr1 IH]; simpl; by rewrite ?IH.
Qed.

Lemma since_strictly_sorted (d : database) (u p : string) (since : Z) :
  db_keyed d →
  StronglySorted Z.lt (rid <$> get_chat_history_since d u p since).
Proof.
  intros Hk. rewrite since_filter_history by done.
  rewrite <- (filter_fmap_comm rid (λ i, since < i)).
  by apply strongly_sorted_filter, history_strictly_sorted.
Qed.

Lemma poller_ahead_step (u p n : string) (last0 : Z) (a : actor) (w : world) :
  poller_ahead last0 w → poller_ahead last0 (step u p n a w).
Proof.
  intros (Hs & Hl0 & Hsorted & Hbound & Hrows).
  destruct a as [| |o]; cbn [step].
  - unfold poller_ahead. rewrite fg_step_thread.
    split_and!; try done. by apply (step_sound u p n Foreground).
  - unfold poller_ahead.
    destruct (poller_step_frame u p n w) as (-> & _).
    rewrite poller_step_thread. unfold ChatPoller.run_step.
    destruct (pc (thread w)) as [|[|r rest]| |] eqn:Hpc.
    + destruct (stop_event w); cbn [fst last_id pc trace].
      * split_and!; try done.
      * rewrite delivered_app, app_nil_r. split_and!; try done.
        intros rows Hrows'.
        assert (rows = get_chat_history_since (db w) u p (last_id (thread w)))
          as ->.
        { destruct (get_chat_history_since _ _ _ _); [done|].
          by injection Hrows'. }
        split; [apply since_strictly_sorted, Hs|].
        intros r (_ & m & -> & _ & _ & Hlt)%get_chat_history_since_elem.
        done.
    + cbn [fst last_id pc trace]. split_and!; try done.
    + rewrite on_new_returns. cbn [fst last_id pc trace].
      destruct (Hrows _ eq_refl) as [Hrs Hgt].
      rewrite fmap_cons in Hrs. apply StronglySorted_cons in Hrs as [Hr Hrs].
      rewrite Forall_forall in Hr.
      assert (Hlast : last_id (thread w) < rid r) by (apply Hgt; by left).
      rewrite advance_max, delivered_app. cbn [delivered].
      replace (Z.max (last_id (thread w)) (rid r)) with (rid r) by lia.
      split_and!; [done|lia| | |].
      * apply StronglySorted_app_2; [|done|repeat constructor].
        intros i j Hi ->%list_elem_of_singleton.
        destruct (Hbound i Hi). lia.
      * intros i [Hi| ->%list_elem_of_singleton]%elem_of_app; [|lia].
        destruct (Hbound i Hi). lia.
      * intros rows Hrows'.
        assert (rows = rest) as ->.
        { destruct rest; [done|]. by injection Hrows'. }
        split; [done|]. intros r' Hr'. apply Hr.
        by apply list_elem_of_fmap_2.
    + cbn [fst last_id pc trace]. rewrite delivered_app, app_nil_r.
      split_and!; try done.
    + cbn [fst last_id pc trace]. rewrite Hpc. split_and!; try done.
  - unfold poller_ahead. cbn [db thread].
    split_and!; try done. by apply outside_step_sound.
Qed.

(** X14. On a sound table, the ids of the rows the poller of a session
    hands to the callback go strictly up, so none is handed over twice,
    and all are above the watermark set at the opening, so none is a row
    of the history that was rendered then. *)
Theorem poller_delivers_each_row_once
    (u p n : string) (d : database) (keys : list key_event)
    (sched : list actor) :
  db_sound d →
  let w0 := chat_session_open u p n d keys in
  let w := exec u p n sched w0 in
  StronglySorted Z.lt (delivered (trace (thread w))) ∧
  NoDup (delivered (trace (thread w))) ∧
  (∀ i, i ∈ delivered (trace (thread w)) → last_id (thread w0) < i) ∧
  (∀ r, r ∈ get_chat_history_all d u p →
        rid r ∉ delivered (trace (thread w))).
Proof.
  intros Hs w0 w.
  assert (Hahead : poller_ahead (last_id (thread w0)) w).
  { subst w. induction sched as [|a sched IH] using rev_ind.
    - subst w0. pose proof (open_session_spec u p n d keys) as Hopen.
      cbv zeta in Hopen. rewrite Hopen. unfold poller_ahead, exec.
      cbn [fold_left db thread last_id trace pc delivered].
      split_and!; [done|lia|constructor| |done].
      by intros i ?%elem_of_nil.
    - rewrite run_snoc. by apply poller_ahead_step. }
  destruct Hahead as (_ & _ & Hsorted & Hbound & _).
  assert (Habove : ∀ i, i ∈ delivered (trace (thread w)) →
                        last_id (thread w0) < i).
  { intros i Hi. by destruct (Hbound i Hi). }
  split_and!; [done| |done|].
  - clear Hbound Habove.
    induction Hsorted as [|i l Hl IH Hi]; constructor; [|done].
    rewrite Forall_forall in Hi. intros Hin. specialize (Hi i Hin). lia.
  - intros r Hr Hin. specialize (Habove _ Hin).
    subst w0. pose proof (open_session_spec u p n d keys) as Hopen.
    cbv zeta in Hopen. rewrite Hopen in Habove. cbn [thread last_id] in Habove.
    destruct (fold_max_ge (rid <$> get_chat_history_all d u p) 0) as [_ Hge].
    specialize (Hge (rid r) (list_elem_of_fmap_2 rid _ _ Hr)). lia.
Qed.

(** ** The accounts *)

Lemma head_filter_keyed {A B} `{EqDecision B} (f : A → B) (l : list A) (a : A) :
  NoDup (f <$> l) → a ∈ l → head (filter (λ x, f x = f a) l) = Some a.
Proof.
  induction l as [|x l IH]; [by intros _ ?%elem_of_nil|].
  rewrite fmap_cons, NoDup_cons. intros [Hx Hnd] [->|Ha]%elem_of_cons.
  - by rewrite filter_cons_True.
  - rewrite filter_cons_False; [by apply IH|].
    intros Heq. apply Hx. rewrite Heq. by apply list_elem_of_fmap_2.
Qed.

Lemma insert_user_keyed (us us' : list User.t) (user : User.t) :
  NoDup (User.user_id <$> us) → NoDup (User.username <$> us) →
  insert_user us user = Some us' →
  NoDup (User.user_id <$> us') ∧ NoDup (User.username <$> us').
Proof.
  intros Hid Hname. unfold insert_user.
  destruct (varchar 8 _) as [uid|]; [|done].
  destruct (varchar 100 _) as [name|]; [|done].
  case_bool_decide as Hin; [done|]. intros [= <-].
  rewrite !fmap_app, !NoDup_app. simpl.
  split; (split_and!; [done| |apply NoDup_singleton]);
    intros x Hx ->%list_elem_of_singleton; tauto.
Qed.

Lemma delete_user_after_messages (us : list User.t) (d : database) (uid : string) :
  delete_user us (messages (delete_where (refers_to uid) d)) uid
    = Some (filter (λ a, User.user_id a ≠ uid) us).
Proof.
  unfold delete_user. rewrite bool_decide_eq_false_2; [done|].
  intros [_ Hex]. apply Exists_exists in Hex as (m & Hm & Href).
  cbn [delete_where messages] in Hm.
  apply list_elem_of_filter in Hm as [Hn _]. by apply Hn.
Qed.

(** X15. The keys of the server are kept by registration and by the
    deletion of an account: the two keys of [users], and the two
    references from [messages] to [users]. *)
Theorem server_keys_are_kept (s : server) (has_file : bool) (user : User.t) :
  users_keyed s → references_kept s →
  (users_keyed (register_user_on_server s user).1 ∧
   references_kept (register_user_on_server s user).1) ∧
  (users_keyed (delete_user_account s has_file user).1.1 ∧
   references_kept (delete_user_account s has_file user).1.1).
Proof.
  intros [Hid Hname] Href. split.
  - unfold register_user_on_server.
    destruct (link_state (store s)); try done.
    destruct (head _); [done|].
    destruct (insert_user (users s) user) as [us|] eqn:E; [|done].
    split; [by apply (insert_user_keyed (users s) us user)|].
    intros m Hm. unfold Server, store in *. cbn [fst users messages] in *.
    destruct (Href m Hm) as [Hf Ht].
    unfold insert_user in E.
    destruct (varchar 8 _) as [uid|]; [|done].
    destruct (varchar 100 _) as [name|]; [|done].
    case_bool_decide; [done|]. injection E as <-.
    rewrite fmap_app. split; apply elem_of_app; by left.
  - unfold delete_user_account.
    destruct (link_state (store s)); try done.
    cbv zeta. rewrite delete_user_after_messages. cbn [fst snd].
    unfold Server, store in *.
    split; [split|]; cbn [users delete_where messages].
    + apply (sublist_NoDup _ (User.user_id <$> users s)); [done|].
      apply fmap_sublist, sublist_filter.
    + apply (sublist_NoDup _ (User.username <$> users s)); [done|].
      apply fmap_sublist, sublist_filter.
    + intros m Hm. cbn [delete_where messages] in Hm.
      apply list_elem_of_filter in Hm as [Hn Hm].
      destruct (Href m Hm) as [Hf Ht].
      apply list_elem_of_fmap in Hf as (a & Ha & Hain).
      apply list_elem_of_fmap in Ht as (b & Hb & Hbin).
      split; apply list_elem_of_fmap.
      * exists a. split; [done|]. apply list_elem_of_filter. split; [|done].
        intros Heq. apply Hn. left. congruence.
      * exists b. split; [done|]. apply list_elem_of_filter. split; [|done].
        intros Heq. apply Hn. right. congruence.
Qed.










(** X17. [delete_user_account] on a reachable server succeeds, whatever
    messages refer to the account: it leaves no account with the id, no
    message from or to it and no user file; it keeps the other accounts
    and changes the history of no conversation between other users. On a
    server that is not reachable it changes nothing and reports
    failure. *)
Theorem delete_user_account_removes_everything
    (s : server) (has_file : bool) (user : User.t) :
  let uid := User.user_id user in
  let deleted := delete_user_account s has_file user in
  (link_state (store s) = Up →
   deleted.2 = true ∧ deleted.1.2 = false ∧
   lookup_contact_on_server deleted.1.1 uid = None ∧
   (∀ a, a ∈ users deleted.1.1 ↔ a ∈ users s ∧ User.user_id a ≠ uid) ∧
   (∀ m, m ∈ messages (store deleted.1.1) ↔
         m ∈ messages (store s) ∧ from_user_id m ≠ uid ∧ to_user_id m ≠ uid) ∧
   (∀ y, get_chat_history_all (store deleted.1.1) uid y = []) ∧
   (∀ x y, x ≠ uid → y ≠ uid →
           get_chat_history_all (store deleted.1.1) x y
             = get_chat_history_all (store s) x y)) ∧
  (link_state (store s) ≠ Up → deleted = (s, has_file, false)).
Proof.
  intros uid deleted. subst deleted. unfold delete_user_account. split.
  - intros Hup. rewrite Hup. cbv zeta. rewrite delete_user_after_messages.
    unfold Server, store in *.
    cbn [fst snd users]. split_and!; try done.
    + unfold lookup_contact_on_server, store.
      cbn [users delete_where link_state].
      rewrite Hup, list_filter_filter, filter_none; [done|]. tauto.
    + intros a. rewrite list_elem_of_filter. tauto.
    + intros m. cbn [delete_where messages]. rewrite list_elem_of_filter.
      unfold refers_to. fold uid. tauto.
    + intros y. unfold get_chat_history_all.
      cbn [delete_where messages link_state]. rewrite Hup.
      rewrite list_filter_filter, filter_none; [done|].
      unfold in_conversation, refers_to. fold uid. naive_solver.
    + intros x y Hx Hy. unfold get_chat_history_all.
      cbn [delete_where messages link_state]. rewrite Hup.
      rewrite list_filter_filter. do 2 f_equal. apply list_filter_iff.
      unfold in_conversation, refers_to. fold uid. naive_solver.
  - intros Hdown. by destruct (link_state (store s)).
Qed.

(** ** The inbox *)

Section SortingFacts.
Context {A : Type} (before : A → A → bool).
Hypothesis before_asym : ∀ a b, before a b = true → before b a = false.
Hypothesis before_trans :
  ∀ a b c, before b a = false → before c b = false → before c a = false.

Lemma insert_sorted_perm (x : A) (l : list A) :
  insert_sorted before x l ≡ₚ x :: l.
Proof.
  induction l as [|y l IH]; [done|]. simpl.
  destruct (before y x); [|done].
  rewrite IH. apply Permutation_swap.
Qed.

Lemma sort_by_perm (l : list A) : sort_by before l ≡ₚ l.
Proof.
  induction l as [|x l IH]; [done|].
  unfold sort_by in *. simpl. by rewrite insert_sorted_perm, IH.
Qed.

Lemma insert_sorted_sorted (x : A) (l : list A) :
  StronglySorted (λ a b, before b a = false) l →
  StronglySorted (λ a b, before b a = false) (insert_sorted before x l).
Proof.
  induction l as [|y l IH]; intros Hs; simpl.
  - by repeat constructor.
  - apply StronglySorted_inv in Hs as [Hs Hall].
    destruct (before y x) eqn:E.
    + constructor; [by apply IH|].
      rewrite insert_sorted_perm. constructor; [by apply before_asym|done].
    + constructor; [by constructor|].
      constructor; [done|].
      eapply Forall_impl; [exact Hall|]. intros z Hz. simpl in Hz.
      by apply (before_trans x y z).
Qed.

Lemma sort_by_sorted (l : list A) :
  StronglySorted (λ a b, before b a = false) (sort_by before l).
Proof.
  induction l as [|x l IH]; [constructor|].
  unfold sort_by in *. simpl. by apply insert_sorted_sorted.
Qed.

End SortingFacts.

Lemma strongly_sorted_impl {A} (R1 R2 : relation A) (l : list A) :
  (∀ a b, R1 a b → R2 a b) → StronglySorted R1 l → StronglySorted R2 l.
Proof.
  intros Himpl. induction 1 as [|x l Hs IH Hall]; constructor; [done|].
  eapply Forall_impl; [exact Hall|]. intros y. apply Himpl.
Qed.

Lemma strongly_sorted_sublist {A} (R : relation A) (l k : list A) :
  k `sublist_of` l → StronglySorted R l → StronglySorted R k.
Proof.
  induction 1 as [|x k l Hsub IH|x k l Hsub IH]; intros Hs; [done| |].
  - apply StronglySorted_inv in Hs as [Hs Hall].
    constructor; [by apply IH|].
    rewrite Forall_forall in *. intros y Hy. apply Hall.
    by eapply elem_of_sublist.
  - apply StronglySorted_inv in Hs as [Hs _]. by apply IH.
Qed.

Lemma newer_sorted (rows : list inbox_row) :
  StronglySorted (λ a b, i_created b ≤ i_created a) (sort_by newer rows).
Proof.
  eapply strongly_sorted_impl; [|apply sort_by_sorted].
  - intros a b. unfold newer. intros H%bool_decide_eq_false. lia.
  - intros a b. unfold newer. rewrite bool_decide_eq_true, bool_decide_eq_false. lia.
  - intros a b c. unfold newer. rewrite !bool_decide_eq_false. lia.
Qed.

Lemma partner_then_newer_false (a b : inbox_row) :
  partner_then_newer b a = false →
  String.le (i_partner a) (i_partner b) ∧
  (i_partner a = i_partner b → i_created b ≤ i_created a).
Proof.
  unfold partner_then_newer, newer.
  intros [H1 H2]%orb_false_iff. apply bool_decide_eq_false in H1.
  split.
  - destruct (decide (i_partner b = i_partner a)) as [->|Hne]; [done|].
    destruct (total String.le (i_partner a) (i_partner b)); [done|tauto].
  - intros Heq. rewrite bool_decide_eq_true_2 in H2 by done.
    simpl in H2. apply bool_decide_eq_false in H2. lia.
Qed.

Lemma partner_then_newer_sorted (rows : list inbox_row) :
  StronglySorted
    (λ a b, String.le (i_partner a) (i_partner b) ∧
            (i_partner a = i_partner b → i_created b ≤ i_created a))
    (sort_by partner_then_newer rows).
Proof.
  eapply strongly_sorted_impl; [|apply sort_by_sorted].
  - intros a b. apply partner_then_newer_false.
  - intros a b. unfold partner_then_newer, newer.
    intros [H|H]%orb_true_iff; apply orb_false_iff.
    + apply bool_decide_eq_true in H as [Hne Hle].
      split; [|rewrite (bool_decide_eq_false_2 (i_partner b = i_partner a));
                 [done|congruence]].
      apply bool_decide_eq_false. intros [_ Hle'].
      apply Hne. by apply (anti_symm String.le).
    + apply andb_true_iff in H as [Heq Hlt].
      apply bool_decide_eq_true in Heq. apply bool_decide_eq_true in Hlt.
      split; [apply bool_decide_eq_false; intros [Hne _]; congruence|].
      rewrite bool_decide_eq_true_2 by done. simpl.
      apply bool_decide_eq_false. lia.
  - intros a b c Hab Hbc.
    apply partner_then_newer_false in Hab as [Hle1 Hc1].
    apply partner_then_newer_false in Hbc as [Hle2 Hc2].
    unfold partner_then_newer, newer. apply orb_false_iff. split.
    + apply bool_decide_eq_false. intros [Hne Hle].
      apply Hne. apply (anti_symm String.le); [done|]. by etrans.
    + destruct (decide (i_partner c = i_partner a)) as [Heq|Hne];
        [|by rewrite bool_decide_eq_false_2].
      rewrite bool_decide_eq_true_2 by done. simpl.
      apply bool_decide_eq_false.
      assert (i_partner a = i_partner b) as Hab.
      { apply (anti_symm String.le); [done|]. by rewrite <- Heq. }
      specialize (Hc1 Hab). specialize (Hc2 ltac:(congruence)). lia.
Qed.

Lemma distinct_on_partner_sublist (prev : option string) (rows : list inbox_row) :
  distinct_on_partner prev rows `sublist_of` rows.
Proof.
  revert prev. induction rows as [|r rows IH]; intros prev; simpl; [done|].
  destruct (decide _); [by apply sublist_cons|by apply sublist_skip].
Qed.

Lemma distinct_on_partner_covers (prev : option string) (rows : list inbox_row) r :
  r ∈ rows →
  prev = Some (i_partner r) ∨
  i_partner r ∈ i_partner <$> distinct_on_partner prev rows.
Proof.
  revert prev. induction rows as [|x rows IH]; intros prev;
    [by intros ?%elem_of_nil|].
  simpl. intros [->|Hr]%elem_of_cons.
  - destruct (decide _); [by left|]. right. rewrite fmap_cons. by left.
  - destruct (decide _) as [->|Hne]; [by apply IH|].
    right. rewrite fmap_cons.
    destruct (IH (Some (i_partner x)) Hr) as [[= ->]|Hin]; [by left|by right].
Qed.

Lemma distinct_on_partner_keyed (prev : option string) (rows : list inbox_row) :
  StronglySorted
    (λ a b, String.le (i_partner a) (i_partner b) ∧
            (i_partner a = i_partner b → i_created b ≤ i_created a)) rows →
  (∀ p r, prev = Some p → r ∈ rows → String.le p (i_partner r)) →
  NoDup (i_partner <$> distinct_on_partner prev rows) ∧
  (∀ r, r ∈ distinct_on_partner prev rows →
        prev ≠ Some (i_partner r) ∧
        ∀ r', r' ∈ rows → i_partner r' = i_partner r →
              i_created r' ≤ i_created r).
Proof.
  revert prev. induction rows as [|x rows IH]; intros prev Hs Hprev.
  { split; [constructor|]. by intros r ?%elem_of_nil. }
  apply StronglySorted_inv in Hs as [Hs Hall].
  rewrite Forall_forall in Hall. simpl.
  destruct (decide (prev = Some (i_partner x))) as [Hp|Hp].
  - destruct (IH prev Hs) as [Hnd Hmax].
    { intros p r Hpp Hr. apply (Hprev p r Hpp). by right. }
    split; [done|]. intros r Hr. destruct (Hmax r Hr) as [Hne Hm].
    split; [done|]. intros r' [->|Hr']%elem_of_cons Heq; [|by apply Hm].
    congruence.
  - destruct (IH (Some (i_partner x)) Hs) as [Hnd Hmax].
    { intros p r [= <-] Hr. by apply Hall. }
    split.
    + rewrite fmap_cons. constructor; [|done].
      intros (r & Heq & Hr)%list_elem_of_fmap.
      destruct (Hmax r Hr) as [Hne _]. congruence.
    + intros r [->|Hr]%elem_of_cons.
      * split; [done|]. intros r' [->|Hr']%elem_of_cons Heq; [done|].
        destruct (Hall r' Hr') as [_ Hc]. by apply Hc.
      * destruct (Hmax r Hr) as [Hne Hm]. split.
        -- intros ->. apply Hne. f_equal.
           apply (anti_symm String.le).
           ++ apply Hall. eapply elem_of_sublist; [exact Hr|].
              apply distinct_on_partner_sublist.
           ++ apply (Hprev (i_partner r) x eq_refl). by left.
        -- intros r' [->|Hr']%elem_of_cons Heq; [congruence|by apply Hm].
Qed.

Lemma refers_to_partner (u p : string) (m : message) :
  refers_to u m ∧ partner_of u m = p ↔ in_conversation u p m.
Proof.
  unfold refers_to, partner_of, in_conversation.
  destruct (decide (from_user_id m = u)); naive_solver.
Qed.

Lemma slice_to_sublist {A} (n : Z) (l : list A) : slice_to n l `sublist_of` l.
Proof. unfold slice_to. destruct (decide _); apply sublist_take. Qed.

Lemma inbox_query_spec (d : database) (u : string) :
  NoDup (i_partner <$> inbox_query d u) ∧
  (∀ r, r ∈ inbox_query d u →
        (∃ m, m ∈ messages d ∧ in_conversation u (i_partner r) m ∧
              body m = i_message r ∧ created_at m = i_created r) ∧
        ∀ m, m ∈ messages d → in_conversation u (i_partner r) m →
             created_at m ≤ i_created r) ∧
  (∀ m, m ∈ messages d → refers_to u m →
        partner_of u m ∈ i_partner <$> inbox_query d u).
Proof.
  unfold inbox_query. cbv zeta.
  set (sel := (λ m, InboxRow (partner_of u m) (body m) (created_at m))
                <$> filter (refers_to u) (messages d)).
  set (sorted := sort_by partner_then_newer (sort_by newer sel)).
  assert (Hin : ∀ r, r ∈ sorted ↔ r ∈ sel).
  { intros r. unfold sorted. by rewrite !sort_by_perm. }
  destruct (distinct_on_partner_keyed None sorted) as [Hnd Hmax];
    [apply partner_then_newer_sorted|done|].
  split_and!; [done| |].
  - intros r Hr. destruct (Hmax r Hr) as [_ Hm].
    assert (Hsel : r ∈ sel).
    { apply Hin. eapply elem_of_sublist; [exact Hr|].
      apply distinct_on_partner_sublist. }
    split.
    + apply list_elem_of_fmap in Hsel as (m & -> & Hmf).
      apply list_elem_of_filter in Hmf as [Href Hmd].
      exists m. split_and!; try done. by apply refers_to_partner.
    + intros m Hmd Hconv. apply refers_to_partner in Hconv as [Href Hp].
      apply (Hm (InboxRow (partner_of u m) (body m) (created_at m))); [|done].
      apply Hin. apply list_elem_of_fmap. exists m. split; [done|].
      by apply list_elem_of_filter.
  - intros m Hmd Href.
    destruct (distinct_on_partner_covers None sorted
                (InboxRow (partner_of u m) (body m) (created_at m)))
      as [[=]|Hc]; [|done].
    apply Hin. apply list_elem_of_fmap. exists m. split; [done|].
    by apply list_elem_of_filter.
Qed.

(** X18. The inbox of a user on a reachable server: no partner is listed
    twice; the rows are in the order of their times, the newest first;
    a row carries the text and the time of a message of the conversation
    with its partner, and no message of that conversation is newer; and
    when the limit does not cut the list, every partner the user has a
    message with is listed. On a server that is not reachable the inbox
    is empty. *)
Theorem inbox_lists_latest_message_per_partner
    (d : database) (u : string) (limit : Z) :
  let rows := get_inbox_latest_per_partner d u limit in
  (link_state d = Up →
   NoDup (i_partner <$> rows) ∧
   StronglySorted (λ a b, i_created b ≤ i_created a) rows ∧
   (∀ r, r ∈ rows →
         (∃ m, m ∈ messages d ∧ in_conversation u (i_partner r) m ∧
               body m = i_message r ∧ created_at m = i_created r) ∧
         ∀ m, m ∈ messages d → in_conversation u (i_partner r) m →
              created_at m ≤ i_created r) ∧
   (Z.of_nat (length (inbox_query d u)) ≤ limit →
    ∀ m, m ∈ messages d → refers_to u m →
         partner_of u m ∈ i_partner <$> rows)) ∧
  (link_state d ≠ Up → rows = []).
Proof.
  intros rows. subst rows. unfold get_inbox_latest_per_partner. split.
  - intros ->. destruct (inbox_query_spec d u) as (Hnd & Hrow & Hall).
    pose proof (slice_to_sublist limit (sort_by newer (inbox_query d u)))
      as Hsub.
    split_and!.
    + eapply sublist_NoDup; [|by apply fmap_sublist].
      by rewrite sort_by_perm.
    + eapply strongly_sorted_sublist; [exact Hsub|apply newer_sorted].
    + intros r Hr. apply Hrow.
      rewrite <- (sort_by_perm newer). by eapply elem_of_sublist.
    + intros Hlen m Hm Href. unfold slice_to.
      rewrite decide_True by lia. rewrite take_ge.
      * rewrite sort_by_perm. by apply Hall.
      * rewrite sort_by_perm. lia.
  - intros Hdown. by destruct (link_state d).
Qed.

Lemma inbox_row_message (d : database) (u : string) (limit : Z) (r : inbox_row) :
  r ∈ get_inbox_latest_per_partner d u limit →
  link_state d = Up ∧
  ∃ m, m ∈ messages d ∧ in_conversation u (i_partner r) m ∧
       body m = i_message r ∧ created_at m = i_created r.
Proof.
  unfold get_inbox_latest_per_partner.
  destruct (link_state d); [|by intros ?%elem_of_nil..].
  intros Hr. split; [done|].
  destruct (inbox_query_spec d u) as (_ & Hrow & _).
  apply Hrow. rewrite <- (sort_by_perm newer).
  eapply elem_of_sublist; [exact Hr|apply slice_to_sublist].
Qed.

Lemma py_or_cases (a : option string) (b : string) :
  (py_or a b = b ∨ a = Some (py_or a b)) ∧ (b ≠ "" → py_or a b ≠ "").
Proof.
  unfold py_or. destruct a as [s|]; [|by split; [left|]].
  destruct (decide (s = "")); split; auto.
Qed.

(** X19. The number typed at the inbox and the line that carries it:
    [show_inbox] prints one line for each row of the inbox, numbered from
    1; [inbox_select_partner] returns no partner exactly for the numbers
    that are on no line; for a number that is on a line it returns the
    partner of the row of that line, whose message the line previews,
    with the name the server has for the partner or else the id, and the
    conversation it names has a history. *)
Theorem inbox_choice_opens_listed_conversation
    (s : server) (user : User.t) (c : contacts) (index : Z) :
  let rows :=
    get_inbox_latest_per_partner (store s) (User.user_id user) inbox_limit in
  let lines := show_inbox s user c in
  let choice := inbox_select_partner s user index in
  length lines = length rows ∧
  (choice = (None, None) ↔ index < 1 ∨ Z.of_nat (length lines) < index) ∧
  (1 ≤ index ≤ Z.of_nat (length lines) →
   ∃ r line,
     rows !! Z.to_nat (index - 1) = Some r ∧
     lines !! Z.to_nat (index - 1) = Some line ∧
     l_number line = index ∧
     l_preview line = preview_of (i_message r) ∧
     l_created line = i_created r ∧
     choice.1 = Some (i_partner r) ∧
     (∃ name, choice.2 = Some name ∧
              (name = i_partner r ∨
               lookup_contact_on_server s (i_partner r) = Some name) ∧
              (i_partner r ≠ "" → name ≠ "")) ∧
     get_chat_history_all (store s) (User.user_id user) (i_partner r) ≠ []).
Proof.
  intros rows lines choice.
  assert (Hlen : length lines = length rows).
  { subst lines. unfold show_inbox. by rewrite length_imap. }
  assert (Hrow : 1 ≤ index ≤ Z.of_nat (length rows) →
            ∃ r, rows !! Z.to_nat (index - 1) = Some r).
  { intros Hi. apply lookup_lt_is_Some. lia. }
  split; [done|]. rewrite Hlen. split.
  - subst choice. unfold inbox_select_partner. cbv zeta. fold rows.
    destruct (decide (index < 1 ∨ Z.of_nat (length rows) < index))
      as [Hout|Hin]; [done|].
    destruct (Hrow ltac:(lia)) as [r Hr]. rewrite Hr.
    split; [done|tauto].
  - intros Hi. destruct (Hrow Hi) as [r Hr].
    exists r.
    eexists (InboxLine index _ (preview_of (i_message r)) (i_created r)).
    split; [done|]. split.
    { subst lines. unfold show_inbox. fold rows.
      rewrite list_lookup_imap, Hr. simpl. do 2 f_equal. lia. }
    split_and!; [done|done|done| | |].
    + subst choice. unfold inbox_select_partner. cbv zeta. fold rows.
      rewrite decide_False by lia. by rewrite Hr.
    + subst choice. unfold inbox_select_partner. cbv zeta. fold rows.
      rewrite decide_False by lia. rewrite Hr. cbn [snd].
      eexists. split; [done|].
      destruct (py_or_cases (lookup_contact_on_server s (i_partner r))
                  (i_partner r)) as [[->| <-] Hne]; auto.
    + apply list_elem_of_lookup_2 in Hr.
      apply inbox_row_message in Hr as (Hup & m & Hm & Hconv & _).
      intros Hnil.
      assert (Hin : select_row m ∈
                get_chat_history_all (store s) (User.user_id user) (i_partner r)).
      { apply get_chat_history_all_elem. split; [done|]. by exists m. }
      rewrite Hnil in Hin. by apply elem_of_nil in Hin.
Qed.

Lemma ljust_prefix_length (n : nat) (s : string) :
  String.length (Fmt.ljust n (Fmt.prefix n s)) = n.
Proof.
  revert s. induction n as [|n IH]; intros s; [by destruct s|].
  destruct s as [|ch s]; simpl.
  - f_equal. clear IH. induction n as [|n IH]; [done|]. simpl. by f_equal.
  - f_equal. apply IH.
Qed.

Lemma spaces_get (n i : nat) :
  (i < n)%nat → String.get i (Fmt.spaces n) = Some " "%char.
Proof.
  revert i. induction n as [|n IH]; intros i Hi; [lia|].
  destruct i as [|i]; [done|]. simpl. apply IH. lia.
Qed.

Lemma ljust_prefix_get (n i : nat) (s : string) :
  (i < n)%nat →
  String.get i (Fmt.ljust n (Fmt.prefix n s))
    = Some (default " "%char (String.get i s)).
Proof.
  revert i s. induction n as [|n IH]; intros i s Hi; [lia|].
  destruct s as [|ch s].
  - simpl Fmt.prefix. simpl Fmt.ljust.
    change (String " " (Fmt.spaces n)) with (Fmt.spaces (S n)).
    rewrite spaces_get by done. by destruct i.
  - simpl. destruct i as [|i]; [done|]. apply IH. lia.
Qed.

Lemma replace_get (old new : ascii) (i : nat) (s : string) :
  String.get i (Fmt.replace old new s)
    = (λ ch, if decide (ch = old) then new else ch) <$> String.get i s.
Proof.
  revert i. induction s as [|ch s IH]; intros i; [by destruct i|].
  simpl. destruct i as [|i]; [done|]. apply IH.
Qed.

Lemma get_beyond (i : nat) (s : string) :
  (String.length s ≤ i)%nat → String.get i s = None.
Proof.
  revert i. induction s as [|ch s IH]; intros i Hi; [by destruct i|].
  simpl in *. destruct i as [|i]; [lia|]. apply IH. lia.
Qed.

(** X20. The preview of a message in the inbox fills 50 columns: it has
    50 characters; each of them is the character of the message at the
    same place, a space where the message has a line feed, and a space
    where the message has ended; so it holds no line feed. *)
Theorem preview_fills_fifty_columns (text : string) :
  String.length (preview_of text) = 50%nat ∧
  (∀ i, (i < 50)%nat →
        String.get i (preview_of text)
          = Some (match String.get i text with
                  | Some ch => if decide (ch = ascii_of_N 10) then " "%char else ch
                  | None => " "%char
                  end)) ∧
  (∀ i, String.get i (preview_of text) ≠ Some (ascii_of_N 10)).
Proof.
  assert (Hget : ∀ i, (i < 50)%nat →
            String.get i (preview_of text)
              = Some (match String.get i text with
                      | Some ch =>
                          if decide (ch = ascii_of_N 10) then " "%char else ch
                      | None => " "%char
                      end)).
  { intros i Hi. unfold preview_of.
    rewrite ljust_prefix_get by done. rewrite replace_get.
    by destruct (String.get i text). }
  assert (Hlen : String.length (preview_of text) = 50%nat).
  { unfold preview_of. apply ljust_prefix_length. }
  split_and!; [done|done|].
  intros i. destruct (decide (i < 50)%nat) as [Hi|Hi].
  - rewrite Hget by done.
    destruct (String.get i text) as [ch|];
      [|by intros Heq; vm_compute in Heq].
    destruct (decide (ch = ascii_of_N 10)) as [|Hne];
      [by intros Heq; vm_compute in Heq|].
    intros [= Heq]. apply Hne. exact Heq.
  - intros Hsome.
    assert (Hnone : String.get i (preview_of text) = None).
    { apply get_beyond. lia. }
    congruence.
Qed.

(** ** The contacts *)

Lemma contacts_get_keyed (c : contacts) (uid name : string) :
  NoDup c.*1 → (uid, name) ∈ c → contacts_get c uid = Some name.
Proof.
  intros Hnd Hin. unfold contacts_get.
  by rewrite (head_filter_keyed fst c (uid, name)).
Qed.

Lemma menu_select_contact_spec (c : contacts) (si : Z) (uid name : string) :
  NoDup c.*1 →
  menu_select_contact c si = Some (uid, name) ↔
  1 ≤ si ∧ c !! Z.to_nat (si - 1) = Some (uid, name).
Proof.
  intros Hnd. unfold menu_select_contact.
  destruct (decide (si < 1 ∨ Z.of_nat (length c) < si)) as [Hout|Hin].
  - split; [done|]. intros [Hsi Hl]. apply lookup_lt_Some in Hl. lia.
  - destruct (lookup_lt_is_Some_2 c (Z.to_nat (si - 1))) as [[k v] E]; [lia|].
    rewrite (list_lookup_fmap_Some_2 fst c _ _ E). cbn [fst].
    rewrite (contacts_get_keyed c k v Hnd)
      by (by eapply list_elem_of_lookup_2).
    split.
    + intros [= -> ->]. split; [lia|done].
    + intros [_ Hl]. by pose proof (eq_trans (eq_sym E) Hl) as [= -> ->].
Qed.

Lemma list_contacts_ui_line (c : contacts) (si : Z) (uid name : string) :
  (si, name, uid) ∈ list_contacts_ui c ↔
  1 ≤ si ∧ c !! Z.to_nat (si - 1) = Some (uid, name).
Proof.
  unfold list_contacts_ui. rewrite list_elem_of_lookup. split.
  - intros [i Hi]. rewrite list_lookup_imap in Hi.
    apply fmap_Some in Hi as ([k v] & E & Heq).
    simpl in Heq. injection Heq as -> -> ->.
    split; [lia|].
    replace (Z.to_nat (Z.of_nat i + 1 - 1)) with i by lia. exact E.
  - intros [Hsi Hl]. exists (Z.to_nat (si - 1)). rewrite list_lookup_imap.
    apply fmap_Some. exists (uid, name). split; [exact Hl|].
    simpl. do 2 f_equal. lia.
Qed.

(** X21. The contacts keep their numbers. With ids that are the keys of
    the dictionary, [add_contact_ui] returns the contacts unchanged and
    saves nothing, or adds, behind all others, the id typed (stripped,
    not empty, not yet a contact) with the name the server has for it
    (not empty) and saves what it returns; the number [list_contacts_ui]
    prints before a contact is the number that opens the chat with that
    contact under option 4, before and after a contact is added. *)
Theorem contacts_keep_their_numbers (s : server) (typed : string) (c : contacts) :
  NoDup c.*1 →
  let added := add_contact_ui s typed c in
  NoDup added.1.*1 ∧
  (added = (c, None) ∨
   ∃ name,
     added = (c ++ [(Py.strip typed, name)],
              Some (c ++ [(Py.strip typed, name)])) ∧
     lookup_contact_on_server s (Py.strip typed) = Some name ∧
     name ≠ "" ∧ Py.strip typed ≠ "" ∧ Py.strip typed ∉ c.*1) ∧
  (∀ si uid name,
     menu_select_contact c si = Some (uid, name) ↔
     (si, name, uid) ∈ list_contacts_ui c) ∧
  (∀ si uid name,
     menu_select_contact added.1 si = Some (uid, name) ↔
     (si, name, uid) ∈ list_contacts_ui added.1) ∧
  (∀ si e, menu_select_contact c si = Some e →
           menu_select_contact added.1 si = Some e).
Proof.
  intros Hnd added.
  assert (Hcases :
    added = (c, None) ∨
    ∃ name,
      added = (c ++ [(Py.strip typed, name)],
               Some (c ++ [(Py.strip typed, name)])) ∧
      lookup_contact_on_server s (Py.strip typed) = Some name ∧
      name ≠ "" ∧ Py.strip typed ≠ "" ∧ Py.strip typed ∉ c.*1).
  { subst added. unfold add_contact_ui. cbv zeta.
    destruct (decide (Py.strip typed = "")); [by left|].
    destruct (decide (Py.strip typed ∈ c.*1)); [by left|].
    destruct (lookup_contact_on_server s (Py.strip typed)) as [name|];
      [|by left].
    destruct (decide (name = "")); [by left|].
    right. by exists name. }
  assert (Hnd' : NoDup added.1.*1).
  { destruct Hcases as [->|(name & -> & _ & _ & _ & Hnew)]; [done|].
    cbn [fst]. rewrite fmap_app. apply NoDup_app.
    split_and!; [done| |apply NoDup_singleton].
    by intros x Hx ->%list_elem_of_singleton. }
  split_and!; [done|done| | |].
  - intros si uid name.
    by rewrite menu_select_contact_spec, list_contacts_ui_line.
  - intros si uid name.
    by rewrite menu_select_contact_spec, list_contacts_ui_line.
  - intros si [uid name] Hsel.
    apply menu_select_contact_spec in Hsel as [Hsi Hl]; [|done].
    apply menu_select_contact_spec; [done|]. split; [done|].
    destruct Hcases as [->|(name' & -> & _)]; [done|].
    cbn [fst]. by apply lookup_app_l_Some.
Qed.

(** ** The user of the program *)

Lemma pretty_digit (z : Z) :
  0 ≤ z ≤ 9 →
  ∃ ch, pretty z = String ch "" ∧ (48 ≤ N_of_ascii ch ≤ 57)%N.
Proof.
  intros Hz.
  assert (z = 0 ∨ z = 1 ∨ z = 2 ∨ z = 3 ∨ z = 4 ∨
          z = 5 ∨ z = 6 ∨ z = 7 ∨ z = 8 ∨ z = 9) as Hcases by lia.
  destruct_or!; subst z; eexists; (split; [by vm_compute|by vm_compute]).
Qed.

Lemma isspace_digit (ch : ascii) :
  (48 ≤ N_of_ascii ch ≤ 57)%N → Py.isspace ch = false.
Proof.
  intros Hd. unfold Py.isspace. cbv zeta.
  rewrite !orb_false_iff, !andb_false_iff.
  rewrite !N.leb_gt, !N.eqb_neq. lia.
Qed.

Lemma generate_user_id_digits (randint : nat → Z) :
  (∀ i, 0 ≤ randint i ≤ 9) →
  ∃ c0 c1 c2 c3 c4 c5 c6 c7,
    generate_user_id randint
      = String c0 (String c1 (String c2 (String c3
          (String c4 (String c5 (String c6 (String c7 ""))))))) ∧
    Forall (λ ch, (48 ≤ N_of_ascii ch ≤ 57)%N) [c0; c1; c2; c3; c4; c5; c6; c7].
Proof.
  intros Hr. unfold generate_user_id. cbn [seq fmap list_fmap].
  destruct (pretty_digit _ (Hr 0%nat)) as (c0 & -> & H0).
  destruct (pretty_digit _ (Hr 1%nat)) as (c1 & -> & H1).
  destruct (pretty_digit _ (Hr 2%nat)) as (c2 & -> & H2).
  destruct (pretty_digit _ (Hr 3%nat)) as (c3 & -> & H3).
  destruct (pretty_digit _ (Hr 4%nat)) as (c4 & -> & H4).
  destruct (pretty_digit _ (Hr 5%nat)) as (c5 & -> & H5).
  destruct (pretty_digit _ (Hr 6%nat)) as (c6 & -> & H6).
  destruct (pretty_digit _ (Hr 7%nat)) as (c7 & -> & H7).
  exists c0, c1, c2, c3, c4, c5, c6, c7. split; [done|].
  repeat (apply Forall_cons; split; [done|]). by apply Forall_nil.
Qed.


(** X22. With draws between 0 and 9, [generate_user_id] returns 8
    decimal digits: an id that the column [user_id] stores as it is, and
    that [strip] leaves as it is when it is typed as the id of a
    contact. *)
Theorem generated_id_is_eight_digits (randint : nat → Z) :
  (∀ i, 0 ≤ randint i ≤ 9) →
  let uid := generate_user_id randint in
  String.length uid = 8%nat ∧
  (∀ i ch, String.get i uid = Some ch → (48 ≤ N_of_ascii ch ≤ 57)%N) ∧
  varchar 8 uid = Some uid ∧
  Py.strip uid = uid.
Proof.
  intros Hr uid. subst uid.
  destruct (generate_user_id_digits randint Hr)
    as (c0 & c1 & c2 & c3 & c4 & c5 & c6 & c7 & -> & Hd).
  split_and!.
  - done.
  - intros i ch Hget. rewrite Forall_forall in Hd. apply Hd.
    do 8 (destruct i as [|i]; [injection Hget as <-; set_solver|]).
    done.
  - by apply varchar_fits.
  - repeat match goal with
           | H : Forall _ (_ :: _) |- _ =>
               apply Forall_cons in H as [?%isspace_digit H]
           end.
    unfold Py.strip. cbn [Py.lstrip].
    repeat (cbn [Py.rstrip];
            match goal with
            | H : Py.isspace ?ch = false |- context [Py.isspace ?ch] =>
                rewrite H
            end).
    done.
Qed.



(** ** The inbox after the store has changed *)

Lemma inbox_partner_message (d : database) (u p : string) (limit : Z) :
  p ∈ i_partner <$> get_inbox_latest_per_partner d u limit →
  ∃ m, m ∈ messages d ∧ in_conversation u p m.
Proof.
  intros (r & -> & Hr)%list_elem_of_fmap.
  apply inbox_row_message in Hr as (_ & m & Hm & Hconv & _). eauto.
Qed.

(** X24. What the three deletions leave in the inbox, on a reachable
    server. After [clear_chat_between] neither of the two users lists the
    other. After [delete_user_account] nobody lists the account. After
    [clear_inbox_server] every row left in the inbox of the user is a
    message that the user has sent to the partner of the row, and, when
    the limit does not cut the list, everybody else the user has written
    to is still listed. *)
Theorem deletions_and_the_inbox
    (s : server) (has_file : bool) (user : User.t) (p v : string) (limit : Z) :
  link_state (store s) = Up →
  let u := User.user_id user in
  let cleared := (clear_chat_between (store s) u p).1 in
  let emptied := (clear_inbox_server (store s) u).1 in
  let deleted := store (delete_user_account s has_file user).1.1 in
  (p ∉ i_partner <$> get_inbox_latest_per_partner cleared u limit) ∧
  (u ∉ i_partner <$> get_inbox_latest_per_partner cleared p limit) ∧
  (u ∉ i_partner <$> get_inbox_latest_per_partner deleted v limit) ∧
  (∀ r, r ∈ get_inbox_latest_per_partner emptied u limit →
        i_partner r ≠ u ∧
        ∃ m, m ∈ messages (store s) ∧ from_user_id m = u ∧
             to_user_id m = i_partner r ∧ body m = i_message r ∧
             created_at m = i_created r) ∧
  (Z.of_nat (length (inbox_query emptied u)) ≤ limit →
   ∀ m, m ∈ messages (store s) → from_user_id m = u → to_user_id m ≠ u →
        to_user_id m ∈ i_partner <$> get_inbox_latest_per_partner emptied u limit).
Proof.
  intros Hup u cleared emptied deleted.
  assert (Hcleared : ∀ m, m ∈ messages cleared →
            m ∈ messages (store s) ∧ ¬ in_conversation u p m).
  { subst cleared. unfold clear_chat_between. rewrite Hup. cbn [fst].
    intros m. cbn [delete_where messages]. rewrite list_elem_of_filter. tauto. }
  assert (Hemptied : ∀ m, m ∈ messages emptied ↔
            m ∈ messages (store s) ∧ to_user_id m ≠ u).
  { subst emptied. unfold clear_inbox_server. rewrite Hup. cbn [fst].
    intros m. cbn [delete_where messages]. rewrite list_elem_of_filter. tauto. }
  assert (Hdeleted : ∀ m, m ∈ messages deleted → ¬ refers_to u m).
  { subst deleted. unfold delete_user_account. rewrite Hup. cbv zeta.
    rewrite delete_user_after_messages. unfold Server, store. cbn [fst].
    intros m. cbn [delete_where messages]. rewrite list_elem_of_filter. tauto. }
  split_and!.
  - intros (m & Hm & Hconv)%inbox_partner_message.
    by destruct (Hcleared m Hm).
  - intros (m & Hm & Hconv)%inbox_partner_message.
    destruct (Hcleared m Hm) as [_ Hn]. apply Hn.
    unfold in_conversation in *. tauto.
  - intros (m & Hm & Hconv)%inbox_partner_message.
    apply (Hdeleted m Hm). unfold refers_to, in_conversation in *. tauto.
  - intros r Hr.
    apply inbox_row_message in Hr as (_ & m & Hm & Hconv & Hbody & Hcr).
    apply Hemptied in Hm as [Hm Hto].
    destruct Hconv as [[Hf Ht]|[Hf Ht]]; [|done].
    split; [congruence|]. by exists m.
  - intros Hlen m Hm Hfrom Hto.
    assert (Hup' : link_state emptied = Up).
    { subst emptied. unfold clear_inbox_server. by rewrite Hup. }
    destruct (inbox_query_spec emptied u) as (_ & _ & Hall).
    unfold get_inbox_latest_per_partner, slice_to. rewrite Hup'.
    rewrite decide_True by lia. rewrite take_ge by (rewrite sort_by_perm; lia).
    rewrite sort_by_perm.
    replace (to_user_id m) with (partner_of u m)
      by (unfold partner_of; by rewrite decide_True).
    apply Hall; [by apply Hemptied|by left].
Qed.

(** X25. A message that the store accepts comes first in the inbox of
    the one it is sent to: when [insert_message_returning_id] returns an
    id, for two ids that fit their column and on a server whose clock is
    past the times of the messages it stores, the first row of the inbox
    of the receiver, for a limit of at least 1, carries the sender, the
    text and the time returned. *)
Theorem sent_message_tops_the_inbox
    (d : database) (u p text : string) (limit mid created : Z) :
  (insert_message_returning_id d u p text).2 = Inserted mid created →
  (String.length u ≤ 8)%nat → (String.length p ≤ 8)%nat →
  (∀ m, m ∈ messages d → created_at m < now d) →
  1 ≤ limit →
  head (get_inbox_latest_per_partner
          (insert_message_returning_id d u p text).1 p limit)
    = Some (InboxRow u text created).
Proof.
  intros Hres Hlu Hlp Hclock Hlimit.
  apply insert_accepted in Hres as (f & t & Hok & _ & -> & ->).
  rewrite !varchar_fits in Hok by done.
  destruct Hok as (Hup & _ & _ & _ & [= <-] & [= <-] & _).
  set (sent := Message (serial d + 1) u p text (now d)).
  set (d' := insert_row d u p text).
  assert (Hmsgs : ∀ m, m ∈ messages d' ↔ m ∈ messages d ∨ m = sent).
  { intros m. subst d'. unfold insert_row. cbn [messages].
    rewrite elem_of_app, list_elem_of_singleton. done. }
  destruct (inbox_query_spec d' p) as (_ & Hrow & Hall).
  pose proof (newer_sorted (inbox_query d' p)) as Hsorted.
  assert (Hpartner : partner_of p sent = u).
  { unfold partner_of, sent. cbn [from_user_id to_user_id].
    destruct (decide (u = p)); congruence. }
  assert (Hlisted : u ∈ i_partner <$> sort_by newer (inbox_query d' p)).
  { rewrite sort_by_perm, <- Hpartner. apply Hall.
    - apply Hmsgs. by right.
    - by right. }
  unfold get_inbox_latest_per_partner, slice_to.
  replace (link_state d') with Up by done.
  rewrite decide_True by lia.
  destruct (sort_by newer (inbox_query d' p)) as [|h rows] eqn:E.
  { by apply elem_of_nil in Hlisted. }
  destruct (Z.to_nat limit) as [|k] eqn:Ek; [lia|]. cbn [take head].
  f_equal.
  assert (Hh : h ∈ inbox_query d' p).
  { rewrite <- (sort_by_perm newer), E. by left. }
  destruct (Hrow h Hh) as [(m & Hm & Hconv & Hbody & Hcr) _].
  assert (Hnow : now d ≤ i_created h).
  { apply list_elem_of_fmap in Hlisted as (r & Hu & Hr).
    assert (Hr' : r ∈ inbox_query d' p).
    { rewrite <- (sort_by_perm newer), E. done. }
    destruct (Hrow r Hr') as [_ Hmax].
    assert (now d ≤ i_created r) as Hge.
    { apply (Hmax sent); [apply Hmsgs; by right|].
      rewrite <- Hu. right. done. }
    apply elem_of_cons in Hr as [->|Hr]; [done|].
    apply StronglySorted_inv in Hsorted as [_ Hfirst].
    rewrite Forall_forall in Hfirst. specialize (Hfirst r Hr). simpl in Hfirst.
    lia. }
  apply Hmsgs in Hm as [Hold| ->].
  { specialize (Hclock m Hold). lia. }
  destruct h as [hp hm hc]. cbn [i_partner i_message i_created] in *.
  cbn [sent body created_at] in Hbody, Hcr. subst hm hc. f_equal.
  unfold in_conversation, sent in Hconv. cbn [from_user_id to_user_id] in Hconv.
  destruct Hconv as [[-> <-]|[<- _]]; done.
Qed.

(** ** Runs *)

Lemma busy_server_keyed : db_keyed busy_server.
Proof.
  unfold db_keyed. cbn [busy_server messages fmap list_fmap id].
  repeat (apply NoDup_cons; split; [set_solver|]). apply NoDup_nil_2.
Qed.

Lemma busy_server_sound : db_sound busy_server.
Proof. split; [apply busy_server_wf|apply busy_server_keyed]. Qed.

Lemma town_keyed : users_keyed town.
Proof.
  split; cbn [town users fmap list_fmap User.user_id User.username];
    (repeat (apply NoDup_cons; split; [set_solver|])); apply NoDup_nil_2.
Qed.

Lemma town_references : references_kept town.
Proof.
  intros m Hm. cbn [town store busy_server messages] in Hm.
  cbn [town users fmap list_fmap User.user_id].
  repeat (apply elem_of_cons in Hm as [->|Hm];
          [cbn [from_user_id to_user_id]; set_solver|]).
  by apply elem_of_nil in Hm.
Qed.

Lemma X2_witness :
  db_keyed busy_server ∧
  get_chat_history_since busy_server alice bob 1
    = filter (λ r, 1 < rid r) (get_chat_history_all busy_server alice bob).
Proof.
  split; [exact busy_server_keyed|].
  exact (proj1 (since_is_history_above busy_server alice bob 1
                  busy_server_keyed)).
Defined.

Lemma X3_witness :
  db_sound busy_server ∧
  db_sound (clear_chat_between busy_server alice bob).1 ∧
  db_sound (db (exec alice bob "Bob" [Foreground; Polling]
                  (alice_returning [Typed "hi"]))).
Proof.
  destruct (store_stays_sound alice bob "Bob" busy_server [Typed "hi"]
              [Foreground; Polling] alice bob "hi" busy_server_sound)
    as (_ & Hclear & _ & Hrun).
  split_and!; [exact busy_server_sound|exact Hclear|exact Hrun].
Defined.


Lemma X6_witness :
  link_state busy_server = Up ∧ db_keyed busy_server ∧
  get_chat_history_all (clear_inbox_server busy_server alice).1 alice bob
    = filter (λ r, frm r = alice) (get_chat_history_all busy_server alice bob).
Proof.
  assert (Hne : bob ≠ alice) by done.
  destruct (clear_inbox_server_deletes_received busy_server alice bob eq_refl
              busy_server_keyed Hne) as (_ & _ & Hsent & _).
  split_and!; [reflexivity|exact busy_server_keyed|exact Hsent].
Defined.

Lemma X7_witness :
  submitted (exec alice bob "Bob" [Foreground; Foreground; Foreground]
               (alice_session [Typed " hello "; Typed ""; Typed ""]))
    = ["hello"] ∧
  Py.strip "hello" = "hello" ∧ Py.blank "hello" = false.
Proof.
  assert (Hrun :
    submitted (exec alice bob "Bob" [Foreground; Foreground; Foreground]
                 (alice_session [Typed " hello "; Typed ""; Typed ""]))
      = ["hello"]) by (by vm_compute).
  assert (Hin :
    "hello" ∈ submitted (exec alice bob "Bob" [Foreground; Foreground; Foreground]
                 (alice_session [Typed " hello "; Typed ""; Typed ""]))).
  { rewrite Hrun. by left. }
  destruct (submitted_texts_are_trimmed alice bob "Bob" fresh_server
              [Typed " hello "; Typed ""; Typed ""]
              [Foreground; Foreground; Foreground] "hello" Hin)
    as (_ & Hstrip & Hblank).
  split_and!; [exact Hrun|exact Hstrip|exact Hblank].
Defined.

Lemma X8_witness :
  Forall (λ a, is_outside a = false) [Foreground; Polling] ∧
  Message 2 alice carol "hey" 1700000001
    ∈ messages (db (exec alice bob "Bob" [Foreground; Polling]
                      (alice_returning [Typed "c"; Typed "y"]))).
Proof.
  assert (Hsched : Forall (λ a, is_outside a = false) [Foreground; Polling]).
  { apply Forall_cons. split; [reflexivity|].
    apply Forall_cons. split; [reflexivity|]. apply Forall_nil_2. }
  destruct (session_touches_only_its_conversation alice bob "Bob" busy_server
              [Typed "c"; Typed "y"] [Foreground; Polling] Hsched)
    as [Hkept _].
  split; [exact Hsched|]. apply Hkept.
  - cbn [busy_server messages]. right. by left.
  - unfold in_conversation. cbn [from_user_id to_user_id].
    by intros [[_ ?]|[? _]].
Defined.

Lemma X9_witness :
  session_over (exec alice bob "Bob" [Foreground] (alice_session [Typed "="])) ∧
  stop_event (exec alice bob "Bob" [Foreground] (alice_session [Typed "="]))
    = true.
Proof.
  assert (Hover : session_over
            (exec alice bob "Bob" [Foreground] (alice_session [Typed "="]))).
  { left. reflexivity. }
  destruct (session_over_stops_poller alice bob "Bob" fresh_server
              [Typed "="] [Foreground] Hover) as [Hstop _].
  split; [exact Hover|exact Hstop].
Defined.

Lemma X10_witness :
  fg alice_reloading = AtInput [] ∧
  stdin alice_reloading = [Typed "r"; Typed "r"] ∧
  Py.lower (Py.strip "r") = "r" ∧
  db_keyed (db alice_reloading) ∧
  shown_ids (exec alice bob "Bob" [Foreground; Foreground] alice_reloading)
    = [1].
Proof.
  assert (Hkeyed : db_keyed (db alice_reloading)).
  { unfold db_keyed. change (id <$> messages (db alice_reloading)) with [1].
    apply NoDup_singleton. }
  pose proof (reload_appends_unseen alice bob "Bob" alice_reloading "r"
                [Typed "r"] eq_refl eq_refl eq_refl Hkeyed) as Hrun.
  cbv zeta in Hrun.
  change (get_chat_history_since (db alice_reloading) alice bob
            (last_id (thread alice_reloading)))
    with [ChatRow 1 bob "yo" 1700000000] in Hrun.
  change (replicate (S (length [ChatRow 1 bob "yo" 1700000000])) Foreground)
    with [Foreground; Foreground] in Hrun.
  split_and!; [reflexivity|reflexivity|reflexivity|exact Hkeyed|].
  rewrite Hrun. reflexivity.
Defined.

Lemma X11_witness :
  pc (thread alice_reloading) = AtLoopTest ∧
  stop_event alice_reloading = false ∧
  db_keyed (db alice_reloading) ∧
  shown_ids (exec alice bob "Bob" [Polling; Polling; Polling] alice_reloading)
    = [1].
Proof.
  assert (Hkeyed : db_keyed (db alice_reloading)).
  { unfold db_keyed. change (id <$> messages (db alice_reloading)) with [1].
    apply NoDup_singleton. }
  pose proof (poll_pass_appends_unseen alice bob "Bob" alice_reloading
                eq_refl eq_refl Hkeyed) as Hrun.
  cbv zeta in Hrun.
  change (get_chat_history_since (db alice_reloading) alice bob
            (last_id (thread alice_reloading)))
    with [ChatRow 1 bob "yo" 1700000000] in Hrun.
  change (replicate (2 + length [ChatRow 1 bob "yo" 1700000000]) Polling)
    with [Polling; Polling; Polling] in Hrun.
  split_and!; [reflexivity|reflexivity|exact Hkeyed|].
  rewrite Hrun. reflexivity.
Defined.

Lemma remote_server_keyed : db_keyed remote_server.
Proof. exact busy_server_keyed. Qed.

Lemma X12_witness :
  link_state remote_server ≠ Up ∧ db_keyed remote_server ∧
  scr (chat_session_open alice bob "Bob" remote_server []) = Screen ∅ [] ∧
  last_id (thread (chat_session_open alice bob "Bob" remote_server [])) = 0.
Proof.
  assert (Hdown : link_state remote_server ≠ Up) by done.
  destruct (failed_open_is_recovered_by_poller alice bob "Bob" remote_server []
              Hdown remote_server_keyed) as (Hscr & Hlast & _).
  split_and!; [exact Hdown|exact remote_server_keyed|exact Hscr|exact Hlast].
Defined.

Lemma X13_witness :
  db_keyed busy_server ∧
  Forall leaving_key [Typed " = "] ∧
  NoDup (shown_ids
           (exec alice bob "Bob"
              [Polling; Outside (ExtInsert bob alice "yo"); Polling; Polling;
               Foreground; Polling; Polling]
              (alice_returning [Typed " = "]))) ∧
  shown_ids
    (exec alice bob "Bob"
       [Polling; Outside (ExtInsert bob alice "yo"); Polling; Polling;
        Foreground; Polling; Polling]
       (alice_returning [Typed " = "])) = [1; 3; 4].
Proof.
  assert (Hkeys : Forall leaving_key [Typed " = "]).
  { apply Forall_cons. split; [reflexivity|apply Forall_nil_2]. }
  split_and!; [exact busy_server_keyed|exact Hkeys| |by vm_compute].
  exact (passive_session_renders_each_id_once alice bob "Bob" busy_server
           [Typed " = "]
           [Polling; Outside (ExtInsert bob alice "yo"); Polling; Polling;
            Foreground; Polling; Polling]
           busy_server_keyed (or_introl Hkeys)).
Defined.

Lemma X14_witness :
  db_sound busy_server ∧
  NoDup (delivered (trace (thread
    (exec alice bob "Bob"
       [Polling; Outside (ExtInsert bob alice "yo"); Polling; Polling; Polling]
       (alice_returning []))))).
Proof.
  destruct (poller_delivers_each_row_once alice bob "Bob" busy_server []
              [Polling; Outside (ExtInsert bob alice "yo"); Polling; Polling;
               Polling] busy_server_sound) as (_ & Hnd & _).
  split; [exact busy_server_sound|exact Hnd].
Defined.

Lemma X15_witness :
  users_keyed town ∧ references_kept town ∧
  users_keyed (register_user_on_server town dave).1 ∧
  references_kept (delete_user_account town true (User.Build bob "Bob")).1.1.
Proof.
  destruct (server_keys_are_kept town true dave town_keyed town_references)
    as [[Hreg _] _].
  destruct (server_keys_are_kept town true (User.Build bob "Bob")
              town_keyed town_references) as [_ [_ Hdel]].
  split_and!; [exact town_keyed|exact town_references|exact Hreg|exact Hdel].
Defined.


Lemma X21_witness :
  NoDup alice_contacts.*1 ∧
  add_contact_ui town " 30000003 " alice_contacts
    = ([(bob, "Bob"); (carol, "Carol")], Some [(bob, "Bob"); (carol, "Carol")]) ∧
  menu_select_contact (add_contact_ui town " 30000003 " alice_contacts).1 1
    = Some (bob, "Bob").
Proof.
  assert (Hnd : NoDup alice_contacts.*1) by apply NoDup_singleton.
  destruct (contacts_keep_their_numbers town " 30000003 " alice_contacts Hnd)
    as (_ & _ & _ & _ & Hstay).
  split_and!; [exact Hnd|by vm_compute|].
  apply Hstay. by vm_compute.
Defined.

Lemma X22_witness :
  (∀ i : nat, 0 ≤ 7 ≤ 9) ∧
  generate_user_id (λ _, 7) = "77777777" ∧
  varchar 8 (generate_user_id (λ _, 7)) = Some (generate_user_id (λ _, 7)).
Proof.
  assert (Hr : ∀ i : nat, 0 ≤ (λ _ : nat, 7) i ≤ 9) by (intros; lia).
  destruct (generated_id_is_eight_digits (λ _, 7) Hr) as (_ & _ & Hfits & _).
  split_and!; [exact Hr|by vm_compute|exact Hfits].
Defined.


Lemma X24_witness :
  link_state (store town) = Up ∧
  get_inbox_latest_per_partner (clear_inbox_server (store town) alice).1
    alice inbox_limit
    = [InboxRow bob "hi" 1700000002; InboxRow carol "hey" 1700000001] ∧
  bob ∉ i_partner <$>
        get_inbox_latest_per_partner
          (clear_chat_between (store town) alice bob).1 alice inbox_limit.
Proof.
  destruct (deletions_and_the_inbox town true (User.Build alice "Alice")
              bob carol inbox_limit eq_refl) as (Hgone & _).
  split_and!; [reflexivity|by vm_compute|exact Hgone].
Defined.

Lemma X25_witness :
  (insert_message_returning_id busy_server carol alice "hello").2
    = Inserted 4 1700000003 ∧
  (String.length carol ≤ 8)%nat ∧ (String.length alice ≤ 8)%nat ∧
  (∀ m, m ∈ messages busy_server → created_at m < now busy_server) ∧
  1 ≤ inbox_limit ∧
  head (get_inbox_latest_per_partner
          (insert_message_returning_id busy_server carol alice "hello").1
          alice inbox_limit)
    = Some (InboxRow carol "hello" 1700000003).
Proof.
  assert (Hlc : (String.length carol ≤ 8)%nat) by (vm_compute; lia).
  assert (Hla : (String.length alice ≤ 8)%nat) by (vm_compute; lia).
  assert (Hclock : ∀ m, m ∈ messages busy_server →
                        created_at m < now busy_server).
  { intros m Hm. cbn [busy_server messages now] in *.
    repeat (apply elem_of_cons in Hm as [->|Hm];
            [cbn [created_at]; lia|]).
    by apply elem_of_nil in Hm. }
  assert (Hlimit : 1 ≤ inbox_limit) by (by vm_compute).
  split_and!; [reflexivity|exact Hlc|exact Hla|exact Hclock|exact Hlimit|].
  exact (sent_message_tops_the_inbox busy_server carol alice "hello"
           inbox_limit 4 1700000003 eq_refl Hlc Hla Hclock Hlimit).
Defined.

Lemma X5_witness :
  link_state busy_server = Up ∧
  get_chat_history_all (clear_chat_between busy_server alice bob).1 alice bob
    = [] ∧
  get_chat_history_all (clear_chat_between busy_server alice bob).1 alice carol
    = get_chat_history_all busy_server alice carol.
Proof.
  destruct (clear_chat_between_only_that_conversation busy_server alice bob)
    as [Hup _].
  destruct (Hup eq_refl) as (_ & Hempty & _ & Hother).
  destruct (Hother alice carol 0) as [Hsame _].
  - unfold same_pair. by intros [[_ ?]|[? _]].
  - split_and!; [reflexivity|exact Hempty|exact Hsame].
Defined.

Lemma X17_witness :
  link_state (store town) = Up ∧
  (delete_user_account town true (User.Build bob "Bob")).2 = true ∧
  lookup_contact_on_server
    (delete_user_account town true (User.Build bob "Bob")).1.1 bob = None ∧
  get_chat_history_all
    (store (delete_user_account town true (User.Build bob "Bob")).1.1)
    alice carol
    = get_chat_history_all (store town) alice carol.
Proof.
  destruct (delete_user_account_removes_everything town true
              (User.Build bob "Bob")) as [Hup _].
  destruct (Hup eq_refl) as (Hok & _ & Hgone & _ & _ & _ & Hother).
  split_and!; [reflexivity|exact Hok|exact Hgone|].
  by apply Hother.
Defined.

Lemma X18_witness :
  link_state busy_server = Up ∧
  get_inbox_latest_per_partner busy_server alice inbox_limit
    = [InboxRow bob "hi" 1700000002; InboxRow carol "hey" 1700000001] ∧
  NoDup (i_partner <$>
           get_inbox_latest_per_partner busy_server alice inbox_limit).
Proof.
  destruct (inbox_lists_latest_message_per_partner busy_server alice
              inbox_limit) as [Hup _].
  destruct (Hup eq_refl) as (Hnd & _).
  split_and!; [reflexivity|by vm_compute|exact Hnd].
Defined.

Lemma X19_witness :
  show_inbox town (User.Build alice "Alice") alice_contacts
    = [InboxLine 1 "Bob            "
         "hi                                                " 1700000002;
       InboxLine 2 "Carol          "
         "hey                                               " 1700000001] ∧
  inbox_select_partner town (User.Build alice "Alice") 2
    = (Some carol, Some "Carol") ∧
  get_chat_history_all (store town) alice carol ≠ [].
Proof.
  destruct (inbox_choice_opens_listed_conversation town
              (User.Build alice "Alice") alice_contacts 2)
    as (_ & _ & Hline).
  destruct Hline as (r & line & Hr & _ & _ & _ & _ & _ & _ & Hhist).
  - by vm_compute.
  - assert (Hcarol : r = InboxRow carol "hey" 1700000001).
    { vm_compute in Hr. by injection Hr as <-. }
    rewrite Hcarol in Hhist.
    split_and!; [by vm_compute|by vm_compute|exact Hhist].
Defined.
